(** * Product matching engine of [backend/scraper.py]

    A shallow embedding of [match_products] and of the helpers it relies on,
    followed by the properties of the unified catalogue it builds.

    Modelling choices, all taken from the Python source:
    - a listing is the dict built by the scrapers; the keys read by
      [match_products] become record fields, [None] becomes [option];
    - prices, ratings and scores are Python floats, i.e. IEEE binary64:
      they are Rocq's primitive floats, so every sum and comparison below
      rounds exactly as the interpreter does;
    - an identifier set is a Python [set] of [str]: a [gset string];
    - [int(...)] may raise [ValueError]: the matching loop lives in an
      error monad;
    - [list(s)[0]] depends on the hash order of the interpreter: the
      order is a parameter, constrained only to yield an element of [s];
    - [extract_key_identifiers] (a regex cascade over the title), the
      embedding model and the cosine matrix are parameters of the loop,
      which only consumes their results; the extractor itself is
      modelled in the last part, with [normalize_title] and
      [parse_price], and put in the place of the parameter there. *)

From Stdlib Require Import ZArith String Ascii List Bool Lia.
From Stdlib Require Import Floats.PrimFloat.
From stdpp Require Import base decidable option list gmap sets strings pretty.

Set Default Proof Using "Type".
Set Warnings "-inexact-float".
Open Scope string_scope.
Open Scope list_scope.

(** ** Python strings *)

Module PyStr.

(** [s.startswith(p)] *)
Definition startswith (p s : string) : bool := String.prefix p s.

(** [s.endswith(p)] *)
Definition endswith (p s : string) : bool :=
  let n := String.length s in
  let k := String.length p in
  if (k <=? n)%nat then String.eqb (String.substring (n - k) k s) p else false.

(** [s.replace('inch', '')]: every occurrence is dropped, scanning from
    the left; what follows a dropped occurrence is scanned afresh. *)
Fixpoint remove_inch (s : string) : string :=
  match s with
  | String "i" (String "n" (String "c" (String "h" r))) => remove_inch r
  | String c r => String c (remove_inch r)
  | EmptyString => EmptyString
  end.

Definition is_digit (c : ascii) : bool :=
  let n := nat_of_ascii c in (48 <=? n)%nat && (n <=? 57)%nat.

Definition is_space (c : ascii) : bool :=
  let n := nat_of_ascii c in
  ((9 <=? n)%nat && (n <=? 13)%nat) || ((28 <=? n)%nat && (n <=? 32)%nat).

Definition digit_val (c : ascii) : Z := Z.of_nat (nat_of_ascii c - 48).

(** Digits of a decimal literal; a single underscore may separate two
    digits.  [seen] records that the previous character was a digit. *)
Fixpoint digits (acc : Z) (seen : bool) (s : list ascii) : option Z :=
  match s with
  | [] => if seen then Some acc else None
  | c :: r =>
      if is_digit c then digits (acc * 10 + digit_val c) true r
      else if Ascii.eqb c "_" && seen then digits acc false r
      else None
  end.

Fixpoint lstrip (s : list ascii) : list ascii :=
  match s with
  | c :: r => if is_space c then lstrip r else s
  | [] => []
  end.

Definition strip (s : list ascii) : list ascii :=
  rev (lstrip (rev (lstrip s))).

(** [int(s)] on a [str], base ten: surrounding white space, an optional
    sign, digits.  [None] stands for [ValueError].  (Digits outside ASCII,
    which [int] also reads, are not produced by the tag formats.) *)
Definition int (s : string) : option Z :=
  match strip (list_ascii_of_string s) with
  | "-"%char :: r => Z.opp <$> digits 0 false r
  | "+"%char :: r => digits 0 false r
  | r => digits 0 false r
  end.

End PyStr.

(** ** Python floats *)

Module PyFloat.

(** Conversion of a small non-negative [int] to [float]; exact below
    [2^53], which is all a tag count can reach. *)
Fixpoint of_nat (n : nat) : float :=
  match n with
  | O => 0%float
  | S k => (of_nat k + 1)%float
  end.

(** Truth value of a float: everything but [0.0] and [-0.0]. *)
Definition truthy (x : float) : bool := negb (PrimFloat.eqb x 0%float).

(** [a > b] *)
Definition gt (a b : float) : bool := PrimFloat.ltb b a.

(** The builtin [min(a, b)]: the first argument unless the second is
    strictly smaller. *)
Definition min (a b : float) : float := if PrimFloat.ltb b a then b else a.

End PyFloat.

(** Truth value of a field holding a float or [None]. *)
Definition truthy_price (p : option float) : bool :=
  match p with
  | Some x => PyFloat.truthy x
  | None => false
  end.

(** ** Exceptions *)

Inductive PyError := ValueError | IndexError.

Inductive result (A : Type) :=
| Ok (a : A)
| Raise (e : PyError).
Arguments Ok {A} a.
Arguments Raise {A} e.

#[global] Instance result_ret : MRet result := λ A a, Ok a.
#[global] Instance result_bind : MBind result := λ A B k m,
  match m with
  | Ok a => k a
  | Raise e => Raise e
  end.

(** [for n, x in enumerate(l, start)] threading a state, stopping at the
    first exception. *)
Fixpoint for_enumerate {S X} (body : S → nat → X → result S)
    (start : nat) (l : list X) (s : S) : result S :=
  match l with
  | [] => Ok s
  | x :: r => s' ← body s start x; for_enumerate body (Datatypes.S start) r s'
  end.

(** ** Data model *)

(** One scraped product (the dict appended by [scrape_amazon] and
    [scrape_flipkart]; its ["source"] key is never read by the matcher). *)
Record Listing := {
  title : string;
  price : option float;
  image : option string;
  link : option string;
  rating : option float;
  is_prime : bool
}.

(** One record of the result.  [has_comparison] is [None] until the last
    loop of [match_products] sets the key. *)
Record Unified := {
  id : nat;
  u_title : string;
  u_image : option string;
  u_rating : option float;
  u_is_prime : bool;
  amazon_price : option float;
  amazon_link : option string;
  flipkart_price : option float;
  flipkart_link : option string;
  has_comparison : option bool
}.

Definition set_id (n : nat) (u : Unified) : Unified :=
  {| id := n; u_title := u_title u; u_image := u_image u;
     u_rating := u_rating u; u_is_prime := u_is_prime u;
     amazon_price := amazon_price u; amazon_link := amazon_link u;
     flipkart_price := flipkart_price u; flipkart_link := flipkart_link u;
     has_comparison := has_comparison u |}.

Definition set_has_comparison (b : bool) (u : Unified) : Unified :=
  {| id := id u; u_title := u_title u; u_image := u_image u;
     u_rating := u_rating u; u_is_prime := u_is_prime u;
     amazon_price := amazon_price u; amazon_link := amazon_link u;
     flipkart_price := flipkart_price u; flipkart_link := flipkart_link u;
     has_comparison := Some b |}.

(** An identifier set, as returned by [extract_key_identifiers]. *)
Abbreviation idset := (gset string).

(** Iteration order of a set.  [list(s)[0]] is the first element in the
    hash order of the running interpreter; all the code may rely on is
    that it is an element of [s]. *)
Record SetOrder := {
  set_first : idset → option string;
  set_first_spec : ∀ s : idset,
    match set_first s with Some x => x ∈ s | None => s = ∅ end
}.

(** Truth value of a set: non-empty. *)
Definition nonempty (s : idset) : bool := bool_decide (s ≠ ∅).

(** [{x for x in ids if x.startswith(p)}] *)
Definition with_prefix (p : string) (ids : idset) : idset :=
  filter (λ x, PyStr.startswith p x = true) ids.

(** [{x for x in ids if x.endswith('inch')}] *)
Definition sizes_of (ids : idset) : idset :=
  filter (λ x, PyStr.endswith "inch" x = true) ids.

(** ** Conflict rules

    Each rule reads the two identifier sets of a candidate pair (the price
    rule reads the two prices).  The sets are recomputed for every pair, as
    in the loop body. *)

Definition res_types : idset := {[ "4k"; "fhd"; "hd" ]}.

Definition variants : idset :=
  {[ "pro"; "max"; "plus"; "ultra"; "mini"; "air"; "lite"; "fe"; "v2";
     "gen"; "generation" ]}.

Definition brand_ids : idset :=
  {[ "apple"; "iphone"; "samsung"; "oneplus"; "xiaomi"; "redmi"; "realme";
     "oppo"; "vivo"; "poco"; "motorola"; "google"; "pixel"; "nothing"; "mi";
     "lg"; "sony"; "boat"; "jbl" ]}.

(** The brand list of [extract_key_identifiers]. *)
Definition brands : idset :=
  {[ "apple"; "iphone"; "samsung"; "oneplus"; "xiaomi"; "redmi"; "realme";
     "oppo"; "vivo"; "poco"; "motorola"; "google"; "pixel"; "nothing";
     "mi"; "lg"; "sony"; "toshiba"; "tcl"; "panasonic"; "philips"; "haier";
     "hisense"; "vu"; "acer"; "acerpure"; "kenstar"; "onida"; "iffalcon";
     "hp"; "dell"; "lenovo"; "asus"; "msi"; "macbook"; "thinkpad";
     "boat"; "jbl"; "bose"; "sennheiser"; "noise"; "zebronics"; "skullcandy";
     "prestige"; "bajaj"; "butterfly"; "preethi"; "pigeon";
     "havells"; "morphy richards"; "usha"; "crompton"; "kent"; "maharaja";
     "sujata"; "bosch"; "wonderchef"; "kenwood"; "inalsa"; "hamilton" ]}.

Definition series_conflict (amz_identifiers fk_identifiers : idset) : bool :=
  let amz_series := with_prefix "series_" amz_identifiers in
  let fk_series := with_prefix "series_" fk_identifiers in
  nonempty amz_series && nonempty fk_series
  && bool_decide (amz_series ≠ fk_series).

Definition resolution_conflict (amz_identifiers fk_identifiers : idset) : bool :=
  let amz_res := amz_identifiers ∩ res_types in
  let fk_res := fk_identifiers ∩ res_types in
  nonempty amz_res && nonempty fk_res && negb (nonempty (amz_res ∩ fk_res)).

Definition variant_conflict (amz_identifiers fk_identifiers : idset) : bool :=
  let amz_vars := amz_identifiers ∩ variants in
  let fk_vars := fk_identifiers ∩ variants in
  bool_decide (amz_vars ≠ fk_vars).

Definition price_conflict (amz_price fk_price : option float) : bool :=
  match amz_price, fk_price with
  | Some p1, Some p2 =>
      if PyFloat.truthy p1 && PyFloat.truthy p2
      then PyFloat.gt (PrimFloat.abs (p1 - p2) / PyFloat.min p1 p2)%float
                      0.8%float
      else false
  | _, _ => false
  end.

Definition color_conflict (amz_identifiers fk_identifiers : idset) : bool :=
  let amz_colors := with_prefix "color_" amz_identifiers in
  let fk_colors := with_prefix "color_" fk_identifiers in
  nonempty amz_colors && nonempty fk_colors
  && bool_decide (amz_colors ≠ fk_colors).

Definition unit_conflict (amz_identifiers fk_identifiers : idset) : bool :=
  let amz_units := with_prefix "unit_" amz_identifiers in
  let fk_units := with_prefix "unit_" fk_identifiers in
  nonempty amz_units && nonempty fk_units
  && bool_decide (amz_units ≠ fk_units).

Definition storage_conflict (amz_identifiers fk_identifiers : idset) : bool :=
  let amz_storage := with_prefix "storage_" amz_identifiers in
  let fk_storage := with_prefix "storage_" fk_identifiers in
  nonempty amz_storage && nonempty fk_storage
  && negb (nonempty (amz_storage ∩ fk_storage)).

Definition watt_conflict (amz_identifiers fk_identifiers : idset) : bool :=
  let amz_watt := with_prefix "watt_" amz_identifiers in
  let fk_watt := with_prefix "watt_" fk_identifiers in
  nonempty amz_watt && nonempty fk_watt && bool_decide (amz_watt ≠ fk_watt).

Definition appmodel_conflict (amz_identifiers fk_identifiers : idset) : bool :=
  let amz_appmodel := with_prefix "appmodel_" amz_identifiers in
  let fk_appmodel := with_prefix "appmodel_" fk_identifiers in
  nonempty amz_appmodel && nonempty fk_appmodel
  && negb (nonempty (amz_appmodel ∩ fk_appmodel)).

Definition jars_conflict (amz_identifiers fk_identifiers : idset) : bool :=
  let amz_jars := with_prefix "jars_" amz_identifiers in
  let fk_jars := with_prefix "jars_" fk_identifiers in
  nonempty amz_jars && nonempty fk_jars && bool_decide (amz_jars ≠ fk_jars).

(** [int(list(sizes)[0].replace('inch', ''))] *)
Definition size_value (ord : SetOrder) (sizes : idset) : result Z :=
  match set_first ord sizes with
  | None => Raise IndexError
  | Some x =>
      match PyStr.int (PyStr.remove_inch x) with
      | Some v => Ok v
      | None => Raise ValueError
      end
  end.

Definition size_conflict (ord : SetOrder)
    (amz_identifiers fk_identifiers : idset) : result bool :=
  let amz_sizes := sizes_of amz_identifiers in
  let fk_sizes := sizes_of fk_identifiers in
  if nonempty amz_sizes && nonempty fk_sizes then
    amz_val ← size_value ord amz_sizes;
    fk_val ← size_value ord fk_sizes;
    Ok (1 <? Z.abs (amz_val - fk_val))%Z
  else Ok false.

(** ** Scoring *)

Definition model_match (amz_identifiers fk_identifiers : idset) : bool :=
  let amz_models := with_prefix "model_" amz_identifiers in
  let fk_models := with_prefix "model_" fk_identifiers in
  nonempty amz_models && nonempty fk_models
  && nonempty (amz_models ∩ fk_models).

Definition identifier_overlap (amz_identifiers fk_identifiers : idset) : nat :=
  size (amz_identifiers ∩ fk_identifiers).

Definition composite_score (semantic_score : float)
    (amz_identifiers fk_identifiers : idset) : float :=
  let score := semantic_score in
  let score :=
    (score
     + PyFloat.of_nat (identifier_overlap amz_identifiers fk_identifiers) * 0.1)%float in
  if model_match amz_identifiers fk_identifiers
  then (score + 0.5)%float else score.

Definition brand_signal (amz_identifiers fk_identifiers : idset) : bool :=
  nonempty ((amz_identifiers ∩ brand_ids) ∩ (fk_identifiers ∩ brand_ids)).

Definition storage_signal (amz_identifiers fk_identifiers : idset) : bool :=
  let amz_storage := with_prefix "storage_" amz_identifiers in
  let fk_storage := with_prefix "storage_" fk_identifiers in
  nonempty amz_storage && nonempty fk_storage
  && bool_decide (amz_storage = fk_storage).

Definition color_signal (amz_identifiers fk_identifiers : idset) : bool :=
  let amz_colors := with_prefix "color_" amz_identifiers in
  let fk_colors := with_prefix "color_" fk_identifiers in
  nonempty amz_colors && nonempty fk_colors
  && bool_decide (amz_colors = fk_colors).

Definition key_match_count (amz_identifiers fk_identifiers : idset) : nat :=
  (if brand_signal amz_identifiers fk_identifiers then 1 else 0)
  + (if storage_signal amz_identifiers fk_identifiers then 1 else 0)
  + (if color_signal amz_identifiers fk_identifiers then 1 else 0).

(** The [if]/[elif] chain under [if score > best_score]: every branch
    performs the same three assignments. *)
Definition confidence_gate (key_match_count : nat) (semantic_score : float)
    (model_match : bool) : bool :=
  if (3 <=? key_match_count)%nat && PyFloat.gt semantic_score 0.5%float then true
  else if (2 <=? key_match_count)%nat && PyFloat.gt semantic_score 0.6%float then true
  else if model_match then true
  else if PyFloat.gt semantic_score 0.78%float then true
  else false.

(** ** The matching loop *)

(** Entries of [amz_data] and [fk_data].  Their ['embedding'] and ['words']
    keys are never read by the loop and are left out. *)
Record AmzData := { amz_p : Listing; amz_identifiers : idset }.
Record FkData := { fk_idx : Z; fk_p : Listing; fk_identifiers : idset }.

(** The running best of one anchor: [best_match], [best_score], [best_idx]. *)
Record Best := {
  best_match : option Listing;
  best_score : float;
  best_idx : Z
}.

Definition no_best : Best :=
  {| best_match := None; best_score := 0%float; best_idx := (-1)%Z |}.

(** A pure [for n, x in enumerate(l, start)]. *)
Fixpoint fold_enumerate {S X} (body : S → nat → X → S)
    (start : nat) (l : list X) (s : S) : S :=
  match l with
  | [] => s
  | x :: r => fold_enumerate body (Datatypes.S start) r (body s start x)
  end.

Definition both_prices (p : Unified) : bool :=
  truthy_price (amazon_price p) && truthy_price (flipkart_price p).

(** The last eleven lines of [match_products]: partition, concatenate,
    renumber, set [has_comparison]. *)
Definition finalize (unified_products : list Unified) : list Unified :=
  let matched := List.filter both_prices unified_products in
  let unmatched := List.filter (λ p, negb (both_prices p)) unified_products in
  let sorted_products := matched ++ unmatched in
  imap (λ i product,
          set_has_comparison (both_prices product) (set_id (i + 1) product))
       sorted_products.

Section Matching.

(** The interpreter's set order, the identifier extractor and the matrix
    [util.cos_sim(amz_embeddings, fk_embeddings)], read at [[i][j]]. *)
Variable ord : SetOrder.
Variable extract_key_identifiers : string → idset.
Variable cosine_scores : nat → nat → float.

(** The eleven conflict flags of one candidate pair, or-ed as in the
    [if ...: continue] that follows them.  Only the size rule can raise. *)
Definition hard_conflict (amz_product fk_product : Listing)
    (amz_identifiers fk_identifiers : idset) : result bool :=
  let series_conflict := series_conflict amz_identifiers fk_identifiers in
  let resolution_conflict := resolution_conflict amz_identifiers fk_identifiers in
  size_conflict ← size_conflict ord amz_identifiers fk_identifiers;
  let variant_conflict := variant_conflict amz_identifiers fk_identifiers in
  let price_conflict := price_conflict (price amz_product) (price fk_product) in
  let color_conflict := color_conflict amz_identifiers fk_identifiers in
  let unit_conflict := unit_conflict amz_identifiers fk_identifiers in
  let storage_conflict := storage_conflict amz_identifiers fk_identifiers in
  let watt_conflict := watt_conflict amz_identifiers fk_identifiers in
  let appmodel_conflict := appmodel_conflict amz_identifiers fk_identifiers in
  let jars_conflict := jars_conflict amz_identifiers fk_identifiers in
  Ok (series_conflict || resolution_conflict || size_conflict
      || storage_conflict || color_conflict || unit_conflict
      || variant_conflict || price_conflict || watt_conflict
      || appmodel_conflict || jars_conflict).

(** The running best once the candidate [fk] has been accepted. *)
Definition accepted (score : float) (fk : FkData) : Best :=
  {| best_match := Some (fk_p fk); best_score := score; best_idx := fk_idx fk |}.

(** Body of [for j, fk in enumerate(fk_data)]; the result is the running
    best after the iteration. *)
Definition consider (i : nat) (amz : AmzData) (used_flipkart : gset Z)
    (best : Best) (j : nat) (fk : FkData) : result Best :=
  if bool_decide (fk_idx fk ∈ used_flipkart) then Ok best else
  let semantic_score := cosine_scores i j in
  let amz_identifiers := amz_identifiers amz in
  let fk_identifiers := fk_identifiers fk in
  conflict ← hard_conflict (amz_p amz) (fk_p fk) amz_identifiers fk_identifiers;
  let model_match := model_match amz_identifiers fk_identifiers in
  let score := composite_score semantic_score amz_identifiers fk_identifiers in
  if (conflict : bool) then Ok best else
  let key_match_count := key_match_count amz_identifiers fk_identifiers in
  if PyFloat.gt score (best_score best)
     && confidence_gate key_match_count semantic_score model_match
  then Ok (accepted score fk)
  else Ok best.

(** The inner loop for the anchor of index [i]. *)
Definition best_for (fk_data : list FkData) (i : nat) (amz : AmzData)
    (used_flipkart : gset Z) : result Best :=
  for_enumerate (consider i amz used_flipkart) 0 fk_data no_best.

(** The dict built for an anchor; [n] is [len(unified_products)]. *)
Definition unified_of_anchor (n : nat) (amz_product : Listing)
    (best_match : option Listing) : Unified :=
  {| id := n + 1;
     u_title := title amz_product;
     u_image := image amz_product;
     u_rating := rating amz_product;
     u_is_prime := is_prime amz_product;
     amazon_price := price amz_product;
     amazon_link := link amz_product;
     flipkart_price := best_match ≫= price;
     flipkart_link := best_match ≫= link;
     has_comparison := None |}.

(** The dict built for a Flipkart product nobody consumed. *)
Definition unified_of_unmatched (n : nat) (fk_product : Listing) : Unified :=
  {| id := n + 1;
     u_title := title fk_product;
     u_image := image fk_product;
     u_rating := rating fk_product;
     u_is_prime := false;
     amazon_price := None;
     amazon_link := None;
     flipkart_price := price fk_product;
     flipkart_link := link fk_product;
     has_comparison := None |}.

(** Body of [for i, amz in enumerate(amz_data)] on the pair
    [(unified_products, used_flipkart)]. *)
Definition anchor_body (fk_data : list FkData)
    (st : list Unified * gset Z) (i : nat) (amz : AmzData)
    : result (list Unified * gset Z) :=
  let unified_products := st.1 in
  let used_flipkart := st.2 in
  best ← best_for fk_data i amz used_flipkart;
  let unified :=
    unified_of_anchor (length unified_products) (amz_p amz) (best_match best) in
  let used_flipkart :=
    match best_match best with
    | Some _ => {[ best_idx best ]} ∪ used_flipkart
    | None => used_flipkart
    end in
  Ok (unified_products ++ [unified], used_flipkart).

(** Body of [for idx, fk_product in enumerate(flipkart_products)]. *)
Definition add_unmatched (used_flipkart : gset Z)
    (unified_products : list Unified) (idx : nat) (fk_product : Listing)
    : list Unified :=
  if bool_decide (Z.of_nat idx ∈ used_flipkart) then unified_products
  else unified_products
       ++ [unified_of_unmatched (length unified_products) fk_product].

(** Entries of [amz_data] and [fk_data] for one listing. *)
Definition amz_of (amz_p : Listing) : AmzData :=
  {| amz_p := amz_p; amz_identifiers := extract_key_identifiers (title amz_p) |}.

Definition fk_at (idx : nat) (fk_p : Listing) : FkData :=
  {| fk_idx := Z.of_nat idx; fk_p := fk_p;
     fk_identifiers := extract_key_identifiers (title fk_p) |}.

Definition make_amz_data (amazon_products : list Listing) : list AmzData :=
  map amz_of amazon_products.

Definition make_fk_data (flipkart_products : list Listing) : list FkData :=
  imap fk_at flipkart_products.

(** Steps 1 to 4 and the loop over leftovers: the list as it stands just
    before the final partition. *)
Definition build_unified (amazon_products flipkart_products : list Listing)
    : result (list Unified) :=
  let amz_data := make_amz_data amazon_products in
  let fk_data := make_fk_data flipkart_products in
  st ← for_enumerate (anchor_body fk_data) 0 amz_data ([], ∅);
  Ok (fold_enumerate (add_unmatched st.2) 0 flipkart_products st.1).

Definition match_products (amazon_products flipkart_products : list Listing)
    : result (list Unified) :=
  match amazon_products, flipkart_products with
  | [], _ | _, [] => Ok []
  | _, _ =>
      unified_products ← build_unified amazon_products flipkart_products;
      Ok (finalize unified_products)
  end.

End Matching.

(** ** Two set orders

    Which element [list(s)[0]] returns depends on the string hashes of the
    process.  Two orders are enough for the examples below: the order of
    [elements], and that order reversed. *)

Lemma head_elements_spec (s : idset) :
  match head (elements s) with Some x => x ∈ s | None => s = ∅ end.
Proof.
  destruct (elements s) as [|x l] eqn:E; cbn.
  - apply leibniz_equiv. by apply elements_empty_inv.
  - apply elem_of_elements. rewrite E. left.
Qed.

Lemma last_elements_spec (s : idset) :
  match last (elements s) with Some x => x ∈ s | None => s = ∅ end.
Proof.
  destruct (last (elements s)) as [x|] eqn:E.
  - apply elem_of_elements. by apply last_Some_elem_of.
  - apply last_None in E. apply leibniz_equiv. by apply elements_empty_inv.
Qed.

Definition order_fwd : SetOrder :=
  {| set_first := λ s, head (elements s); set_first_spec := head_elements_spec |}.

Definition order_bwd : SetOrder :=
  {| set_first := λ s, last (elements s); set_first_spec := last_elements_spec |}.

(** ** Vocabulary of the statements

    Names for what the loops compute, used to state the properties. *)

Section Vocabulary.
Variable ord : SetOrder.
Variable extract : string → idset.
Variable cos : nat → nat → float.

(** The score the loop computes for anchor [i] and candidate [j]. *)
Definition pair_score (i : nat) (amz : AmzData) (j : nat) (fk : FkData) : float :=
  composite_score (cos i j) (amz_identifiers amz) (fk_identifiers fk).

Definition pair_gate (i : nat) (amz : AmzData) (j : nat) (fk : FkData) : bool :=
  confidence_gate (key_match_count (amz_identifiers amz) (fk_identifiers fk))
    (cos i j) (model_match (amz_identifiers amz) (fk_identifiers fk)).

Definition pair_conflict (amz : AmzData) (fk : FkData) : result bool :=
  hard_conflict ord (amz_p amz) (fk_p fk) (amz_identifiers amz) (fk_identifiers fk).

(** What it takes for candidate [j] to be taken, the score aside. *)
Definition acceptable (i : nat) (amz : AmzData) (used : gset Z)
    (j : nat) (fk : FkData) : Prop :=
  (fk_idx fk ∉ used) ∧ pair_conflict amz fk = Ok false ∧ pair_gate i amz j fk = true.

(** The running best is either the initial one or an acceptable candidate
    met so far. *)
Definition selected (i : nat) (amz : AmzData) (used : gset Z)
    (fk_data : list FkData) (best : Best) : Prop :=
  best = no_best
  ∨ ∃ j fk, fk_data !! j = Some fk ∧ acceptable i amz used j fk
            ∧ best = accepted (pair_score i amz j fk) fk.

(** Anchor [i] took candidate [j]: no rule rejected the pair and a
    confidence gate let it through. *)
Definition matched_pair (A B : list Listing) (i j : nat) : Prop :=
  ∃ a b, A !! i = Some a ∧ B !! j = Some b
         ∧ pair_conflict (amz_of extract a) (fk_at extract j b) = Ok false
         ∧ pair_gate i (amz_of extract a) j (fk_at extract j b) = true.

(** Indices of the Flipkart listings taken by some anchor. *)
Definition consumed (ms : list (option nat)) : list nat := omap (λ m, m) ms.

Definition used_of (ms : list (option nat)) : gset Z :=
  list_to_set (Z.of_nat <$> consumed ms).

(** [ms] assigns to each anchor of [A] at most one listing of [B], no
    listing twice. *)
Definition assignment (A B : list Listing) (ms : list (option nat)) : Prop :=
  length ms = length A
  ∧ NoDup (consumed ms)
  ∧ (∀ j, j ∈ consumed ms → j < length B)
  ∧ (∀ i j, ms !! i = Some (Some j) → matched_pair A B i j).

End Vocabulary.

(** The two sets share a tag of namespace [p]. *)
Definition shares_tag (p : string) (a f : idset) : Prop :=
  ∃ x, PyStr.startswith p x = true ∧ x ∈ a ∧ x ∈ f.

(** Both sets have tags of namespace [p]. *)
Definition both_tagged (p : string) (a f : idset) : Prop :=
  (∃ x, PyStr.startswith p x = true ∧ x ∈ a)
  ∧ (∃ y, PyStr.startswith p y = true ∧ y ∈ f).

(** Both sets have tags of namespace [p], and the same ones. *)
Definition same_tags (p : string) (a f : idset) : Prop :=
  both_tagged p a f
  ∧ ∀ x, PyStr.startswith p x = true → (x ∈ a ↔ x ∈ f).

(** The two sets share one of the brands of [brand_ids]. *)
Definition shares_brand (a f : idset) : Prop :=
  ∃ x, x ∈ brand_ids ∧ x ∈ a ∧ x ∈ f.

(** Some tag of namespace [p] is on one side only. *)
Definition tag_on_one_side (p : string) (a f : idset) : Prop :=
  ∃ x, PyStr.startswith p x = true ∧ ((x ∈ a ∧ (x ∉ f)) ∨ ((x ∉ a) ∧ x ∈ f)).

(** The colour rule read as disjointness: a conflict exactly when both
    sides have color_ tags and share none. *)
Definition color_rule_by_disjointness (a f : idset) : Prop :=
  color_conflict a f = true
  ↔ both_tagged "color_" a f ∧ ¬ shares_tag "color_" a f.

(** The size tags of a listing can be read: there is none, or the one the
    set yields first is a number followed by [inch]. *)
Definition sizes_readable (ord : SetOrder) (ids : idset) : Prop :=
  sizes_of ids = ∅ ∨ ∃ v, size_value ord (sizes_of ids) = Ok v.

(** The Flipkart listing behind a match. *)
Definition fk_of (B : list Listing) (m : option nat) : option Listing :=
  m ≫= (B !!.).

(** Records of the anchors [A] under the assignment [ms], numbered from 1. *)
Definition anchor_records (B A : list Listing) (ms : list (option nat))
    : list Unified :=
  imap (λ n am, unified_of_anchor n am.1 (fk_of B am.2)) (zip A ms).

(** Flipkart listings, with their index, that no anchor took. *)
Definition unconsumed (used : gset Z) (B : list Listing) : list (nat * Listing) :=
  filter (λ jb, Z.of_nat jb.1 ∉ used) (imap pair B).

(** Their records, numbered after [n] earlier ones. *)
Definition leftover_records (n : nat) (l : list (nat * Listing)) : list Unified :=
  imap (λ k jb, unified_of_unmatched (n + k) jb.2) l.

(** A record without the two keys the last loop rewrites. *)
Definition forget (u : Unified) : Unified :=
  {| id := 0; u_title := u_title u; u_image := u_image u;
     u_rating := u_rating u; u_is_prime := u_is_prime u;
     amazon_price := amazon_price u; amazon_link := amazon_link u;
     flipkart_price := flipkart_price u; flipkart_link := flipkart_link u;
     has_comparison := None |}.

(** The record of an anchor and of a leftover, ids aside. *)
Definition anchor_record (B : list Listing) (a : Listing) (m : option nat) : Unified :=
  forget (unified_of_anchor 0 a (fk_of B m)).

Definition leftover_record (jb : nat * Listing) : Unified :=
  forget (unified_of_unmatched 0 jb.2).

(** The records in the order the two loops append them, ids aside. *)
Definition emitted (B A : list Listing) (ms : list (option nat)) : list Unified :=
  zip_with (anchor_record B) A ms
  ++ (leftover_record <$> unconsumed (used_of ms) B).

(** The partition of the last lines, on any list. *)
Definition matched_first (l : list Unified) : list Unified :=
  List.filter both_prices l ++ List.filter (λ p, negb (both_prices p)) l.

(** A price, when present, is not zero (the data model has it positive). *)
Definition priced (l : Listing) : Prop :=
  ∀ p, price l = Some p → PyFloat.truthy p = true.

(** Both price fields of a record are present. *)
Definition has_both_prices (u : Unified) : Prop :=
  is_Some (amazon_price u) ∧ is_Some (flipkart_price u).

#[global] Instance has_both_prices_dec u : Decision (has_both_prices u).
Proof. unfold has_both_prices. apply _. Defined.

(** The record takes its own fields from the Amazon listing [a]. *)
Definition from_amazon (a : Listing) (u : Unified) : Prop :=
  u_title u = title a ∧ u_image u = image a ∧ u_rating u = rating a
  ∧ u_is_prime u = is_prime a
  ∧ amazon_price u = price a ∧ amazon_link u = link a.

(** The record is the leftover record of the Flipkart listing [b]. *)
Definition from_flipkart_only (b : Listing) (u : Unified) : Prop :=
  u_title u = title b ∧ u_image u = image b ∧ u_rating u = rating b
  ∧ u_is_prime u = false
  ∧ amazon_price u = None ∧ amazon_link u = None
  ∧ flipkart_price u = price b ∧ flipkart_link u = link b.

(** The result holds one record per anchor and one per Flipkart listing no
    anchor took, and nothing else; every Flipkart listing is the source of
    exactly one record. *)
Definition one_record_per_source (ord : SetOrder) (extract : string → idset)
    (cos : nat → nat → float) (A B : list Listing) (out : list Unified) : Prop :=
  ∃ ms, assignment ord extract cos A B ms
        ∧ forget <$> out ≡ₚ emitted B A ms
        ∧ consumed ms ++ (unconsumed (used_of ms) B).*1 ≡ₚ seq 0 (length B).

(** ** Sample listings

    Titles with the identifier sets [extract_key_identifiers] gives them,
    traced through its rules on the lower-cased title:
    - the S21 titles: brand [samsung]; the only [N gb] occurrence has no
      "ram", "rom" or "storage" within twelve characters, so it is tagged
      [128gb] and, being the largest candidate, [storage_128gb]; colour
      [color_black]; the token ["128gb"] has four characters or more, a
      digit and a letter, hence [model_128gb]; the phone patterns
      [s(\d+)] and [galaxy\s*(\w+)] give [s21] and [galaxys21];
    - the XYZ titles: the size pattern gives [43inch] or [55inch], the
      resolution table [4k]; no token mixes digits and letters over four
      characters;
    - the 32inch titles: brand [samsung] or [lg]; the size pattern gives
      [32inch]; the token ["32inch"] is not in the stop list of model
      tokens, hence [model_32inch]. *)

Definition listing (t : string) (p : float) (url : string) : Listing :=
  {| title := t; price := Some p; image := None; link := Some url;
     rating := Some 4.5%float; is_prime := true |}.

Definition sample_identifiers (t : string) : idset :=
  if String.eqb t "Samsung Galaxy S21 128GB Black" then
    {[ "samsung"; "128gb"; "storage_128gb"; "color_black"; "model_128gb";
       "s21"; "galaxys21" ]}
  else if String.eqb t "Samsung Galaxy S21 128GB Phantom Black" then
    {[ "samsung"; "128gb"; "storage_128gb"; "color_black"; "model_128gb";
       "s21"; "galaxys21" ]}
  else if String.eqb t "Samsung Galaxy S21 256GB Black" then
    {[ "samsung"; "256gb"; "storage_256gb"; "color_black"; "model_256gb";
       "s21"; "galaxys21" ]}
  else if String.eqb t "XYZ TV 43 inch 4K" then {[ "43inch"; "4k" ]}
  else if String.eqb t "XYZ TV 55 inch 4K" then {[ "55inch"; "4k" ]}
  else if String.eqb t "Samsung 32inch TV" then
    {[ "samsung"; "32inch"; "model_32inch" ]}
  else if String.eqb t "LG 32inch TV" then
    {[ "lg"; "32inch"; "model_32inch" ]}
  else ∅.

Definition s21_amazon : Listing :=
  listing "Samsung Galaxy S21 128GB Black" 699 "amazon/s21-128".
Definition s21_flipkart : Listing :=
  listing "Samsung Galaxy S21 128GB Phantom Black" 679 "flipkart/s21-128".
Definition s21_256_flipkart : Listing :=
  listing "Samsung Galaxy S21 256GB Black" 749 "flipkart/s21-256".
Definition tv43_amazon : Listing :=
  listing "XYZ TV 43 inch 4K" 300 "amazon/tv43".
Definition tv55_flipkart : Listing :=
  listing "XYZ TV 55 inch 4K" 310 "flipkart/tv55".
Definition tv32_amazon : Listing :=
  listing "Samsung 32inch TV" 300 "amazon/tv32".
Definition tv32_flipkart : Listing :=
  listing "LG 32inch TV" 310 "flipkart/tv32".

(** A matrix with every similarity at 0.9. *)
Definition sample_cos (i j : nat) : float := 0.9%float.

Definition sample_amazon : list Listing := [s21_amazon; tv43_amazon].
Definition sample_flipkart : list Listing :=
  [tv55_flipkart; s21_256_flipkart; s21_flipkart].

(** What [match_products] returns on the two sample sequences. *)
Definition sample_result : list Unified :=
  [ Build_Unified 1 "Samsung Galaxy S21 128GB Black" None (Some 4.5%float) true
      (Some 699%float) (Some "amazon/s21-128")
      (Some 679%float) (Some "flipkart/s21-128") (Some true);
    Build_Unified 2 "XYZ TV 43 inch 4K" None (Some 4.5%float) true
      (Some 300%float) (Some "amazon/tv43") None None (Some false);
    Build_Unified 3 "XYZ TV 55 inch 4K" None (Some 4.5%float) false
      None None (Some 310%float) (Some "flipkart/tv55") (Some false);
    Build_Unified 4 "Samsung Galaxy S21 256GB Black" None (Some 4.5%float) false
      None None (Some 749%float) (Some "flipkart/s21-256") (Some false) ].


(** ** Loop rules *)

Section Loops.
Context {S X : Type}.
Implicit Types (body : S → nat → X → result S) (l : list X).

(** Invariant rule: [P k s] holds after [k] iterations. *)
Lemma for_enumerate_invariant body (P : nat → S → Prop) l :
  ∀ start s s',
    P 0 s →
    (∀ k x t t', l !! k = Some x → P k t →
                 body t (start + k) x = Ok t' → P (Datatypes.S k) t') →
    for_enumerate body start l s = Ok s' →
    P (length l) s'.
Proof.
  revert P. induction l as [|x l IH]; intros P start s s' H0 Hstep Hrun.
  - cbn in Hrun. by injection Hrun as <-.
  - cbn in Hrun. destruct (body s start x) as [t|e] eqn:Hb; [|done].
    cbn in Hrun.
    apply (IH (λ k, P (Datatypes.S k)) (Datatypes.S start) t s'); [| |done].
    + apply (Hstep 0 x s t); [done|done|]. by rewrite Nat.add_0_r.
    + intros k y u u' Hy Hu Hbody.
      apply (Hstep (Datatypes.S k) y u u'); [done|done|].
      by rewrite Nat.add_succ_r.
Qed.


End Loops.

Section Inner.
Variable ord : SetOrder.
Variable extract : string → idset.
Variable cos : nat → nat → float.

Lemma consider_cases i amz used best j fk best' :
  consider ord cos i amz used best j fk = Ok best' →
  best' = best
  ∨ (acceptable ord cos i amz used j fk
     ∧ PyFloat.gt (pair_score cos i amz j fk) (best_score best) = true
     ∧ best' = accepted (pair_score cos i amz j fk) fk).
Proof.
  unfold consider, acceptable, pair_conflict, pair_gate, pair_score.
  case_bool_decide as Hused; [intros [= <-]; by left|].
  destruct (hard_conflict _ _ _ _ _) as [[|]|e]; unfold mbind, result_bind;
    [intros [= <-]; by left| |done].
  destruct (PyFloat.gt _ _) eqn:Hgt; [|intros [= <-]; by left].
  destruct (confidence_gate _ _ _) eqn:Hgate; intros [= <-]; [|by left].
  right. done.
Qed.

Lemma best_for_selected fk_data i amz used best :
  best_for ord cos fk_data i amz used = Ok best →
  selected ord cos i amz used fk_data best.
Proof.
  unfold best_for. intros Hrun.
  apply (for_enumerate_invariant (consider ord cos i amz used)
           (λ _ b, selected ord cos i amz used fk_data b)
           fk_data 0 no_best best); [by left| |done].
  intros k fk b b' Hk Hb Hc. cbn in Hc.
  apply consider_cases in Hc as [->|(Hacc & _ & ->)]; [done|].
  right. by exists k, fk.
Qed.

Lemma make_fk_data_lookup B j fk :
  make_fk_data extract B !! j = Some fk ↔
  ∃ b, B !! j = Some b ∧ fk = fk_at extract j b.
Proof.
  unfold make_fk_data. rewrite list_lookup_imap.
  destruct (B !! j) as [b|]; cbn; split.
  - intros [= <-]. by exists b.
  - by intros (b' & [= <-] & ->).
  - done.
  - by intros (? & ? & _).
Qed.

End Inner.

(** ** The list built before the final ordering *)

Lemma consumed_snoc ms m :
  consumed (ms ++ [m]) = consumed ms ++ (match m with Some j => [j] | None => [] end).
Proof. unfold consumed. rewrite omap_app. by destruct m. Qed.

Lemma elem_of_used_of ms j : Z.of_nat j ∈ used_of ms ↔ j ∈ consumed ms.
Proof.
  unfold used_of. rewrite elem_of_list_to_set, list_elem_of_fmap. split.
  - intros (k & Hk & Hin). by apply Nat2Z.inj in Hk as ->.
  - intros Hin. by exists j.
Qed.

Lemma used_of_snoc_Some ms j :
  used_of (ms ++ [Some j]) = {[ Z.of_nat j ]} ∪ used_of ms.
Proof.
  unfold used_of. rewrite consumed_snoc, fmap_app, list_to_set_app_L. cbn.
  by rewrite (right_id_L ∅ (∪)), (comm_L (∪)).
Qed.

Lemma length_anchor_records B A ms :
  length ms = length A → length (anchor_records B A ms) = length A.
Proof.
  intros Hlen. unfold anchor_records. rewrite length_imap, length_zip. lia.
Qed.

Lemma anchor_records_snoc B A ms a m :
  length ms = length A →
  anchor_records B (A ++ [a]) (ms ++ [m])
  = anchor_records B A ms ++ [unified_of_anchor (length A) a (fk_of B m)].
Proof.
  intros Hlen. unfold anchor_records.
  rewrite zip_with_app by done. rewrite imap_app. cbn.
  by rewrite length_zip, Hlen, Nat.min_id, Nat.add_0_r.
Qed.

Lemma fold_add_unmatched used l :
  ∀ start ups,
    fold_enumerate (add_unmatched used) start l ups
    = ups ++ leftover_records (length ups)
               (filter (λ jb, Z.of_nat jb.1 ∉ used)
                       (imap (λ j b, (start + j, b)) l)).
Proof.
  induction l as [|b l IH]; intros start ups.
  - cbn. by rewrite app_nil_r.
  - change (fold_enumerate (add_unmatched used) start (b :: l) ups)
      with (fold_enumerate (add_unmatched used) (Datatypes.S start) l
              (add_unmatched used ups start b)).
    rewrite IH, imap_cons, filter_cons.
    rewrite (imap_ext (_ ∘ Datatypes.S) (λ j b, (Datatypes.S start + j, b)))
      by (intros; cbn; f_equal; lia).
    unfold add_unmatched. cbn [fst]. rewrite Nat.add_0_r.
    case_bool_decide as Hin; destruct (decide _) as [Hd|Hd]; try done.
    rewrite <- app_assoc. f_equal. unfold leftover_records at 2.
    rewrite imap_cons. cbn [snd app]. rewrite Nat.add_0_r. f_equal.
    unfold leftover_records. apply imap_ext. intros k [j' b'] _. cbn.
    rewrite length_app. cbn. f_equal. lia.
Qed.

Section Outer.
Variable ord : SetOrder.
Variable extract : string → idset.
Variable cos : nat → nat → float.

Lemma anchors_invariant A B st :
  for_enumerate (anchor_body ord cos (make_fk_data extract B)) 0
    (make_amz_data extract A) ([], ∅) = Ok st →
  ∃ ms, assignment ord extract cos A B ms
        ∧ st.1 = anchor_records B A ms ∧ st.2 = used_of ms.
Proof.
  intros Hrun.
  pose (P := λ (k : nat) (st : list Unified * gset Z),
          ∃ ms, assignment ord extract cos (take k A) B ms
                ∧ st.1 = anchor_records B (take k A) ms ∧ st.2 = used_of ms).
  assert (P (length (make_amz_data extract A)) st) as (ms & Hms & H1 & H2).
  { apply (for_enumerate_invariant (anchor_body ord cos (make_fk_data extract B))
             P (make_amz_data extract A) 0 ([], ∅)); [| |done].
    - exists []. repeat split; try done.
      + constructor.
      + intros j Hj. by apply elem_of_nil in Hj.
    - clear st Hrun. intros k amz [ups used] st' Hk (ms & Hms & H1 & H2) Hbody.
      cbn in H1, H2. subst ups used.
      unfold make_amz_data in Hk. rewrite list_lookup_fmap in Hk.
      destruct (A !! k) as [a|] eqn:Ha; [|done]. cbn in Hk.
      injection Hk as <-.
      destruct Hms as (Hlen & Hnd & Hlt & Hsound).
      assert (Hk : length (take k A) = k).
      { apply lookup_lt_Some in Ha. rewrite length_take. lia. }
      unfold anchor_body in Hbody. cbn [fst snd] in Hbody.
      destruct (best_for _ _ _ _ _ _) as [best|e] eqn:Hbest; [|done].
      unfold mbind, result_bind in Hbody. injection Hbody as <-.
      unfold P. rewrite (take_S_r _ _ _ Ha).
      rewrite length_anchor_records by done. rewrite Hk.
      apply best_for_selected in Hbest as [->|(j & fk & Hj & Hacc & ->)].
      + exists (ms ++ [None]). cbn [fst snd best_match no_best].
        rewrite anchor_records_snoc, Hk by done.
        unfold assignment. rewrite length_app, !length_app, consumed_snoc, app_nil_r.
        cbn [length]. repeat split; try done; try lia.
        intros i j Hij. apply lookup_snoc_Some in Hij as [[_ Hij]|[_ [=]]].
        { destruct (Hsound i j Hij) as (a' & b' & Ha' & Hb' & Hc).
          exists a', b'. split; [|done]. by apply lookup_app_l_Some. }
        unfold used_of. by rewrite consumed_snoc, app_nil_r.
      + apply make_fk_data_lookup in Hj as (b & Hb & ->).
        destruct Hacc as (Hfree & Hconf & Hgate). cbn [fk_idx fk_at] in Hfree.
        rewrite elem_of_used_of in Hfree.
        exists (ms ++ [Some j]). cbn [fst snd best_match best_idx accepted fk_p fk_idx fk_at].
        rewrite anchor_records_snoc, Hk by done.
        rewrite used_of_snoc_Some.
        unfold assignment. rewrite !length_app, consumed_snoc. cbn [length].
        unfold fk_of. cbn [mbind option_bind]. rewrite Hb.
        repeat split; try done; try lia.
        * apply NoDup_app. repeat split; [done| |apply NoDup_singleton].
          intros x Hx ->%list_elem_of_singleton. done.
        * intros x [Hx| ->%list_elem_of_singleton]%elem_of_app; [by apply Hlt|].
          by apply lookup_lt_Some in Hb.
        * intros i j' Hij. apply lookup_snoc_Some in Hij as [[_ Hij]|[Hi [= <-]]].
          -- destruct (Hsound i j' Hij) as (a' & b' & Ha' & Hb' & Hc).
             exists a', b'. split; [|done]. by apply lookup_app_l_Some.
          -- exists a, b. rewrite Hi, Hlen, Hk.
             split; [|done]. rewrite lookup_app_r by lia.
             by rewrite Hk, Nat.sub_diag. }
  unfold make_amz_data in *. rewrite length_fmap, firstn_all in *.
  by exists ms.
Qed.

End Outer.

(** ** The final ordering *)

Lemma filter_partition_perm {X} (f : X → bool) (l : list X) :
  List.filter f l ++ List.filter (λ x, negb (f x)) l ≡ₚ l.
Proof.
  induction l as [|x l IH]; [done|]. cbn. destruct (f x); cbn.
  - by rewrite IH.
  - by rewrite <- Permutation_middle, IH.
Qed.

Lemma filter_partition_length {X} (f : X → bool) (l : list X) :
  length (List.filter f l ++ List.filter (λ x, negb (f x)) l) = length l.
Proof. by rewrite (filter_partition_perm f l). Qed.

Lemma finalize_forget l :
  forget <$> finalize l
  = List.filter both_prices (forget <$> l)
    ++ List.filter (λ p, negb (both_prices p)) (forget <$> l).
Proof.
  unfold finalize. rewrite fmap_imap.
  rewrite (imap_ext _ (const forget)) by done.
  rewrite imap_const, fmap_app.
  change (fmap forget) with (map forget). by rewrite !filter_map_swap.
Qed.

Lemma finalize_ids l : id <$> finalize l = seq 1 (length l).
Proof.
  unfold finalize. rewrite fmap_imap.
  rewrite (imap_ext _ (λ i _, Datatypes.S (0 + i))) by (intros; cbn; lia).
  by rewrite (imap_seq _ Datatypes.S 0), fmap_S_seq, filter_partition_length.
Qed.

Lemma length_finalize l : length (finalize l) = length l.
Proof. unfold finalize. by rewrite length_imap, filter_partition_length. Qed.

Lemma finalize_has_comparison l u :
  u ∈ finalize l → has_comparison u = Some (both_prices u).
Proof.
  unfold finalize. intros (i & p & -> & _)%elem_of_lookup_imap_1. done.
Qed.

Lemma finalize_perm l : forget <$> finalize l ≡ₚ forget <$> l.
Proof. rewrite finalize_forget. apply filter_partition_perm. Qed.

(** ** What [match_products] returns *)

Lemma forget_anchor_records B A ms :
  forget <$> anchor_records B A ms = zip_with (anchor_record B) A ms.
Proof.
  unfold anchor_records. rewrite fmap_imap, (zip_with_zip (anchor_record B)).
  rewrite (imap_ext _ (const (uncurry (anchor_record B)))); [apply imap_const|].
  by intros i [a m] _.
Qed.

Lemma forget_leftover_records n l :
  forget <$> leftover_records n l = leftover_record <$> l.
Proof.
  unfold leftover_records. rewrite fmap_imap.
  rewrite (imap_ext _ (const leftover_record)); [apply imap_const|].
  by intros i [j b] _.
Qed.

Lemma fst_imap_pair {X} (l : list X) : (imap pair l).*1 = seq 0 (length l).
Proof.
  rewrite fmap_imap. rewrite (imap_ext _ (λ j _, Datatypes.id (0 + j))) by done.
  by rewrite (imap_seq _ Datatypes.id 0), list_fmap_id.
Qed.

Lemma elem_of_imap_pair {X} (l : list X) j x :
  (j, x) ∈ imap pair l ↔ l !! j = Some x.
Proof.
  rewrite elem_of_lookup_imap. split.
  - by intros (i & y & [= -> ->] & Hy).
  - intros Hj. by exists j, x.
Qed.

Lemma elem_of_unconsumed ms B j b :
  (j, b) ∈ unconsumed (used_of ms) B ↔ B !! j = Some b ∧ j ∉ consumed ms.
Proof.
  unfold unconsumed. rewrite list_elem_of_filter, elem_of_imap_pair. cbn.
  rewrite elem_of_used_of. tauto.
Qed.

(** Every Flipkart index is the source of exactly one record: the one of
    the anchor that took it, or its own leftover record. *)
Lemma flipkart_sources_perm ms B :
  NoDup (consumed ms) → (∀ j, j ∈ consumed ms → j < length B) →
  consumed ms ++ (unconsumed (used_of ms) B).*1 ≡ₚ seq 0 (length B).
Proof.
  intros Hnd Hlt.
  assert (Hnd' : NoDup (unconsumed (used_of ms) B).*1).
  { apply NoDup_fmap_fst.
    - intros j b1 b2 [H1 _]%elem_of_unconsumed [H2 _]%elem_of_unconsumed.
      congruence.
    - apply NoDup_filter. apply (NoDup_fmap_1 fst).
      rewrite fst_imap_pair. apply NoDup_seq. }
  assert (Hin : ∀ j, j ∈ (unconsumed (used_of ms) B).*1
                     ↔ j < length B ∧ j ∉ consumed ms).
  { intros j. rewrite list_elem_of_fmap. split.
    - intros ([j' b] & -> & [Hb Hj]%elem_of_unconsumed). cbn.
      split; [by apply lookup_lt_Some in Hb|done].
    - intros [[b Hb]%lookup_lt_is_Some Hj]. exists (j, b).
      split; [done|]. by apply elem_of_unconsumed. }
  apply NoDup_Permutation.
  - apply NoDup_app. repeat split; [done| |done].
    intros j Hj [_ Hj']%Hin. done.
  - apply NoDup_seq.
  - intros j. rewrite elem_of_app, Hin, elem_of_seq.
    destruct (decide (j ∈ consumed ms)) as [Hj|Hj].
    + specialize (Hlt j Hj). split; [lia|by left].
    + split; [intros [?|[? _]]; [done|lia]|]. intros [_ ?]. right. split; [lia|done].
Qed.

Section Catalogue.
Variable ord : SetOrder.
Variable extract : string → idset.
Variable cos : nat → nat → float.

Lemma build_unified_spec A B pre :
  build_unified ord extract cos A B = Ok pre →
  ∃ ms, assignment ord extract cos A B ms
        ∧ pre = anchor_records B A ms
                ++ leftover_records (length A) (unconsumed (used_of ms) B).
Proof.
  unfold build_unified.
  destruct (for_enumerate _ _ _ _) as [st|e] eqn:Hloop; [|done].
  apply anchors_invariant in Hloop as (ms & Hms & H1 & H2).
  unfold mbind, result_bind. intros [= <-]. exists ms. split; [done|].
  rewrite fold_add_unmatched, H1, H2.
  rewrite length_anchor_records by apply Hms. done.
Qed.

Lemma match_products_spec A B out :
  match_products ord extract cos A B = Ok out →
  (out = [] ∧ (A = [] ∨ B = []))
  ∨ (A ≠ [] ∧ B ≠ []
     ∧ ∃ pre, build_unified ord extract cos A B = Ok pre ∧ out = finalize pre).
Proof.
  unfold match_products. destruct A as [|a A], B as [|b B];
    try (intros [= <-]; left; split; [done|]; by (left + right)).
  destruct (build_unified _ _ _ _ _) as [pre|e]; [|done].
  unfold mbind, result_bind. intros [= <-]. right. repeat split; try done.
  by exists pre.
Qed.

Lemma match_products_content A B out :
  A ≠ [] → B ≠ [] →
  match_products ord extract cos A B = Ok out →
  ∃ ms, assignment ord extract cos A B ms
        ∧ forget <$> out = matched_first (emitted B A ms)
        ∧ id <$> out = seq 1 (length out)
        ∧ (∀ u, u ∈ out → has_comparison u = Some (both_prices u)).
Proof.
  intros HA HB [[_ [?|?]]|(_ & _ & pre & Hpre & ->)]%match_products_spec;
    [done|done|].
  apply build_unified_spec in Hpre as (ms & Hms & ->). exists ms.
  split; [done|]. split; [|split].
  - rewrite finalize_forget, fmap_app, forget_anchor_records,
      forget_leftover_records. done.
  - by rewrite finalize_ids, length_finalize.
  - apply finalize_has_comparison.
Qed.

End Catalogue.

(** ** Identifier sets *)

Lemma nonempty_true (s : idset) : nonempty s = true ↔ ∃ x, x ∈ s.
Proof.
  unfold nonempty. rewrite bool_decide_eq_true. split.
  - intros Hne. apply set_choose_L in Hne. done.
  - intros [x Hx] ->. by apply elem_of_empty in Hx.
Qed.

Lemma nonempty_false (s : idset) : nonempty s = false ↔ s = ∅.
Proof.
  unfold nonempty. rewrite bool_decide_eq_false. split.
  - intros Hne. by destruct (decide (s = ∅)).
  - intros -> Hne. done.
Qed.

Lemma elem_of_with_prefix p (s : idset) x :
  x ∈ with_prefix p s ↔ PyStr.startswith p x = true ∧ x ∈ s.
Proof. unfold with_prefix. by rewrite elem_of_filter. Qed.

Lemma with_prefix_nonempty p (s : idset) :
  nonempty (with_prefix p s) = true ↔ ∃ x, PyStr.startswith p x = true ∧ x ∈ s.
Proof.
  rewrite nonempty_true. by setoid_rewrite elem_of_with_prefix.
Qed.

Lemma with_prefix_eq p (a f : idset) :
  with_prefix p a = with_prefix p f
  ↔ ∀ x, PyStr.startswith p x = true → (x ∈ a ↔ x ∈ f).
Proof.
  rewrite set_eq. setoid_rewrite elem_of_with_prefix. split.
  - intros H x Hx. specialize (H x). tauto.
  - intros H x. specialize (H x). tauto.
Qed.

Lemma with_prefix_inter_nonempty p (a f : idset) :
  nonempty (with_prefix p a ∩ with_prefix p f) = true ↔ shares_tag p a f.
Proof.
  rewrite nonempty_true. unfold shares_tag.
  setoid_rewrite elem_of_intersection. setoid_rewrite elem_of_with_prefix.
  split; intros [x Hx]; exists x; tauto.
Qed.

Lemma both_tagged_iff p (a f : idset) :
  nonempty (with_prefix p a) && nonempty (with_prefix p f) = true
  ↔ both_tagged p a f.
Proof. by rewrite andb_true_iff, !with_prefix_nonempty. Qed.

(** ** The rules, in words *)

Lemma storage_conflict_iff a f :
  storage_conflict a f = true
  ↔ both_tagged "storage_" a f ∧ ¬ shares_tag "storage_" a f.
Proof.
  unfold storage_conflict.
  rewrite andb_true_iff, both_tagged_iff, negb_true_iff.
  rewrite <- with_prefix_inter_nonempty, not_true_iff_false. done.
Qed.

Lemma color_conflict_iff a f :
  color_conflict a f = true
  ↔ both_tagged "color_" a f
    ∧ with_prefix "color_" a ≠ with_prefix "color_" f.
Proof.
  unfold color_conflict.
  by rewrite andb_true_iff, both_tagged_iff, bool_decide_eq_true.
Qed.

Lemma model_match_iff a f : model_match a f = true ↔ shares_tag "model_" a f.
Proof.
  unfold model_match. rewrite andb_true_iff, both_tagged_iff.
  rewrite with_prefix_inter_nonempty. split; [tauto|].
  intros Hs. split; [|done]. destruct Hs as (x & Hp & Ha & Hf).
  split; by exists x.
Qed.

Lemma brand_signal_iff a f : brand_signal a f = true ↔ shares_brand a f.
Proof.
  unfold brand_signal, shares_brand. rewrite nonempty_true.
  setoid_rewrite elem_of_intersection. setoid_rewrite elem_of_intersection.
  split; intros [x Hx]; exists x; tauto.
Qed.

Lemma same_tags_iff p a f :
  nonempty (with_prefix p a) && nonempty (with_prefix p f)
  && bool_decide (with_prefix p a = with_prefix p f) = true
  ↔ same_tags p a f.
Proof.
  unfold same_tags.
  by rewrite andb_true_iff, both_tagged_iff, bool_decide_eq_true, with_prefix_eq.
Qed.

Lemma confidence_gate_iff k sem mm :
  confidence_gate k sem mm = true
  ↔ ((3 ≤ k)%nat ∧ PyFloat.gt sem 0.5%float = true)
    ∨ ((2 ≤ k)%nat ∧ PyFloat.gt sem 0.6%float = true)
    ∨ mm = true
    ∨ PyFloat.gt sem 0.78%float = true.
Proof.
  unfold confidence_gate.
  destruct (Nat.leb_spec 3 k), (Nat.leb_spec 2 k),
    (PyFloat.gt sem 0.5), (PyFloat.gt sem 0.6), mm, (PyFloat.gt sem 0.78);
    cbn; split; try done; try tauto; intros; try lia;
    repeat match goal with H : _ ∨ _ |- _ => destruct H end;
    try done; try lia; intuition (try lia; try done).
Qed.

Lemma sets_differ (X Y : idset) :
  X ≠ Y ↔ ∃ x, (x ∈ X ∧ (x ∉ Y)) ∨ ((x ∉ X) ∧ x ∈ Y).
Proof.
  split.
  - intros Hne.
    destruct (decide (set_Forall (λ x, x ∈ Y) X)) as [HXY|HXY].
    + destruct (decide (set_Forall (λ x, x ∈ X) Y)) as [HYX|HYX].
      * destruct Hne. apply set_eq. intros x. split; [apply HXY|apply HYX].
      * apply not_set_Forall_Exists in HYX as (x & Hx & Hnx); [|apply _].
        exists x. by right.
    + apply not_set_Forall_Exists in HXY as (x & Hx & Hnx); [|apply _].
      exists x. by left.
  - intros [x Hx] ->. tauto.
Qed.

Lemma with_prefix_differ p a f :
  with_prefix p a ≠ with_prefix p f ↔ tag_on_one_side p a f.
Proof.
  rewrite sets_differ. unfold tag_on_one_side.
  split; intros [x Hx]; exists x; rewrite !elem_of_with_prefix in *; tauto.
Qed.

Lemma ram_not_storage x :
  PyStr.startswith "ram_" x = true → PyStr.startswith "storage_" x = false.
Proof.
  unfold PyStr.startswith. destruct x as [|c x]; [done|].
  destruct (ascii_dec "r" c) as [<-|Hne]; [done|].
  change (String.prefix "ram_" (String c x))
    with (if ascii_dec "r" c then String.prefix "am_" x else false).
  by destruct (ascii_dec "r" c).
Qed.

Lemma with_prefix_storage_ram x (s : idset) :
  PyStr.startswith "ram_" x = true →
  with_prefix "storage_" ({[ x ]} ∪ s) = with_prefix "storage_" s.
Proof.
  intros Hx%ram_not_storage. apply set_eq. intros y.
  rewrite !elem_of_with_prefix, elem_of_union, elem_of_singleton.
  split; [|tauto]. intros [Hy [->|Hs]]; [congruence|done].
Qed.

(** ** Claims on the rules *)

Section Rules.
Variable ord : SetOrder.
Variable extract : string → idset.
Variable cos : nat → nat → float.

Lemma consider_fresh i amz used best j fk :
  fk_idx fk ∉ used → pair_conflict ord amz fk = Ok false →
  consider ord cos i amz used best j fk
  = Ok (if PyFloat.gt (pair_score cos i amz j fk) (best_score best)
           && pair_gate cos i amz j fk
        then accepted (pair_score cos i amz j fk) fk else best).
Proof.
  intros Hfree Hconf. unfold consider.
  rewrite bool_decide_eq_false_2 by done.
  unfold pair_conflict in Hconf. rewrite Hconf.
  unfold mbind, result_bind, pair_score, pair_gate.
  by destruct (_ && _).
Qed.

Lemma consider_rejected i amz used best j fk best' :
  pair_conflict ord amz fk = Ok true →
  consider ord cos i amz used best j fk = Ok best' → best' = best.
Proof.
  intros Hconf. unfold consider. case_bool_decide; [by intros [= <-]|].
  unfold pair_conflict in Hconf. rewrite Hconf.
  unfold mbind, result_bind. by intros [= <-].
Qed.

Lemma hard_conflict_storage a b ia fb c :
  hard_conflict ord a b ia fb = Ok c → storage_conflict ia fb = true → c = true.
Proof.
  unfold hard_conflict. destruct (size_conflict _ _ _) as [sc|e]; [|done].
  unfold mbind, result_bind. intros [= <-] ->.
  by rewrite !orb_true_r.
Qed.

End Rules.

Lemma key_match_count_signals a f :
  ∃ brand storage color : bool,
    key_match_count a f = Nat.b2n brand + Nat.b2n storage + Nat.b2n color
    ∧ (brand = true ↔ shares_brand a f)
    ∧ (storage = true ↔ same_tags "storage_" a f)
    ∧ (color = true ↔ same_tags "color_" a f).
Proof.
  exists (brand_signal a f), (storage_signal a f), (color_signal a f).
  split; [|split; [apply brand_signal_iff|split; apply same_tags_iff]].
  unfold key_match_count.
  by destruct (brand_signal a f), (storage_signal a f), (color_signal a f).
Qed.

(** C2.  A candidate that is not used and not in conflict replaces the
    running best only if its composite score is strictly above the best
    score and a confidence gate holds; the gates are: three key signals
    and semantic above 0.5; two and semantic above 0.6; a shared model_
    tag; semantic above 0.78.  The key signals are a shared brand, equal
    non-empty storage_ tags, equal non-empty color_ tags.  Conversely such
    a candidate is taken. *)
Theorem candidate_taken_only_through_gate ord cos i amz used best j fk :
  fk_idx fk ∉ used →
  pair_conflict ord amz fk = Ok false →
  let a := amz_identifiers amz in
  let f := fk_identifiers fk in
  let semantic := cos i j in
  let score := pair_score cos i amz j fk in
  let k := key_match_count a f in
  let gate :=
    ((3 ≤ k)%nat ∧ PyFloat.gt semantic 0.5%float = true)
    ∨ ((2 ≤ k)%nat ∧ PyFloat.gt semantic 0.6%float = true)
    ∨ shares_tag "model_" a f
    ∨ PyFloat.gt semantic 0.78%float = true in
  (∃ brand storage color : bool,
      k = Nat.b2n brand + Nat.b2n storage + Nat.b2n color
      ∧ (brand = true ↔ shares_brand a f)
      ∧ (storage = true ↔ same_tags "storage_" a f)
      ∧ (color = true ↔ same_tags "color_" a f))
  ∧ (∀ best', consider ord cos i amz used best j fk = Ok best' →
       best' ≠ best →
       best' = accepted score fk
       ∧ PyFloat.gt score (best_score best) = true ∧ gate)
  ∧ (PyFloat.gt score (best_score best) = true → gate →
     consider ord cos i amz used best j fk = Ok (accepted score fk)).
Proof.
  intros Hfree Hconf a f semantic score k gate.
  assert (Hgate : pair_gate cos i amz j fk = true ↔ gate).
  { unfold pair_gate, gate. rewrite confidence_gate_iff, model_match_iff. done. }
  split; [apply key_match_count_signals|].
  rewrite (consider_fresh ord cos i amz used best j fk Hfree Hconf).
  fold score. split.
  - intros best'. destruct (PyFloat.gt score (best_score best)) eqn:Hgt;
      destruct (pair_gate cos i amz j fk) eqn:Hg; cbn; intros [= <-] Hne;
      try done.
    repeat split; try done. by apply Hgate.
  - intros -> Hg%Hgate. by rewrite Hg.
Qed.

(** C3.  For a candidate that is not used and not in conflict, the score
    the loop compares and stores is the semantic similarity plus 0.1 times
    the number of shared identifiers, plus 0.5 exactly when the two sides
    share a model_ tag. *)
Theorem composite_score_formula ord cos i amz used best j fk :
  fk_idx fk ∉ used →
  pair_conflict ord amz fk = Ok false →
  let a := amz_identifiers amz in
  let f := fk_identifiers fk in
  let base := (cos i j + PyFloat.of_nat (size (a ∩ f)) * 0.1)%float in
  ∃ score,
    consider ord cos i amz used best j fk
    = Ok (if PyFloat.gt score (best_score best) && pair_gate cos i amz j fk
          then accepted score fk else best)
    ∧ (shares_tag "model_" a f → score = (base + 0.5)%float)
    ∧ (¬ shares_tag "model_" a f → score = base).
Proof.
  intros Hfree Hconf a f base. exists (pair_score cos i amz j fk).
  split; [by apply consider_fresh|].
  unfold pair_score, composite_score, identifier_overlap. fold a f base.
  rewrite <- model_match_iff.
  destruct (model_match a f); split; try done; by intros [].
Qed.

(** C4.  When both sides carry storage_ tags and share none, the candidate
    never replaces the running best and the inner loop never returns it,
    whatever the similarity; tags of the ram_ namespace do not enter the
    rule. *)
Theorem storage_mismatch_never_matched ord extract cos i a B j b :
  B !! j = Some b →
  both_tagged "storage_" (extract (title a)) (extract (title b)) →
  ¬ shares_tag "storage_" (extract (title a)) (extract (title b)) →
  (∀ used best best',
      consider ord cos i (amz_of extract a) used best j (fk_at extract j b)
      = Ok best' → best' = best)
  ∧ (∀ used best,
      best_for ord cos (make_fk_data extract B) i (amz_of extract a) used
      = Ok best → best_idx best ≠ Z.of_nat j)
  ∧ (∀ x s t, PyStr.startswith "ram_" x = true →
      storage_conflict ({[ x ]} ∪ s) t = storage_conflict s t
      ∧ storage_conflict s ({[ x ]} ∪ t) = storage_conflict s t).
Proof.
  intros Hb Hboth Hnone.
  assert (Hsc : storage_conflict (extract (title a)) (extract (title b)) = true)
    by by apply storage_conflict_iff.
  assert (Hrej : ∀ c, pair_conflict ord (amz_of extract a) (fk_at extract j b)
                     = Ok c → c = true).
  { intros c Hc. by apply (hard_conflict_storage ord _ _ _ _ _ Hc). }
  split; [|split].
  - intros used best best' Hc.
    destruct (consider_cases ord cos _ _ _ _ _ _ _ Hc) as [?|((_ & Hcf & _) & _)];
      [done|]. by apply Hrej in Hcf.
  - intros used best [->|(j' & fk & Hj' & (_ & Hcf & _) & ->)]%best_for_selected.
    + cbn. lia.
    + apply make_fk_data_lookup in Hj' as (b' & Hb' & ->). cbn.
      intros ->%Nat2Z.inj. rewrite Hb in Hb'. injection Hb' as <-.
      by apply Hrej in Hcf.
  - intros x s t Hx. unfold storage_conflict.
    by rewrite !with_prefix_storage_ram.
Qed.

(** C5, as stated, fails: black and white against black alone share
    color_black, and the rule still reports a conflict. *)
Lemma color_rule_not_by_disjointness :
  ¬ color_rule_by_disjointness {[ "boat"; "color_black"; "color_white" ]}
                               {[ "boat"; "color_black" ]}.
Proof.
  intros [H _]. destruct (H eq_refl) as [_ Hn]. apply Hn.
  exists "color_black". split; [done|]. split; set_solver.
Qed.

(** C5, amended.  The colour rule rejects a pair exactly when both sides
    have color_ tags and the two sets of color_ tags differ, that is some
    color_ tag is on one side only. *)
Theorem color_conflict_by_inequality a f :
  color_conflict a f = true
  ↔ both_tagged "color_" a f ∧ tag_on_one_side "color_" a f.
Proof. by rewrite color_conflict_iff, with_prefix_differ. Qed.

(** ** Claims on the catalogue *)

(** C9.  If the Amazon sequence is empty or the Flipkart sequence is empty,
    [match_products] returns the empty list: nothing of the non-empty side
    is emitted. *)
Theorem match_products_empty_side ord extract cos :
  (∀ flipkart_products, match_products ord extract cos [] flipkart_products = Ok [])
  ∧ (∀ amazon_products, match_products ord extract cos amazon_products [] = Ok []).
Proof.
  split; [reflexivity|]. by intros [|a l].
Qed.

(** C1, as stated, fails: with one Amazon listing and no Flipkart listing
    the result is empty, so the Amazon listing has no record. *)
Lemma no_record_for_anchor_without_flipkart :
  ∃ out,
    match_products order_fwd sample_identifiers sample_cos [s21_amazon] []
    = Ok out
    ∧ ¬ one_record_per_source order_fwd sample_identifiers sample_cos
          [s21_amazon] [] out.
Proof.
  exists []. split; [reflexivity|].
  intros (ms & (Hlen & _) & Hperm & _).
  apply Permutation_length in Hperm. revert Hperm.
  unfold emitted. rewrite length_fmap, length_app, length_zip_with.
  cbn in *. rewrite Hlen. lia.
Qed.

(** C1, amended.  When neither sequence is empty, the result holds exactly
    one record per Amazon listing (matched or not) and one per Flipkart
    listing that no anchor took, and nothing else; the anchors take
    pairwise distinct Flipkart listings, so each Flipkart listing is the
    source of exactly one record. *)
Theorem one_record_per_listing ord extract cos A B out :
  A ≠ [] → B ≠ [] →
  match_products ord extract cos A B = Ok out →
  one_record_per_source ord extract cos A B out.
Proof.
  intros HA HB Hrun.
  destruct (match_products_content ord extract cos A B out HA HB Hrun)
    as (ms & Hms & Hout & _).
  exists ms. split; [done|]. split.
  - rewrite Hout. apply filter_partition_perm.
  - destruct Hms as (_ & Hnd & Hlt & _). by apply flipkart_sources_perm.
Qed.

Lemma truthy_price_present (o : option float) :
  (∀ p, o = Some p → PyFloat.truthy p = true) →
  truthy_price o = true ↔ is_Some o.
Proof.
  intros Hp. destruct o as [p|]; cbn.
  - rewrite (Hp p eq_refl). split; [by eexists|done].
  - split; [done|]. by intros [? ?].
Qed.

Lemma fk_of_elem_of B m b : fk_of B m = Some b → b ∈ B.
Proof.
  unfold fk_of. destruct m as [j|]; cbn; [|done].
  apply list_elem_of_lookup_2.
Qed.

Lemma emitted_both_prices A B ms u :
  Forall priced A → Forall priced B →
  u ∈ emitted B A ms →
  both_prices u = true ↔ has_both_prices u.
Proof.
  rewrite !Forall_forall. intros HA HB Hu.
  unfold both_prices, has_both_prices. rewrite andb_true_iff.
  apply elem_of_app in Hu as [Hu|Hu].
  - apply elem_of_zip_with in Hu as (a & m & -> & Ha & _).
    cbn [amazon_price flipkart_price anchor_record forget unified_of_anchor].
    rewrite (truthy_price_present (price a)) by by apply HA.
    rewrite truthy_price_present; [done|].
    intros p Hp. destruct (fk_of B m) as [b|] eqn:Hb; [|done].
    apply fk_of_elem_of in Hb. by apply (HB b).
  - apply list_elem_of_fmap in Hu as ([j b] & -> & [Hb _]%elem_of_unconsumed).
    cbn [amazon_price flipkart_price leftover_record forget
         unified_of_unmatched snd].
    apply list_elem_of_lookup_2 in Hb.
    rewrite (truthy_price_present (price b)) by by apply HB.
    by rewrite truthy_price_present.
Qed.

Lemma filter_bool_prop {X} (f : X → bool) (P : X → Prop)
    `{!∀ x, Decision (P x)} (l : list X) :
  (∀ x, x ∈ l → (f x = true ↔ P x)) →
  List.filter f l = filter P l
  ∧ List.filter (λ x, negb (f x)) l = filter (λ x, ¬ P x) l.
Proof.
  induction l as [|x l IH]; intros Hl; [done|].
  destruct IH as [IH1 IH2].
  { intros y Hy. apply Hl. by right. }
  rewrite !filter_cons. cbn. rewrite IH1, IH2.
  pose proof (Hl x (list_elem_of_here _ _)) as Hx.
  destruct (decide (P x)) as [HP|HP].
  - rewrite (proj2 Hx HP). cbn. by destruct (decide (¬ P x)).
  - assert (f x = false) as -> by (destruct (f x); [by destruct HP; apply Hx|done]).
    cbn. by destruct (decide (¬ P x)).
Qed.

Lemma has_both_prices_forget u : has_both_prices (forget u) ↔ has_both_prices u.
Proof. done. Qed.

(** C7.  On listings whose prices, when present, are not zero: the result
    puts every record with both prices before every record lacking one,
    keeps inside each group the order in which the records were appended
    (anchors in input order, then leftovers in input order), and numbers
    the records 1, 2, 3, ... in the final order. *)
Theorem final_order_is_stable_partition ord extract cos A B out :
  Forall priced A → Forall priced B →
  match_products ord extract cos A B = Ok out →
  ∃ pre n,
    ((A = [] ∨ B = []) ∧ pre = []
     ∨ ∃ ms, assignment ord extract cos A B ms ∧ pre = emitted B A ms)
    ∧ forget <$> out
      = filter has_both_prices pre ++ filter (λ u, ¬ has_both_prices u) pre
    ∧ n = length (filter has_both_prices pre)
    ∧ (∀ k u, out !! k = Some u → (k < n ↔ has_both_prices u))
    ∧ id <$> out = seq 1 (length out).
Proof.
  intros HA HB Hrun.
  assert (∃ pre,
    ((A = [] ∨ B = []) ∧ pre = []
     ∨ ∃ ms, assignment ord extract cos A B ms ∧ pre = emitted B A ms)
    ∧ forget <$> out
      = filter has_both_prices pre ++ filter (λ u, ¬ has_both_prices u) pre
    ∧ id <$> out = seq 1 (length out)) as (pre & Hpre & Hout & Hid).
  { destruct (match_products_spec ord extract cos A B out Hrun)
      as [[-> Hempty]|(HA' & HB' & _)].
    - exists []. split; [by left|done].
    - destruct (match_products_content ord extract cos A B out HA' HB' Hrun)
        as (ms & Hms & Hout & Hid & _).
      exists (emitted B A ms). split; [right; by exists ms|]. split; [|done].
      rewrite Hout. unfold matched_first.
      destruct (filter_bool_prop both_prices has_both_prices (emitted B A ms))
        as [-> ->]; [|done].
      intros u Hu. by apply (emitted_both_prices A B ms). }
  exists pre, (length (filter has_both_prices pre)).
  split; [done|]. split; [done|]. split; [done|]. split; [|done].
  intros k u Hk.
  assert (Hfu : (forget <$> out) !! k = Some (forget u))
    by by rewrite list_lookup_fmap, Hk.
  rewrite Hout in Hfu. rewrite <- has_both_prices_forget.
  destruct (decide (k < length (filter has_both_prices pre))) as [Hlt|Hge].
  - rewrite lookup_app_l in Hfu by done.
    apply list_elem_of_lookup_2, list_elem_of_filter in Hfu as [Hfu _]. tauto.
  - rewrite lookup_app_r in Hfu by lia.
    apply list_elem_of_lookup_2, list_elem_of_filter in Hfu as [Hfu _]. tauto.
Qed.

(** C10.  Every record of the result takes its title, image and rating
    from one listing: the Amazon listing for the record of an anchor, be
    the anchor matched or not, with that listing's Prime flag, price and
    link; the Flipkart listing for a leftover record, whose Prime flag is
    [False] and whose Amazon price and link are absent. *)
Theorem record_fields_from_one_listing ord extract cos A B out :
  match_products ord extract cos A B = Ok out →
  ∃ ms, length ms = length A
    ∧ ∀ u, u ∈ out →
        (∃ i a m, A !! i = Some a ∧ ms !! i = Some m ∧ from_amazon a u
                  ∧ flipkart_price u = fk_of B m ≫= price
                  ∧ flipkart_link u = fk_of B m ≫= link)
        ∨ (∃ j b, B !! j = Some b ∧ (j ∉ consumed ms) ∧ from_flipkart_only b u).
Proof.
  intros Hrun.
  destruct (match_products_spec ord extract cos A B out Hrun)
    as [[-> _]|(HA & HB & _)].
  { exists (replicate (length A) None). split; [apply length_replicate|].
    intros u Hu. by apply elem_of_nil in Hu. }
  destruct (match_products_content ord extract cos A B out HA HB Hrun)
    as (ms & Hms & Hout & _).
  exists ms. split; [apply Hms|]. intros u Hu.
  assert (Hfu : forget u ∈ emitted B A ms).
  { rewrite <- (filter_partition_perm both_prices (emitted B A ms)).
    fold (matched_first (emitted B A ms)). rewrite <- Hout.
    by apply list_elem_of_fmap_2. }
  apply elem_of_app in Hfu as [Hfu|Hfu].
  - left. apply elem_of_lookup_zip_with in Hfu as (i & a & m & Heq & Ha & Hm).
    exists i, a, m. split; [done|]. split; [done|].
    unfold from_amazon.
    change (u_title u) with (u_title (forget u)).
    change (u_image u) with (u_image (forget u)).
    change (u_rating u) with (u_rating (forget u)).
    change (u_is_prime u) with (u_is_prime (forget u)).
    change (amazon_price u) with (amazon_price (forget u)).
    change (amazon_link u) with (amazon_link (forget u)).
    change (flipkart_price u) with (flipkart_price (forget u)).
    change (flipkart_link u) with (flipkart_link (forget u)).
    by rewrite Heq.
  - right. apply list_elem_of_fmap in Hfu as ([j b] & Heq & [Hb Hj]%elem_of_unconsumed).
    exists j, b. split; [done|]. split; [done|].
    unfold from_flipkart_only.
    change (u_title u) with (u_title (forget u)).
    change (u_image u) with (u_image (forget u)).
    change (u_rating u) with (u_rating (forget u)).
    change (u_is_prime u) with (u_is_prime (forget u)).
    change (amazon_price u) with (amazon_price (forget u)).
    change (amazon_link u) with (amazon_link (forget u)).
    change (flipkart_price u) with (flipkart_price (forget u)).
    change (flipkart_link u) with (flipkart_link (forget u)).
    by rewrite Heq.
Qed.

(** ** Determinism *)




(** ** The size rule *)

Lemma size_value_singleton ord x n :
  PyStr.int (PyStr.remove_inch x) = Some n → size_value ord {[ x ]} = Ok n.
Proof.
  intros Hn. unfold size_value.
  pose proof (set_first_spec ord {[ x ]}) as Hspec.
  destruct (set_first ord {[ x ]}) as [y|].
  - apply elem_of_singleton in Hspec as ->. by rewrite Hn.
  - by apply non_empty_singleton_L in Hspec.
Qed.

(** With one size tag on each side, both of them numbers followed by
    [inch], the rule compares the two numbers with a tolerance of 1. *)
Lemma size_conflict_single_tags ord a f x y n m :
  sizes_of a = {[ x ]} → sizes_of f = {[ y ]} →
  PyStr.int (PyStr.remove_inch x) = Some n →
  PyStr.int (PyStr.remove_inch y) = Some m →
  size_conflict ord a f = Ok (1 <? Z.abs (n - m))%Z.
Proof.
  intros Ha Hf Hn Hm. unfold size_conflict. rewrite Ha, Hf.
  unfold nonempty. rewrite !bool_decide_eq_true_2 by apply non_empty_singleton_L.
  cbn [andb].
  by rewrite (size_value_singleton ord x n Hn), (size_value_singleton ord y m Hm).
Qed.

Lemma size_conflict_32_33_43 ord :
  size_conflict ord {[ "32inch" ]} {[ "33inch" ]} = Ok false
  ∧ size_conflict ord {[ "32inch" ]} {[ "43inch" ]} = Ok true.
Proof.
  split.
  - by apply (size_conflict_single_tags ord _ _ "32inch" "33inch" 32 33).
  - by apply (size_conflict_single_tags ord _ _ "32inch" "43inch" 32 43).
Qed.

(** C6, at the failing input.  The titles "Samsung 32inch TV" and
    "LG 32inch TV" yield the tags 32inch and model_32inch, which both end
    in inch.  When the set iterates 32inch first the rule answers "no
    conflict"; when it iterates model_32inch first, [int('model_32')]
    raises [ValueError] and [match_products] raises with it. *)
Theorem size_rule_raises_on_model_tag :
  sizes_of (sample_identifiers "Samsung 32inch TV") = {[ "32inch"; "model_32inch" ]}
  ∧ size_conflict order_fwd (sample_identifiers "Samsung 32inch TV")
      (sample_identifiers "LG 32inch TV") = Ok false
  ∧ size_conflict order_bwd (sample_identifiers "Samsung 32inch TV")
      (sample_identifiers "LG 32inch TV") = Raise ValueError
  ∧ match_products order_bwd sample_identifiers sample_cos
      [tv32_amazon] [tv32_flipkart] = Raise ValueError.
Proof. repeat split; vm_compute; reflexivity. Qed.

(** ** Returning a list *)

(** The brands that count as a key signal are brands of the extractor. *)
Lemma brand_ids_are_brands : brand_ids ⊆ brands.
Proof. apply (bool_decide_unpack (brand_ids ⊆ brands)). vm_compute. exact I. Qed.

(** A gate that holds for some count of key signals holds for a larger one. *)
Lemma confidence_gate_mono k k' sem mm :
  (k ≤ k')%nat → confidence_gate k sem mm = true → confidence_gate k' sem mm = true.
Proof.
  intros Hle. rewrite !confidence_gate_iff.
  intros [[? ?]|[[? ?]|[?|?]]]; [left|right; left|right; right; left|right; right; right];
    try done; split; try done; lia.
Qed.


Section LoopReturns.
Context {S X : Type}.

(** A loop whose body never raises on the elements of the list returns. *)
Lemma for_enumerate_returns (body : S → nat → X → result S) l :
  ∀ start s,
    (∀ k x t, l !! k = Some x → ∃ t', body t (start + k) x = Ok t') →
    ∃ s', for_enumerate body start l s = Ok s'.
Proof.
  induction l as [|x l IH]; intros start s Hbody; [by exists s|].
  destruct (Hbody 0 x s eq_refl) as [t Ht]. rewrite Nat.add_0_r in Ht.
  cbn. rewrite Ht. cbn. apply IH. intros k y u Hy.
  destruct (Hbody (Datatypes.S k) y u Hy) as [u' Hu'].
  exists u'. by rewrite Nat.add_succ_r in Hu'.
Qed.

End LoopReturns.

Lemma size_conflict_returns ord a f :
  sizes_readable ord a → sizes_readable ord f →
  ∃ c, size_conflict ord a f = Ok c.
Proof.
  intros Ha Hf. unfold size_conflict.
  destruct (nonempty (sizes_of a)) eqn:Ea; [|by eexists].
  destruct (nonempty (sizes_of f)) eqn:Ef; [|by eexists]. cbn [andb].
  destruct Ha as [Ha|[v ->]].
  { apply nonempty_false in Ha. congruence. }
  destruct Hf as [Hf|[w ->]].
  { apply nonempty_false in Hf. congruence. }
  by eexists.
Qed.

(** [match_products] returns a list whenever the size tags of every
    listing can be read. *)
Lemma match_products_returns ord extract cos A B :
  (∀ l, l ∈ A ++ B → sizes_readable ord (extract (title l))) →
  ∃ out, match_products ord extract cos A B = Ok out.
Proof.
  intros Hread. unfold match_products.
  destruct A as [|a0 A'] eqn:EA; [by eexists|].
  destruct B as [|b0 B'] eqn:EB; [by eexists|].
  rewrite <- EA, <- EB in *. unfold build_unified.
  destruct (for_enumerate_returns
              (anchor_body ord cos (make_fk_data extract B))
              (make_amz_data extract A) 0 ([], ∅)) as [st ->]; [|by eexists].
  intros i amz [ups used] Hi. cbn [Nat.add]. unfold anchor_body, best_for.
  cbn [fst snd].
  unfold make_amz_data in Hi. rewrite list_lookup_fmap in Hi.
  destruct (A !! i) as [a|] eqn:Ha; [|done]. injection Hi as <-.
  destruct (for_enumerate_returns (consider ord cos i (amz_of extract a) used)
              (make_fk_data extract B) 0 no_best) as [best ->]; [|by eexists].
  intros j fk best [b [Hb ->]]%make_fk_data_lookup. cbn [Nat.add].
  unfold consider, hard_conflict.
  destruct (bool_decide _); [by eexists|].
  destruct (size_conflict_returns ord (extract (title a)) (extract (title b)))
    as [c Hc].
  - apply Hread, elem_of_app. left. by apply list_elem_of_lookup_2 in Ha.
  - apply Hread, elem_of_app. right. by apply list_elem_of_lookup_2 in Hb.
  - cbn [amz_identifiers amz_of fk_identifiers fk_at]. rewrite Hc.
    unfold mbind, result_bind. destruct (_ || _); [by eexists|].
    destruct (_ && _); by eexists.
Qed.

(** ** The claims on the sample listings *)

(** The run behind the witnesses below. *)
Example sample_run :
  match_products order_fwd sample_identifiers sample_cos
    sample_amazon sample_flipkart = Ok sample_result.
Proof. vm_compute. reflexivity. Qed.

Lemma one_record_per_listing_witness :
  one_record_per_source order_fwd sample_identifiers sample_cos
    sample_amazon sample_flipkart sample_result.
Proof.
  apply one_record_per_listing; [done|done|].
  vm_compute. reflexivity.
Defined.

Lemma candidate_taken_only_through_gate_witness :
  consider order_fwd sample_cos 0 (amz_of sample_identifiers s21_amazon) ∅
    no_best 0 (fk_at sample_identifiers 0 s21_flipkart)
  = Ok (accepted
          (pair_score sample_cos 0 (amz_of sample_identifiers s21_amazon)
             0 (fk_at sample_identifiers 0 s21_flipkart))
          (fk_at sample_identifiers 0 s21_flipkart)).
Proof.
  refine (proj2 (proj2 (candidate_taken_only_through_gate order_fwd sample_cos
            0 (amz_of sample_identifiers s21_amazon) ∅ no_best
            0 (fk_at sample_identifiers 0 s21_flipkart) _ _)) _ _).
  - apply not_elem_of_empty.
  - vm_compute. reflexivity.
  - vm_compute. reflexivity.
  - left. split; [apply Nat.leb_le|]; vm_compute; reflexivity.
Defined.

Lemma composite_score_formula_witness :
  ∃ score,
    score = (0.9 + PyFloat.of_nat 7 * 0.1 + 0.5)%float
    ∧ consider order_fwd sample_cos 0 (amz_of sample_identifiers s21_amazon) ∅
        no_best 0 (fk_at sample_identifiers 0 s21_flipkart)
      = Ok (if PyFloat.gt score (best_score no_best)
               && pair_gate sample_cos 0 (amz_of sample_identifiers s21_amazon)
                    0 (fk_at sample_identifiers 0 s21_flipkart)
            then accepted score (fk_at sample_identifiers 0 s21_flipkart)
            else no_best).
Proof.
  destruct (composite_score_formula order_fwd sample_cos
              0 (amz_of sample_identifiers s21_amazon) ∅ no_best
              0 (fk_at sample_identifiers 0 s21_flipkart))
    as (score & Hrun & Hmodel & _).
  - apply not_elem_of_empty.
  - vm_compute. reflexivity.
  - exists score. split; [|exact Hrun].
    rewrite Hmodel.
    + vm_compute. reflexivity.
    + apply model_match_iff. vm_compute. reflexivity.
Defined.

Lemma storage_mismatch_never_matched_witness :
  best_idx no_best ≠ Z.of_nat 0
  ∧ storage_conflict ({[ "ram_8gb" ]} ∪ sample_identifiers (title s21_amazon))
      (sample_identifiers (title s21_256_flipkart))
    = storage_conflict (sample_identifiers (title s21_amazon))
        (sample_identifiers (title s21_256_flipkart)).
Proof.
  destruct (storage_mismatch_never_matched order_fwd sample_identifiers
              sample_cos 0 s21_amazon [s21_256_flipkart] 0 s21_256_flipkart)
    as (_ & Hloop & Hram).
  - reflexivity.
  - apply (proj1 (storage_conflict_iff _ _)). vm_compute. reflexivity.
  - apply (proj1 (storage_conflict_iff _ _)). vm_compute. reflexivity.
  - split.
    + refine (Hloop ∅ no_best _). vm_compute. reflexivity.
    + exact (proj1 (Hram "ram_8gb" (sample_identifiers (title s21_amazon))
                      (sample_identifiers (title s21_256_flipkart)) eq_refl)).
Defined.

Lemma final_order_is_stable_partition_witness :
  id <$> sample_result = seq 1 (length sample_result).
Proof.
  destruct (final_order_is_stable_partition order_fwd sample_identifiers
              sample_cos sample_amazon sample_flipkart sample_result)
    as (pre & n & _ & _ & _ & _ & Hid).
  - repeat constructor; intros p [= <-]; vm_compute; reflexivity.
  - repeat constructor; intros p [= <-]; vm_compute; reflexivity.
  - vm_compute. reflexivity.
  - exact Hid.
Defined.


Lemma record_fields_from_one_listing_witness :
  ∃ ms, length ms = length sample_amazon
    ∧ ∀ u, u ∈ sample_result →
        (∃ i a m, sample_amazon !! i = Some a ∧ ms !! i = Some m
                  ∧ from_amazon a u
                  ∧ flipkart_price u = fk_of sample_flipkart m ≫= price
                  ∧ flipkart_link u = fk_of sample_flipkart m ≫= link)
        ∨ (∃ j b, sample_flipkart !! j = Some b ∧ (j ∉ consumed ms)
                  ∧ from_flipkart_only b u).
Proof.
  apply (record_fields_from_one_listing order_fwd sample_identifiers sample_cos).
  vm_compute. reflexivity.
Defined.

(** ** Further properties of the rules *)

Lemma size_value_nonempty_raises ord s e :
  s ≠ ∅ → size_value ord s = Raise e → e = ValueError.
Proof.
  intros Hne. unfold size_value.
  pose proof (set_first_spec ord s) as Hspec.
  destruct (set_first ord s) as [x|]; [|done].
  destruct (PyStr.int _); [done|]. by intros [= <-].
Qed.


Lemma size_conflict_sym ord a f : size_conflict ord a f = size_conflict ord f a.
Proof.
  unfold size_conflict. rewrite (andb_comm (nonempty (sizes_of f))).
  destruct (nonempty (sizes_of a)) eqn:Ea; [|done].
  destruct (nonempty (sizes_of f)) eqn:Ef; [|done]. cbn [andb].
  apply bool_decide_eq_true in Ea, Ef.
  destruct (size_value ord (sizes_of a)) as [v|e1] eqn:Hv;
    destruct (size_value ord (sizes_of f)) as [w|e2] eqn:Hw; cbn.
  - by rewrite <- Z.abs_opp, Z.opp_sub_distr, Z.add_comm, Z.add_opp_r.
  - done.
  - done.
  - by rewrite (size_value_nonempty_raises ord _ _ Ea Hv),
      (size_value_nonempty_raises ord _ _ Ef Hw).
Qed.

(** X1.  The identifier rules do not depend on which catalogue is on which
    side: the nine set rules, the size rule (result or exception), the
    model match, the overlap count and the key-signal count are symmetric. *)
Theorem identifier_rules_symmetric ord a f :
  series_conflict a f = series_conflict f a
  ∧ resolution_conflict a f = resolution_conflict f a
  ∧ size_conflict ord a f = size_conflict ord f a
  ∧ variant_conflict a f = variant_conflict f a
  ∧ color_conflict a f = color_conflict f a
  ∧ unit_conflict a f = unit_conflict f a
  ∧ storage_conflict a f = storage_conflict f a
  ∧ watt_conflict a f = watt_conflict f a
  ∧ appmodel_conflict a f = appmodel_conflict f a
  ∧ jars_conflict a f = jars_conflict f a
  ∧ model_match a f = model_match f a
  ∧ identifier_overlap a f = identifier_overlap f a
  ∧ key_match_count a f = key_match_count f a.
Proof.
  assert (Hne : ∀ X Y : idset, bool_decide (X ≠ Y) = bool_decide (Y ≠ X)).
  { intros X Y. apply bool_decide_ext. split; intros H E; by apply H. }
  assert (Heq : ∀ X Y : idset, bool_decide (X = Y) = bool_decide (Y = X)).
  { intros X Y. by apply bool_decide_ext. }
  assert (Hand : ∀ x y z z', z = z' → x && y && z = y && x && z').
  { intros x y z z' ->. by rewrite (andb_comm x y). }
  assert (Hint : ∀ X Y : idset, nonempty (X ∩ Y) = nonempty (Y ∩ X)).
  { intros X Y. by rewrite (comm_L (∩) X Y). }
  unfold series_conflict, resolution_conflict, variant_conflict, color_conflict,
    unit_conflict, storage_conflict, watt_conflict, appmodel_conflict,
    jars_conflict, model_match, identifier_overlap, key_match_count,
    brand_signal, storage_signal, color_signal.
  split; [by apply Hand|]. split; [apply Hand; by rewrite Hint|].
  split; [apply size_conflict_sym|]. split; [apply Hne|].
  split; [by apply Hand|]. split; [by apply Hand|].
  split; [apply Hand; by rewrite Hint|]. split; [by apply Hand|].
  split; [apply Hand; by rewrite Hint|]. split; [by apply Hand|].
  split; [by apply Hand|]. split; [by rewrite (comm_L (∩) a f)|].
  rewrite (Hint (a ∩ brand_ids)).
  rewrite (Hand _ _ _ _ (Heq (with_prefix "storage_" a) (with_prefix "storage_" f))).
  rewrite (Hand _ _ _ _ (Heq (with_prefix "color_" a) (with_prefix "color_" f))).
  done.
Qed.

Lemma size_conflict_same ord a c : size_conflict ord a a = Ok c → c = false.
Proof.
  unfold size_conflict. destruct (nonempty (sizes_of a)); cbn [andb];
    [|by intros [= <-]].
  destruct (size_value ord (sizes_of a)) as [v|e]; [|done]. cbn.
  intros [= <-]. by rewrite Z.sub_diag.
Qed.

(** X2.  Two listings with the same identifier set are rejected by no
    identifier rule: if the conflict check returns, its verdict is the
    price rule's; and the price rule rejects nothing when a price is
    absent or zero. *)
Theorem same_identifiers_only_price_rejects ord pa pb a c :
  hard_conflict ord pa pb a a = Ok c →
  c = price_conflict (price pa) (price pb)
  ∧ (truthy_price (price pa) = false ∨ truthy_price (price pb) = false →
     c = false).
Proof.
  unfold hard_conflict.
  destruct (size_conflict ord a a) as [sc|e] eqn:Hsc; [|done].
  apply size_conflict_same in Hsc as ->. unfold mbind, result_bind.
  intros [= <-].
  assert (Hself : ∀ X : idset, bool_decide (X ≠ X) = false)
    by by intros; apply bool_decide_eq_false_2; intros [].
  assert (Hinter : ∀ X : idset,
             nonempty X && nonempty X && negb (nonempty (X ∩ X)) = false).
  { intros X. rewrite (idemp_L (∩) X). by destruct (nonempty X). }
  unfold series_conflict, resolution_conflict, variant_conflict, color_conflict,
    unit_conflict, storage_conflict, watt_conflict, appmodel_conflict,
    jars_conflict.
  rewrite !Hself, !Hinter, !andb_false_r. cbn [orb].
  split; [by rewrite !orb_false_r|].
  rewrite !orb_false_r. unfold price_conflict, truthy_price.
  destruct (price pa) as [p1|], (price pb) as [p2|]; try done.
  intros [->| ->]; [done|]. by rewrite andb_false_r.
Qed.

(** ** What a merged record guarantees *)

(** No rule stands between the two listings. *)
Definition merge_allowed (ord : SetOrder) (a b : Listing) (ia fb : idset) : Prop :=
  (both_tagged "series_" ia fb → with_prefix "series_" ia = with_prefix "series_" fb)
  ∧ (ia ∩ res_types = ∅ ∨ fb ∩ res_types = ∅
     ∨ ∃ x, x ∈ res_types ∧ x ∈ ia ∧ x ∈ fb)
  ∧ size_conflict ord ia fb = Ok false
  ∧ ia ∩ variants = fb ∩ variants
  ∧ price_conflict (price a) (price b) = false
  ∧ (both_tagged "color_" ia fb → with_prefix "color_" ia = with_prefix "color_" fb)
  ∧ (both_tagged "unit_" ia fb → with_prefix "unit_" ia = with_prefix "unit_" fb)
  ∧ (both_tagged "storage_" ia fb → shares_tag "storage_" ia fb)
  ∧ (both_tagged "watt_" ia fb → with_prefix "watt_" ia = with_prefix "watt_" fb)
  ∧ (both_tagged "appmodel_" ia fb → shares_tag "appmodel_" ia fb)
  ∧ (both_tagged "jars_" ia fb → with_prefix "jars_" ia = with_prefix "jars_" fb).

Lemma differ_rule_false p a f :
  nonempty (with_prefix p a) && nonempty (with_prefix p f)
  && bool_decide (with_prefix p a ≠ with_prefix p f) = false →
  both_tagged p a f → with_prefix p a = with_prefix p f.
Proof.
  intros Hr Hb%both_tagged_iff. rewrite Hb in Hr. cbn in Hr.
  apply bool_decide_eq_false in Hr.
  by destruct (decide (with_prefix p a = with_prefix p f)).
Qed.

Lemma disjoint_rule_false p a f :
  nonempty (with_prefix p a) && nonempty (with_prefix p f)
  && negb (nonempty (with_prefix p a ∩ with_prefix p f)) = false →
  both_tagged p a f → shares_tag p a f.
Proof.
  intros Hr Hb%both_tagged_iff. rewrite Hb in Hr. cbn in Hr.
  apply negb_false_iff in Hr. by apply with_prefix_inter_nonempty.
Qed.

Lemma hard_conflict_false ord a b ia fb :
  hard_conflict ord a b ia fb = Ok false → merge_allowed ord a b ia fb.
Proof.
  unfold hard_conflict.
  destruct (size_conflict ord ia fb) as [sc|e] eqn:Hsize; [|done].
  unfold mbind, result_bind. intros [= H].
  apply orb_false_iff in H as [H Hjars]. apply orb_false_iff in H as [H Happ].
  apply orb_false_iff in H as [H Hwatt]. apply orb_false_iff in H as [H Hprice].
  apply orb_false_iff in H as [H Hvar]. apply orb_false_iff in H as [H Hunit].
  apply orb_false_iff in H as [H Hcolor]. apply orb_false_iff in H as [H Hsto].
  apply orb_false_iff in H as [H ->]. apply orb_false_iff in H as [Hser Hres].
  unfold merge_allowed.
  split; [by apply differ_rule_false|]. split.
  { unfold resolution_conflict in *.
    destruct (nonempty (ia ∩ res_types)) eqn:E1;
      [|left; by apply nonempty_false].
    destruct (nonempty (fb ∩ res_types)) eqn:E2;
      [|right; left; by apply nonempty_false].
    right. right. cbn in Hres. apply negb_false_iff, nonempty_true in Hres.
    destruct Hres as [x Hx]. exists x.
    rewrite !elem_of_intersection in Hx. tauto. }
  split; [done|]. split.
  { unfold variant_conflict in *. apply bool_decide_eq_false in Hvar.
    by destruct (decide (ia ∩ variants = fb ∩ variants)). }
  split; [done|].
  split; [by apply differ_rule_false|]. split; [by apply differ_rule_false|].
  split; [by apply disjoint_rule_false|]. split; [by apply differ_rule_false|].
  split; [by apply disjoint_rule_false|]. by apply differ_rule_false.
Qed.

(** X3.  Every record that merges an Amazon listing with a Flipkart
    listing merges a pair no rule stands between: equal variant tags, a
    price gap within the limit, sizes within the tolerance, and for every
    tag namespace present on both sides equal (series, colour, unit, watt,
    jars) or overlapping (storage, appliance model, resolution) tags. *)
Theorem merged_records_respect_rules ord extract cos A B out :
  A ≠ [] → B ≠ [] →
  match_products ord extract cos A B = Ok out →
  ∃ ms, length ms = length A
    ∧ forget <$> out ≡ₚ emitted B A ms
    ∧ ∀ i j a b, ms !! i = Some (Some j) → A !! i = Some a → B !! j = Some b →
        merge_allowed ord a b (extract (title a)) (extract (title b)).
Proof.
  intros HA HB Hrun.
  destruct (match_products_content ord extract cos A B out HA HB Hrun)
    as (ms & Hms & Hout & _).
  exists ms. split; [apply Hms|]. split.
  { rewrite Hout. apply filter_partition_perm. }
  intros i j a b Hij Ha Hb.
  destruct Hms as (_ & _ & _ & Hpair).
  destruct (Hpair i j Hij) as (a' & b' & Ha' & Hb' & Hconf & _).
  rewrite Ha in Ha'. rewrite Hb in Hb'. injection Ha' as <-. injection Hb' as <-.
  by apply hard_conflict_false in Hconf.
Qed.

(** X4.  With both sequences non-empty the result has one record per
    listing minus one per merged pair: its length is |A| + |B| - k for
    some k at most min(|A|, |B|), hence between max(|A|, |B|) and
    |A| + |B|. *)
Theorem result_length ord extract cos A B out :
  A ≠ [] → B ≠ [] →
  match_products ord extract cos A B = Ok out →
  ∃ k : nat, (k ≤ length A)%nat ∧ (k ≤ length B)%nat
       ∧ length out + k = length A + length B.
Proof.
  intros HA HB Hrun.
  destruct (match_products_content ord extract cos A B out HA HB Hrun)
    as (ms & (Hlen & Hnd & Hlt & _) & Hout & _).
  pose proof (flipkart_sources_perm ms B Hnd Hlt) as Hperm.
  apply Permutation_length in Hperm.
  rewrite length_app, length_fmap, length_seq in Hperm.
  assert (Hk : (length (consumed ms) ≤ length ms)%nat).
  { unfold consumed. clear. induction ms as [|[j|] ms IH]; cbn; lia. }
  exists (length (consumed ms)). split; [lia|]. split; [lia|].
  rewrite <- (length_fmap forget out), Hout.
  unfold matched_first. rewrite filter_partition_length.
  unfold emitted. rewrite length_app, length_zip_with, length_fmap. lia.
Qed.

(** X5.  In the result every record has its [has_comparison] key set, to
    the truth value of "both prices"; a leftover record never has it true. *)
Theorem has_comparison_is_derived ord extract cos A B out u :
  match_products ord extract cos A B = Ok out → u ∈ out →
  has_comparison u
  = Some (truthy_price (amazon_price u) && truthy_price (flipkart_price u))
  ∧ (amazon_price u = None → has_comparison u = Some false).
Proof.
  intros Hrun Hu.
  destruct (match_products_spec ord extract cos A B out Hrun)
    as [[-> _]|(_ & _ & pre & _ & ->)].
  { by apply elem_of_nil in Hu. }
  apply finalize_has_comparison in Hu. rewrite Hu. split; [done|].
  unfold both_prices. by intros ->.
Qed.

(** ** The inner loop *)

Section InnerLoop.
Variable ord : SetOrder.
Variable cos : nat → nat → float.

Lemma consider_keeps_match i amz used best j fk best' :
  consider ord cos i amz used best j fk = Ok best' →
  is_Some (best_match best) → is_Some (best_match best').
Proof.
  intros [->|(_ & _ & ->)]%consider_cases; [done|]. by eexists.
Qed.

(** X6.  An anchor stays unmatched only if no candidate was eligible: each
    Flipkart listing was already taken, or rejected by a rule, or stopped
    by the confidence gates, or its score was not above zero. *)
Theorem unmatched_only_without_candidate fk_data i amz used best j fk :
  best_for ord cos fk_data i amz used = Ok best →
  best_match best = None →
  fk_data !! j = Some fk →
  fk_idx fk ∈ used
  ∨ pair_conflict ord amz fk = Ok true
  ∨ pair_gate cos i amz j fk = false
  ∨ PyFloat.gt (pair_score cos i amz j fk) 0%float = false.
Proof.
  intros Hrun Hnone Hj.
  pose (P := λ (k : nat) (b : Best),
          best_match b = None →
          b = no_best
          ∧ ∀ j fk, (j < k)%nat → fk_data !! j = Some fk →
              fk_idx fk ∈ used
              ∨ pair_conflict ord amz fk = Ok true
              ∨ pair_gate cos i amz j fk = false
              ∨ PyFloat.gt (pair_score cos i amz j fk) 0%float = false).
  assert (HP : P (length fk_data) best).
  { apply (for_enumerate_invariant (consider ord cos i amz used) P
             fk_data 0 no_best best); [| |done].
    - intros _. split; [done|]. intros ? ? ?. lia.
    - clear best Hrun Hnone j fk Hj.
      intros k fk b b' Hk Hb Hc Hnone'. cbn [Nat.add] in Hc.
      destruct (best_match b) as [m|] eqn:Hm.
      { assert (is_Some (best_match b')) as [? Hs]
          by (eapply consider_keeps_match; [done|by rewrite Hm]).
        congruence. }
      destruct (Hb Hm) as [-> Hprev].
      assert (Hb' : b' = no_best).
      { apply consider_cases in Hc as [->|(_ & _ & ->)]; [done|]. done. }
      split; [done|]. subst b'.
      intros j fk' Hlt Hj'.
      destruct (decide (j = k)) as [->|Hne]; [|apply Hprev; [lia|done]].
      rewrite Hk in Hj'. injection Hj' as <-.
      destruct (decide (fk_idx fk ∈ used)) as [Hu|Hu]; [by left|].
      right. unfold consider in Hc. rewrite bool_decide_eq_false_2 in Hc by done.
      unfold pair_conflict, pair_gate, pair_score.
      destruct (hard_conflict _ _ _ _ _) as [[|]|e]; [by left| |done].
      right. unfold mbind, result_bind in Hc. cbn [best_score no_best] in Hc.
      destruct (PyFloat.gt _ _); [|by right].
      destruct (confidence_gate _ _ _); [|by left]. done. }
  destruct (HP Hnone) as [_ Hall].
  apply (Hall j fk); [|done]. by apply lookup_lt_Some in Hj.
Qed.

End InnerLoop.

(** ** Exceptions *)

Section LoopRaises.
Context {S X : Type}.


End LoopRaises.


(** ** The size rule and the exception *)

(** X8.  When each side has exactly one tag ending in [inch] and it reads
    as a number, the size rule returns, in whatever order sets iterate, and
    rejects exactly when the two numbers differ by more than 1. *)
Theorem size_rule_tolerance ord a f x y n m :
  sizes_of a = {[ x ]} → sizes_of f = {[ y ]} →
  PyStr.int (PyStr.remove_inch x) = Some n →
  PyStr.int (PyStr.remove_inch y) = Some m →
  ∃ c, size_conflict ord a f = Ok c ∧ (c = true ↔ (1 < Z.abs (n - m))%Z).
Proof.
  intros Ha Hf Hn Hm. exists (1 <? Z.abs (n - m))%Z.
  split; [by apply (size_conflict_single_tags ord a f x y)|].
  apply Z.ltb_lt.
Qed.

Lemma numeric_sizes_readable ord (ids : idset) :
  (∀ x, x ∈ sizes_of ids → is_Some (PyStr.int (PyStr.remove_inch x))) →
  sizes_readable ord ids.
Proof.
  intros Hnum. unfold sizes_readable, size_value.
  pose proof (set_first_spec ord (sizes_of ids)) as Hspec.
  destruct (set_first ord (sizes_of ids)) as [x|]; [|by left].
  right. destruct (Hnum x Hspec) as [v ->]. by exists v.
Qed.

(** X9.  [match_products] returns a list, in whatever order sets iterate,
    when every tag ending in [inch] of every listing reads as a number
    once [inch] is removed. *)
Theorem match_products_returns_on_numeric_sizes ord extract cos A B :
  (∀ l x, l ∈ A ++ B → x ∈ sizes_of (extract (title l)) →
          is_Some (PyStr.int (PyStr.remove_inch x))) →
  ∃ out, match_products ord extract cos A B = Ok out.
Proof.
  intros Hnum. apply match_products_returns. intros l Hl.
  apply numeric_sizes_readable. intros x Hx. by apply (Hnum l).
Qed.

(** X10.  When the first Amazon listing and the first Flipkart listing both
    have tags ending in [inch] and none of the Amazon ones reads as a
    number, [match_products] raises [ValueError] on the first pair, in
    whatever order sets iterate. *)
Theorem match_products_raises_on_unreadable_size ord extract cos a A b B :
  sizes_of (extract (title a)) ≠ ∅ →
  sizes_of (extract (title b)) ≠ ∅ →
  (∀ x, x ∈ sizes_of (extract (title a)) →
        PyStr.int (PyStr.remove_inch x) = None) →
  match_products ord extract cos (a :: A) (b :: B) = Raise ValueError.
Proof.
  intros Ha Hb Hbad.
  assert (Hsz : size_conflict ord (extract (title a)) (extract (title b))
                = Raise ValueError).
  { assert (Hv : size_value ord (sizes_of (extract (title a)))
                   = Raise ValueError).
    { unfold size_value.
      pose proof (set_first_spec ord (sizes_of (extract (title a)))) as Hspec.
      destruct (set_first ord (sizes_of (extract (title a)))) as [x|]; [|done].
      by rewrite (Hbad x Hspec). }
    unfold size_conflict, nonempty.
    rewrite !bool_decide_eq_true_2 by done. cbn [andb]. by rewrite Hv. }
  assert (Hc : ∀ best, consider ord cos 0 (amz_of extract a) ∅ best
                         0 (fk_at extract 0 b) = Raise ValueError).
  { intros best. unfold consider.
    rewrite bool_decide_eq_false_2 by apply not_elem_of_empty.
    unfold hard_conflict. cbn [amz_identifiers amz_of fk_identifiers fk_at].
    by rewrite Hsz. }
  assert (Hbest : best_for ord cos (make_fk_data extract (b :: B)) 0
                    (amz_of extract a) ∅ = Raise ValueError).
  { unfold best_for, make_fk_data. rewrite imap_cons.
    cbn [for_enumerate]. by rewrite Hc. }
  assert (Hbody : anchor_body ord cos (make_fk_data extract (b :: B)) ([], ∅)
                    0 (amz_of extract a) = Raise ValueError).
  { unfold anchor_body. cbn [fst snd]. by rewrite Hbest. }
  unfold match_products, build_unified, make_amz_data.
  cbn [map for_enumerate]. by rewrite Hbody.
Qed.

(** ** These properties on the sample listings *)

(** The identifiers of "Tablet 8inch display": one digit is not a size for
    the extractor, and the token mixes a digit with letters. *)
Definition tablet_identifiers (t : string) : idset := {[ "model_8inch" ]}.

Definition tablet : Listing := listing "Tablet 8inch display" 99 "amazon/tab8".

Lemma same_identifiers_only_price_rejects_witness :
  false = price_conflict (price s21_amazon) (price s21_flipkart).
Proof.
  refine (proj1 (same_identifiers_only_price_rejects order_fwd
                   s21_amazon s21_flipkart
                   (sample_identifiers (title s21_amazon)) false _)).
  vm_compute. reflexivity.
Defined.

Lemma merged_records_respect_rules_witness :
  ∃ ms, length ms = length sample_amazon
    ∧ forget <$> sample_result ≡ₚ emitted sample_flipkart sample_amazon ms
    ∧ ∀ i j a b, ms !! i = Some (Some j) →
        sample_amazon !! i = Some a → sample_flipkart !! j = Some b →
        merge_allowed order_fwd a b
          (sample_identifiers (title a)) (sample_identifiers (title b)).
Proof.
  apply (merged_records_respect_rules order_fwd sample_identifiers sample_cos);
    [done|done|].
  vm_compute. reflexivity.
Defined.

Lemma result_length_witness :
  ∃ k : nat, (k ≤ length sample_amazon)%nat ∧ (k ≤ length sample_flipkart)%nat
    ∧ length sample_result + k = length sample_amazon + length sample_flipkart.
Proof.
  apply (result_length order_fwd sample_identifiers sample_cos); [done|done|].
  vm_compute. reflexivity.
Defined.

Lemma has_comparison_is_derived_witness :
  ∃ u, sample_result !! 0 = Some u ∧ has_comparison u = Some true.
Proof.
  destruct sample_result as [|u l] eqn:E; [discriminate E|].
  exists u. split; [reflexivity|].
  destruct (has_comparison_is_derived order_fwd sample_identifiers sample_cos
              sample_amazon sample_flipkart (u :: l) u) as [Hc _].
  - rewrite <- E. vm_compute. reflexivity.
  - apply list_elem_of_here.
  - rewrite Hc. injection E as <- _. vm_compute. reflexivity.
Defined.

Lemma unmatched_only_without_candidate_witness :
  fk_idx (fk_at sample_identifiers 0 tv55_flipkart) ∈ (∅ : gset Z)
  ∨ pair_conflict order_fwd (amz_of sample_identifiers tv43_amazon)
      (fk_at sample_identifiers 0 tv55_flipkart) = Ok true
  ∨ pair_gate sample_cos 1 (amz_of sample_identifiers tv43_amazon)
      0 (fk_at sample_identifiers 0 tv55_flipkart) = false
  ∨ PyFloat.gt (pair_score sample_cos 1 (amz_of sample_identifiers tv43_amazon)
                  0 (fk_at sample_identifiers 0 tv55_flipkart)) 0%float = false.
Proof.
  apply (unmatched_only_without_candidate order_fwd sample_cos
           (make_fk_data sample_identifiers [tv55_flipkart]) 1
           (amz_of sample_identifiers tv43_amazon) ∅ no_best).
  - vm_compute. reflexivity.
  - reflexivity.
  - reflexivity.
Defined.


Lemma size_rule_tolerance_witness :
  ∃ c, size_conflict order_bwd {[ "43inch"; "4k" ]} {[ "55inch"; "4k" ]} = Ok c
       ∧ (c = true ↔ (1 < Z.abs (43 - 55))%Z).
Proof.
  apply (size_rule_tolerance order_bwd _ _ "43inch" "55inch");
    vm_compute; reflexivity.
Defined.

Lemma match_products_returns_on_numeric_sizes_witness :
  ∃ out, match_products order_bwd sample_identifiers sample_cos
           sample_amazon sample_flipkart = Ok out.
Proof.
  apply match_products_returns_on_numeric_sizes.
  assert (H : Forall (λ l, set_Forall
                (λ x, is_Some (PyStr.int (PyStr.remove_inch x)))
                (sizes_of (sample_identifiers (title l))))
              (sample_amazon ++ sample_flipkart)).
  { apply (bool_decide_unpack _). vm_compute. exact I. }
  intros l x Hl Hx. rewrite Forall_forall in H. by apply (H l Hl x).
Defined.

Lemma match_products_raises_on_unreadable_size_witness :
  match_products order_fwd tablet_identifiers sample_cos [tablet] [tablet]
  = Raise ValueError.
Proof.
  apply match_products_raises_on_unreadable_size.
  - apply (bool_decide_unpack _). vm_compute. exact I.
  - apply (bool_decide_unpack _). vm_compute. exact I.
  - intros x Hx. replace (sizes_of (tablet_identifiers (title tablet)))
      with ({[ "model_8inch" ]} : idset) in Hx by (vm_compute; reflexivity).
    apply elem_of_singleton in Hx as ->. vm_compute. reflexivity.
Defined.

(** * The text functions of [backend/scraper.py]

    [extract_key_identifiers], [normalize_title] and [parse_price], with
    the string methods and the fragment of the [re] module they call.

    A title is read as a string of ASCII characters: for them [\d], [\s],
    [\w], [isdigit], [isalpha], [isspace] and [lower] are the classes
    below.  (On other characters Python consults the Unicode tables; the
    properties of titles are stated for ASCII titles.)  Numbers read
    from a title are unbounded, as Python's [int].

    ** Text helpers *)

Module PyText.

Definition is_upper (c : ascii) : bool :=
  let n := nat_of_ascii c in (65 <=? n)%nat && (n <=? 90)%nat.

Definition is_lower (c : ascii) : bool :=
  let n := nat_of_ascii c in (97 <=? n)%nat && (n <=? 122)%nat.

(** [c.isalpha()] *)
Definition is_alpha (c : ascii) : bool := is_upper c || is_lower c.

(** [\w] *)
Definition is_word (c : ascii) : bool :=
  is_alpha c || PyStr.is_digit c || Ascii.eqb c "_".

Definition lower_char (c : ascii) : ascii :=
  if is_upper c then ascii_of_nat (nat_of_ascii c + 32) else c.

(** [s.lower()] *)
Fixpoint lower (s : string) : string :=
  match s with
  | EmptyString => EmptyString
  | String c r => String (lower_char c) (lower r)
  end.

(** [sub in s] *)
Fixpoint contains (sub s : string) : bool :=
  String.prefix sub s
  || match s with
     | EmptyString => false
     | String _ r => contains sub r
     end.

(** [s.replace(' ', '')] *)
Fixpoint remove_spaces (s : string) : string :=
  match s with
  | EmptyString => EmptyString
  | String c r =>
      if Ascii.eqb c " " then remove_spaces r else String c (remove_spaces r)
  end.

(** [s[a:b]] for [0 <= a] and [0 <= b]. *)
Definition slice (a b : nat) (s : string) : string :=
  String.substring a (b - a) s.

Fixpoint lstrip_chars (chars : list ascii) (l : list ascii) : list ascii :=
  match l with
  | c :: r => if existsb (Ascii.eqb c) chars then lstrip_chars chars r else l
  | [] => []
  end.

(** [s.strip(chars)] *)
Definition strip_chars (cs : list ascii) (s : string) : string :=
  string_of_list_ascii
    (rev (lstrip_chars cs (rev (lstrip_chars cs (list_ascii_of_string s))))).

(** [int(s)] for a string of digits. *)
Definition decimal (s : string) : N :=
  fold_left (λ acc c, (acc * 10 + N.of_nat (nat_of_ascii c - 48))%N)
    (list_ascii_of_string s) 0%N.

(** [re.sub(r'[^a-z0-9]', '', s)] *)
Fixpoint keep_lower_alnum (s : string) : string :=
  match s with
  | EmptyString => EmptyString
  | String c r =>
      if is_lower c || PyStr.is_digit c then String c (keep_lower_alnum r)
      else keep_lower_alnum r
  end.

Definition any_char (p : ascii → bool) (s : string) : bool :=
  existsb p (list_ascii_of_string s).

(** [s in l] for a list of strings. *)
Definition in_list (s : string) (l : list string) : bool :=
  existsb (String.eqb s) l.

(** The largest [k] with [k <= x], found by counting up from [k]. *)
Fixpoint floor_from (fuel k : nat) (x : float) : nat :=
  match fuel with
  | O => k
  | S fuel' =>
      if PrimFloat.leb (PyFloat.of_nat (S k)) x then floor_from fuel' (S k) x
      else k
  end.

(** [round(x)] for [0 <= x < 1000]: the nearest integer, the even one at a
    tie. *)
Definition round (x : float) : nat :=
  let k := floor_from 1000 0 x in
  let r := (x - PyFloat.of_nat k)%float in
  if PrimFloat.ltb r 0.5%float then k
  else if PrimFloat.ltb 0.5%float r then S k
  else if Nat.even k then k else S k.

End PyText.

(** ** Regular expressions

    The fragment of [re] the extractor uses, with the matching order of
    the module: the leftmost start, alternatives from left to right,
    greedy repetitions that give characters back one at a time. *)

Module Re.

Inductive re :=
| Eps
| Chr (c : ascii)
| Any (p : ascii → bool)                          (* [\d], [\s], [\w], a set *)
| Rep (p : ascii → bool) (lo : nat) (hi : option nat)  (* [p{lo,hi}], greedy *)
| Seq (r1 r2 : re)
| Alt (r1 r2 : re)
| Opt (r : re)                                      (* [(?:r)?], greedy *)
| Grp (n : nat) (r : re)                            (* the [n]-th [( )] *)
| Wb.                                               (* [\b] *)

(** A literal string. *)
Fixpoint lit (s : string) : re :=
  match s with
  | EmptyString => Eps
  | String c r => Seq (Chr c) (lit r)
  end.

Fixpoint seqs (l : list re) : re :=
  match l with
  | [] => Eps
  | [r] => r
  | r :: l' => Seq r (seqs l')
  end.

Fixpoint alts (l : list string) : re :=
  match l with
  | [] => Eps
  | [s] => lit s
  | s :: l' => Alt (lit s) (alts l')
  end.

(** Spans of the groups closed so far, the latest first. *)
Definition caps := list (nat * (nat * nat)).

(** A continuation receives the position reached, the character before
    it, the text after it and the groups. *)
Definition cont (R : Type) := nat → option ascii → list ascii → caps → option R.

Definition word_at (c : option ascii) : bool :=
  match c with Some c => PyText.is_word c | None => false end.

Section Match.
Context {R : Type}.

Fixpoint rep (p : ascii → bool) (lo : nat) (hi : option nat) (n : nat)
    (pos : nat) (prev : option ascii) (rest : list ascii) (cs : caps)
    (k : cont R) : option R :=
  let stop := if (lo <=? n)%nat then k pos prev rest cs else None in
  match rest with
  | c :: rest' =>
      if p c && match hi with Some h => (n <? h)%nat | None => true end then
        match rep p lo hi (S n) (S pos) (Some c) rest' cs k with
        | Some r => Some r
        | None => stop
        end
      else stop
  | [] => stop
  end.

Fixpoint mt (r : re) (pos : nat) (prev : option ascii) (rest : list ascii)
    (cs : caps) (k : cont R) : option R :=
  match r with
  | Eps => k pos prev rest cs
  | Chr c =>
      match rest with
      | c' :: rest' =>
          if Ascii.eqb c c' then k (S pos) (Some c') rest' cs else None
      | [] => None
      end
  | Any p =>
      match rest with
      | c' :: rest' => if p c' then k (S pos) (Some c') rest' cs else None
      | [] => None
      end
  | Rep p lo hi => rep p lo hi 0 pos prev rest cs k
  | Seq r1 r2 =>
      mt r1 pos prev rest cs (λ pos' prev' rest' cs', mt r2 pos' prev' rest' cs' k)
  | Alt r1 r2 =>
      match mt r1 pos prev rest cs k with
      | Some x => Some x
      | None => mt r2 pos prev rest cs k
      end
  | Opt r1 =>
      match mt r1 pos prev rest cs k with
      | Some x => Some x
      | None => k pos prev rest cs
      end
  | Grp n r1 =>
      mt r1 pos prev rest cs
        (λ pos' prev' rest' cs', k pos' prev' rest' ((n, (pos, pos')) :: cs'))
  | Wb =>
      if xorb (word_at prev) (word_at (head rest)) then k pos prev rest cs
      else None
  end.

End Match.

(** A match: where it starts, where it ends, its groups. *)
Record found := { m_start : nat; m_end : nat; m_caps : caps }.

(** [re.search] from a position on: the first start at which the pattern
    matches. *)
Fixpoint search_from (r : re) (pos : nat) (prev : option ascii)
    (rest : list ascii) : option found :=
  match mt r pos prev rest [] (λ pos' _ _ cs, Some (pos', cs)) with
  | Some (e, cs) => Some {| m_start := pos; m_end := e; m_caps := cs |}
  | None =>
      match rest with
      | c :: rest' => search_from r (S pos) (Some c) rest'
      | [] => None
      end
  end.

Definition search (r : re) (s : string) : option found :=
  search_from r 0 None (list_ascii_of_string s).

(** [m.group(0)] and [m.group(n)] ([None] for a group that took no part). *)
Definition group0 (s : string) (m : found) : string :=
  PyText.slice (m_start m) (m_end m) s.

Definition group (n : nat) (s : string) (m : found) : option string :=
  (λ c : nat * (nat * nat), PyText.slice c.2.1 c.2.2 s)
    <$> List.find (λ c, Nat.eqb c.1 n) (m_caps m).

(** [m.group(n)] for a group every match of the pattern goes through. *)
Definition group_of (n : nat) (s : string) (m : found) : string :=
  default "" (group n s m).

(** [bool(re.search(r, s))] *)
Definition found_in (r : re) (s : string) : bool :=
  bool_decide (is_Some (search r s)).

(** [re.finditer] for a pattern that never matches the empty string: each
    search resumes where the previous match ended. *)
Fixpoint finditer_from (fuel : nat) (r : re) (pos : nat) (prev : option ascii)
    (rest : list ascii) : list found :=
  match fuel with
  | O => []
  | S fuel' =>
      match search_from r pos prev rest with
      | Some m =>
          let skip := m_end m - pos in
          m :: finditer_from fuel' r (m_end m)
                 (match skip with
                  | O => prev
                  | S n => nth_error rest n
                  end)
                 (skipn skip rest)
      | None => []
      end
  end.

Definition finditer (r : re) (s : string) : list found :=
  finditer_from (String.length s) r 0 None (list_ascii_of_string s).

(** [re.split] for such a pattern, without groups: the text between the
    matches. *)
Fixpoint pieces (s : string) (from : nat) (ms : list found) : list string :=
  match ms with
  | [] => [PyText.slice from (String.length s) s]
  | m :: ms' => PyText.slice from (m_start m) s :: pieces s (m_end m) ms'
  end.

Definition split (r : re) (s : string) : list string :=
  pieces s 0 (finditer r s).

End Re.

(** ** The identifier extractor

    [extract_key_identifiers], rule by rule in the order of the source:
    every rule adds tags to the set built so far, and two of them (the
    storage fallback and the generic "hd") first look at that set. *)

Definition dquote : ascii := ascii_of_nat 34.

(** [\d+], [\s*], [\w+] and a word between two [\b]. *)
Definition digits1 : Re.re := Re.Rep PyStr.is_digit 1 None.
Definition spaces0 : Re.re := Re.Rep PyStr.is_space 0 None.
Definition word1 : Re.re := Re.Rep PyText.is_word 1 None.
Definition whole_word (w : string) : Re.re := Re.seqs [Re.Wb; Re.lit w; Re.Wb].

Definition brand_names : list string :=
  [ "apple"; "iphone"; "samsung"; "oneplus"; "xiaomi"; "redmi"; "realme";
    "oppo"; "vivo"; "poco"; "motorola"; "google"; "pixel"; "nothing";
    "mi"; "lg"; "sony"; "toshiba"; "tcl"; "panasonic"; "philips"; "haier";
    "hisense"; "vu"; "acer"; "acerpure"; "kenstar"; "onida"; "iffalcon";
    "hp"; "dell"; "lenovo"; "asus"; "msi"; "macbook"; "thinkpad";
    "boat"; "jbl"; "bose"; "sennheiser"; "noise"; "zebronics"; "skullcandy";
    "prestige"; "bajaj"; "philips"; "butterfly"; "preethi"; "pigeon";
    "havells"; "morphy richards"; "usha"; "crompton"; "kent"; "maharaja";
    "sujata"; "bosch"; "wonderchef"; "kenwood"; "inalsa"; "hamilton" ].

(** [for x in names: if x in title_lower: identifiers.add(tag(x))] *)
Definition add_contained (names : list (string * string)) (title_lower : string)
    (identifiers : idset) : idset :=
  fold_left
    (λ ids (x : string * string),
       if PyText.contains x.1 title_lower then ids ∪ {[ x.2 ]} else ids)
    names identifiers.

(** [for x in names: if re.search(r'\b' + x + r'\b', title_lower):
    identifiers.add(prefix + x)] *)
Definition add_words (prefix : string) (names : list string)
    (title_lower : string) (identifiers : idset) : idset :=
  fold_left
    (λ ids x,
       if Re.found_in (whole_word x) title_lower then ids ∪ {[ prefix +:+ x ]}
       else ids)
    names identifiers.

(** [for pattern in patterns: match = re.search(pattern, title_lower);
    if match: identifiers.add(prefix + match.group(0).replace(' ', ''))] *)
Definition add_matches (prefix : string) (patterns : list Re.re)
    (title_lower : string) (identifiers : idset) : idset :=
  fold_left
    (λ ids r,
       match Re.search r title_lower with
       | Some m =>
           ids ∪ {[ prefix +:+ PyText.remove_spaces (Re.group0 title_lower m) ]}
       | None => ids
       end)
    patterns identifiers.

Definition add_brands : string → idset → idset :=
  add_contained ((λ b, (b, b)) <$> brand_names).

(** Two or three digits, white space, then [inch], [cm], a double quote
    or a single quote. *)
Definition size_pattern : Re.re :=
  Re.seqs [ Re.Grp 1 (Re.Rep PyStr.is_digit 2 (Some 3)); spaces0;
            Re.Alt (Re.lit "inch")
              (Re.Alt (Re.lit "cm") (Re.Alt (Re.Chr dquote) (Re.Chr "'"))) ].

Definition cm_to_inch : list (N * N) :=
  [ (80, 32); (108, 43); (109, 43); (126, 50); (138, 55); (139, 55);
    (164, 65); (189, 75) ]%N.

(** [cm_to_inch.get(val, round(val / 2.54))] *)
Definition inch_of_cm (val : N) : N :=
  match List.find (λ kv : N * N, N.eqb kv.1 val) cm_to_inch with
  | Some kv => kv.2
  | None =>
      N.of_nat (PyText.round (PyFloat.of_nat (N.to_nat val) / 2.54)%float)
  end.

Definition add_size (title_lower : string) (identifiers : idset) : idset :=
  match Re.search size_pattern title_lower with
  | Some size_match =>
      let val := PyText.decimal (Re.group_of 1 title_lower size_match) in
      let unit := PyText.lower (Re.group0 title_lower size_match) in
      if PyText.contains "cm" unit then
        identifiers ∪ {[ pretty (inch_of_cm val) +:+ "inch" ]}
      else identifiers ∪ {[ pretty val +:+ "inch" ]}
  | None => identifiers
  end.

(** [(\d+)\s*(gb|tb)] *)
Definition storage_pattern : Re.re :=
  Re.seqs [ Re.Grp 1 digits1; spaces0;
            Re.Grp 2 (Re.Alt (Re.lit "gb") (Re.lit "tb")) ].

(** A storage candidate: [(val, unit, token)]. *)
Definition candidate : Type := N * string * string.

(** The body of the loop over the storage matches. *)
Definition storage_step (title_lower : string)
    (st : idset * list candidate) (m : Re.found) : idset * list candidate :=
  let '(identifiers, storage_candidates) := st in
  let val := PyText.decimal (Re.group_of 1 title_lower m) in
  let unit := Re.group_of 2 title_lower m in
  let token := pretty val +:+ unit in
  let identifiers := identifiers ∪ {[ token ]} in
  let window :=
    PyText.slice (Re.m_start m - 12)
      (Nat.min (String.length title_lower) (Re.m_end m + 12)) title_lower in
  if PyText.contains "ram" window then
    (identifiers ∪ {[ "ram_" +:+ token ]}, storage_candidates)
  else if PyText.contains "rom" window || PyText.contains "storage" window then
    (identifiers ∪ {[ "storage_" +:+ token ]},
     storage_candidates ++ [(val, unit, token)])
  else (identifiers, storage_candidates ++ [(val, unit, token)]).

(** [v * 1024 if u == 'tb' else v] *)
Definition storage_size_value (v : N) (u : string) : N :=
  if String.eqb u "tb" then (v * 1024)%N else v.

(** [max(l, key=...)]: the first of the largest. *)
Definition max_candidate (c : candidate) (l : list candidate) : candidate :=
  fold_left
    (λ best x,
       if (storage_size_value best.1.1 best.1.2
           <? storage_size_value x.1.1 x.1.2)%N
       then x else best)
    l c.

Definition add_storage (title_lower : string) (identifiers : idset) : idset :=
  let '(identifiers, storage_candidates) :=
    fold_left (storage_step title_lower)
      (Re.finditer storage_pattern title_lower) (identifiers, []) in
  match storage_candidates with
  | c :: l =>
      if nonempty (with_prefix "storage_" identifiers) then identifiers
      else identifiers ∪ {[ "storage_" +:+ (max_candidate c l).2 ]}
  | [] => identifiers
  end.

Definition res_map : list (string * string) :=
  [ ("4k", "4k"); ("uhd", "4k"); ("ultra hd", "4k"); ("2160p", "4k");
    ("full hd", "fhd"); ("fhd", "fhd"); ("1080p", "fhd");
    ("hd ready", "hd"); ("720p", "hd") ].

Definition add_resolution : string → idset → idset := add_contained res_map.

Definition add_generic_hd (title_lower : string) (identifiers : idset) : idset :=
  if negb (bool_decide ("hd" ∈ identifiers))
     && Re.found_in (whole_word "hd") title_lower
  then
    if negb (bool_decide ("fhd" ∈ identifiers))
       && negb (bool_decide ("4k" ∈ identifiers))
    then identifiers ∪ {[ "hd" ]}
    else identifiers
  else identifiers.

Definition panels : list string := [ "qled"; "oled"; "led"; "lcd" ].

Definition add_panels : string → idset → idset :=
  add_contained ((λ p, (p, p)) <$> panels).

(** [(\d+)\s*(?:watt|w)\b] and [(\d+)\s*(?:jar|jars)\b] *)
Definition watt_pattern : Re.re :=
  Re.seqs [ Re.Grp 1 digits1; spaces0; Re.alts ["watt"; "w"]; Re.Wb ].
Definition jar_pattern : Re.re :=
  Re.seqs [ Re.Grp 1 digits1; spaces0; Re.alts ["jar"; "jars"]; Re.Wb ].

(** [m = re.search(r, title_lower); if m: identifiers.add(prefix + m.group(1))] *)
Definition add_group1 (prefix : string) (r : Re.re) (title_lower : string)
    (identifiers : idset) : idset :=
  match Re.search r title_lower with
  | Some m => identifiers ∪ {[ prefix +:+ Re.group_of 1 title_lower m ]}
  | None => identifiers
  end.

Definition appliance_models : list string :=
  [ "apex"; "iris"; "popular"; "deluxe"; "teon"; "nakshatra"; "omega";
    "manttra";
    "viva"; "daily"; "avance";
    "gx"; "twister"; "classic"; "bravo"; "platini";
    "jet"; "hero"; "matchless"; "desire"; "splendid";
    "zodiac"; "blue leaf"; "eco"; "peppy";
    "juicer"; "blender"; "chopper"; "grinder"; "mixer" ].

Definition colors : list string :=
  [ "black"; "white"; "silver"; "gold"; "blue"; "red"; "green"; "yellow";
    "pink"; "purple"; "orange"; "grey"; "gray"; "brown"; "multicolor" ].

Definition qty_patterns : list Re.re :=
  [ Re.seqs [Re.Wb; Re.lit "pack"; spaces0; Re.lit "of"; spaces0;
             Re.Grp 1 digits1; Re.Wb];
    Re.seqs [Re.Wb; Re.lit "set"; spaces0; Re.lit "of"; spaces0;
             Re.Grp 1 digits1; Re.Wb];
    Re.seqs [Re.Grp 1 digits1; spaces0;
             Re.alts ["kg"; "gram"; "gm"; "ml"; "ltr"; "litre"; "pounds"; "lbs"];
             Re.Wb];
    Re.seqs [Re.Grp 1 digits1; spaces0; Re.lit "piece"; Re.Opt (Re.Chr "s");
             Re.Wb] ].

(** [[\s/]+] *)
Definition token_separator : Re.re :=
  Re.Rep (λ c, PyStr.is_space c || Ascii.eqb c "/") 1 None.

(** The characters the tokens are stripped of: brackets, comma, full stop
    and both quotes. *)
Definition token_trim : list ascii :=
  [ "("; ")"; ","; "."; "["; "]"; dquote; "'" ]%char.

Definition model_stoplist : list string :=
  [ "pack"; "inch"; "with"; "from"; "best"; "india"; "500ml"; "gen1"; "gen2";
    "gen3" ].

(** The body of the loop over the tokens. *)
Definition model_step (identifiers : idset) (token : string) : idset :=
  let clean_token := PyText.strip_chars token_trim token in
  if (4 <=? String.length clean_token)%nat
     && PyText.any_char PyStr.is_digit clean_token
     && PyText.any_char PyText.is_alpha clean_token
  then
    let norm := PyText.keep_lower_alnum clean_token in
    if (4 <=? String.length norm)%nat && negb (PyText.in_list norm model_stoplist)
    then identifiers ∪ {[ "model_" +:+ norm ]}
    else identifiers
  else identifiers.

Definition add_model_numbers (title_lower : string) (identifiers : idset) : idset :=
  fold_left model_step (Re.split token_separator title_lower) identifiers.

Definition variant_names : list string :=
  [ "pro"; "max"; "plus"; "ultra"; "mini"; "air"; "lite"; "fe"; "promax";
    "v2"; "gen"; "generation" ].

Definition add_variants (title_lower : string) (identifiers : idset) : idset :=
  fold_left
    (λ ids variant,
       if Re.found_in (whole_word variant) title_lower then
         let ids := ids ∪ {[ variant ]} in
         if String.eqb variant "promax" then ids ∪ {[ "pro" ]} ∪ {[ "max" ]}
         else ids
       else ids)
    variant_names identifiers.

(** [\bA\s*B\b] *)
Definition two_words (a b : string) : Re.re :=
  Re.seqs [Re.Wb; Re.lit a; spaces0; Re.lit b; Re.Wb].

Definition series_patterns : list Re.re :=
  [ whole_word "fx"; two_words "x" "series"; two_words "a" "series";
    two_words "f" "series"; two_words "g" "series"; two_words "fire" "tv";
    two_words "google" "tv"; two_words "android" "tv"; whole_word "webos";
    whole_word "tizen"; two_words "macbook" "air"; two_words "macbook" "pro";
    whole_word "thinkpad"; whole_word "zenbook"; whole_word "vivobook";
    whole_word "rog"; whole_word "tuf"; whole_word "aliware";
    whole_word "inspiron"; whole_word "vostro"; whole_word "latitude";
    whole_word "xps"; whole_word "ideapad"; whole_word "legion";
    whole_word "yoga"; whole_word "pavilion"; whole_word "envy";
    whole_word "spectre"; whole_word "omen" ].

Definition model_patterns : list Re.re :=
  [ (* iphone\s*(\d+)(?:\s*(pro|plus|max))? *)
    Re.seqs [Re.lit "iphone"; spaces0; Re.Grp 1 digits1;
             Re.Opt (Re.Seq spaces0 (Re.Grp 2 (Re.alts ["pro"; "plus"; "max"])))];
    (* s(\d+)(?:\s*(ultra|plus|\+))? *)
    Re.seqs [Re.Chr "s"; Re.Grp 1 digits1;
             Re.Opt (Re.Seq spaces0 (Re.Grp 2 (Re.alts ["ultra"; "plus"; "+"])))];
    (* galaxy\s*(\w+) *)
    Re.seqs [Re.lit "galaxy"; spaces0; Re.Grp 1 word1];
    (* (\d+)\s*pro *)
    Re.seqs [Re.Grp 1 digits1; spaces0; Re.lit "pro"];
    (* nord\s*(\w+) *)
    Re.seqs [Re.lit "nord"; spaces0; Re.Grp 1 word1] ].

Definition extract_key_identifiers (title : string) : idset :=
  if String.eqb title "" then ∅
  else
    let title_lower := PyText.lower title in
    let identifiers : idset := ∅ in
    let identifiers := add_brands title_lower identifiers in
    let identifiers := add_size title_lower identifiers in
    let identifiers := add_storage title_lower identifiers in
    let identifiers := add_resolution title_lower identifiers in
    let identifiers := add_generic_hd title_lower identifiers in
    let identifiers := add_panels title_lower identifiers in
    let identifiers := add_group1 "watt_" watt_pattern title_lower identifiers in
    let identifiers := add_words "appmodel_" appliance_models title_lower identifiers in
    let identifiers := add_group1 "jars_" jar_pattern title_lower identifiers in
    let identifiers := add_words "color_" colors title_lower identifiers in
    let identifiers := add_matches "unit_" qty_patterns title_lower identifiers in
    let identifiers := add_model_numbers title_lower identifiers in
    let identifiers := add_variants title_lower identifiers in
    let identifiers := add_matches "series_" series_patterns title_lower identifiers in
    let identifiers := add_matches "" model_patterns title_lower identifiers in
    identifiers.

(** ** Title normalisation *)

Module PyWords.

Definition starts_word (s : string) : bool :=
  match s with
  | String c _ => negb (PyStr.is_space c)
  | EmptyString => false
  end.

(** [s.split()]: the maximal runs of characters that are not white space. *)
Fixpoint split (s : string) : list string :=
  match s with
  | EmptyString => []
  | String c r =>
      if PyStr.is_space c then split r
      else if starts_word r then
        match split r with
        | w :: ws => String c w :: ws
        | [] => [String c EmptyString]
        end
      else String c EmptyString :: split r
  end.

(** [' '.join(l)] *)
Fixpoint join (l : list string) : string :=
  match l with
  | [] => ""
  | [w] => w
  | w :: l' => w +:+ " " +:+ join l'
  end.

End PyWords.

Definition noise_words : list string :=
  [ "with"; "and"; "the"; "for"; "new"; "latest"; "mobile"; "phone";
    "smartphone"; "works"; "camera"; "control"; "chip"; "boost";
    "battery"; "life"; "display"; "5g"; "4g"; "lte"; "india" ].

(** [[w for w in words if w not in noise_words]] *)
Definition drop_noise (words : list string) : list string :=
  List.filter (λ w, negb (PyText.in_list w noise_words)) words.

Definition normalize_title (title : string) : string :=
  if String.eqb title "" then ""
  else PyWords.join (drop_noise (PyWords.split (PyText.lower title))).

(** The [words] entry of a listing's data:
    [set(normalize_title(title).split())]. *)
Definition title_words (title : string) : gset string :=
  list_to_set (PyWords.split (normalize_title title)).

(** ** Price texts

    A price text may hold any character, the rupee sign among them: it is
    a list of code points.  The builtin [float] is a parameter; it gives
    [None] where the builtin raises. *)

Module PyPrice.

Definition is_space (c : N) : bool :=
  ((9 <=? c) && (c <=? 13) || (28 <=? c) && (c <=? 32)
   || (c =? 133) || (c =? 160) || (c =? 5760)
   || (8192 <=? c) && (c <=? 8202)
   || (c =? 8232) || (c =? 8233) || (c =? 8239) || (c =? 8287)
   || (c =? 12288))%N.

Definition rupee : N := 8377.
Definition dollar : N := 36.
Definition comma : N := 44.
Definition full_stop : N := 46.

(** The class [[₹$,\s]]. *)
Definition dropped (c : N) : bool :=
  ((c =? rupee) || (c =? dollar) || (c =? comma))%N || is_space c.

(** [re.sub(r'[₹$,\s]', '', price_text)] *)
Definition cleaned (price_text : list N) : list N :=
  List.filter (λ c, negb (dropped c)) price_text.

(** [s.split('.')[0]] *)
Fixpoint before_full_stop (s : list N) : list N :=
  match s with
  | [] => []
  | c :: r => if (c =? full_stop)%N then [] else c :: before_full_stop r
  end.

End PyPrice.

Section ParsePrice.
Variable float_of : list N → option float.

Definition parse_price (price_text : list N) : option float :=
  match price_text with
  | [] => None
  | _ => float_of (PyPrice.before_full_stop (PyPrice.cleaned price_text))
  end.

End ParsePrice.

(** A title of ASCII characters only. *)
Definition is_ascii (s : string) : bool :=
  forallb (λ c, (nat_of_ascii c <? 128)%nat) (list_ascii_of_string s).

(** A plain title: ASCII characters only, and fewer than 4300 of them.
    (Recent interpreters refuse to convert a numeral of more digits than
    that with [int] and [str]; no title gets near.) *)
Definition plain_title (s : string) : bool :=
  is_ascii s && (String.length s <? 4300)%nat.

(** ** Properties of the text helpers *)

Lemma lower_char_idemp (c : ascii) :
  PyText.lower_char (PyText.lower_char c) = PyText.lower_char c.
Proof. by destruct c as [[] [] [] [] [] [] [] []]; vm_compute. Qed.

Lemma lower_idemp (s : string) : PyText.lower (PyText.lower s) = PyText.lower s.
Proof. induction s as [|c s IH]; cbn; [done|]. by rewrite lower_char_idemp, IH. Qed.

Lemma lower_empty (s : string) : PyText.lower s = "" ↔ s = "".
Proof. by destruct s. Qed.

Lemma is_space_lower_char (c : ascii) :
  PyStr.is_space (PyText.lower_char c) = PyStr.is_space c.
Proof. by destruct c as [[] [] [] [] [] [] [] []]; vm_compute. Qed.

Lemma append_cons (c : ascii) (s t : string) :
  String c s +:+ t = String c (s +:+ t).
Proof. reflexivity. Qed.

Lemma append_nil_r (s : string) : s +:+ "" = s.
Proof. induction s as [|c s IH]; [done|]. by rewrite append_cons, IH. Qed.

Lemma lower_app (s t : string) :
  PyText.lower (s +:+ t) = PyText.lower s +:+ PyText.lower t.
Proof.
  induction s as [|c s IH]; [done|].
  rewrite append_cons. cbn [PyText.lower]. by rewrite append_cons, IH.
Qed.

Lemma starts_word_lower (s : string) :
  PyWords.starts_word (PyText.lower s) = PyWords.starts_word s.
Proof. destruct s as [|c s]; cbn; [done|]. by rewrite is_space_lower_char. Qed.

Lemma split_lower (s : string) :
  PyWords.split (PyText.lower s) = PyText.lower <$> PyWords.split s.
Proof.
  induction s as [|c s IH]; [done|].
  change (PyText.lower (String c s)) with (String (PyText.lower_char c) (PyText.lower s)).
  cbn [PyWords.split]. rewrite is_space_lower_char, starts_word_lower, IH.
  destruct (PyStr.is_space c); [done|].
  destruct (PyWords.starts_word s); [|done].
  by destruct (PyWords.split s).
Qed.

Lemma join_lower (l : list string) :
  PyText.lower (PyWords.join l) = PyWords.join (PyText.lower <$> l).
Proof.
  induction l as [|w l IH]; [done|].
  destruct l as [|w' l]; [done|].
  change (PyWords.join (w :: w' :: l)) with (w +:+ " " +:+ PyWords.join (w' :: l)).
  rewrite !lower_app, IH. done.
Qed.

(** A word: not empty and free of white space. *)
Definition proper_word (w : string) : Prop :=
  w ≠ "" ∧ Forall (λ c, PyStr.is_space c = false) (list_ascii_of_string w).

Lemma split_word_then (w rest : string) :
  proper_word w → PyWords.starts_word rest = false →
  PyWords.split (w +:+ rest) = w :: PyWords.split rest.
Proof.
  intros [Hne Hw] Hrest. induction w as [|c w IH]; [done|].
  cbn in Hw. apply Forall_cons in Hw as [Hc Hw].
  change (String c w +:+ rest) with (String c (w +:+ rest)).
  cbn [PyWords.split]. rewrite Hc.
  destruct w as [|c' w].
  - change ("" +:+ rest) with rest. by rewrite Hrest.
  - assert (PyWords.starts_word (String c' w +:+ rest) = true) as ->.
    { rewrite append_cons. cbn [PyWords.starts_word].
      apply Forall_cons in Hw as [-> _]. done. }
    by rewrite IH.
Qed.

Lemma split_words (s : string) : Forall proper_word (PyWords.split s).
Proof.
  induction s as [|c s IH]; [constructor|].
  cbn [PyWords.split]. destruct (PyStr.is_space c) eqn:Hc; [done|].
  assert (proper_word (String c "")) as Hone.
  { split; [done|]. cbn. by repeat constructor. }
  destruct (PyWords.starts_word s).
  - destruct (PyWords.split s) as [|w ws]; [by repeat constructor|].
    apply Forall_cons in IH as [[_ Hw] Hws]. constructor; [|done].
    split; [done|]. cbn. by constructor.
  - by constructor.
Qed.

(** Splitting what [join] put together gives the words back. *)
Lemma split_join (ws : list string) :
  Forall proper_word ws → PyWords.split (PyWords.join ws) = ws.
Proof.
  induction 1 as [|w ws Hw Hws IH]; [done|].
  destruct ws as [|w' ws].
  - cbn [PyWords.join].
    rewrite <- (append_nil_r w) at 1. by rewrite split_word_then.
  - change (PyWords.join (w :: w' :: ws)) with (w +:+ " " +:+ PyWords.join (w' :: ws)).
    rewrite split_word_then by done.
    change (" " +:+ PyWords.join (w' :: ws)) with (String " " (PyWords.join (w' :: ws))).
    cbn [PyWords.split].
    change (PyStr.is_space " ") with true. cbv iota. by rewrite IH.
Qed.

Lemma drop_noise_words (ws : list string) :
  Forall proper_word ws → Forall proper_word (drop_noise ws).
Proof.
  unfold drop_noise. induction 1 as [|w ws Hw Hws IH]; [constructor|].
  cbn [List.filter]. destruct (negb _); [by constructor|done].
Qed.

Lemma drop_noise_idemp (ws : list string) :
  drop_noise (drop_noise ws) = drop_noise ws.
Proof.
  unfold drop_noise. induction ws as [|w ws IH]; [done|].
  cbn [List.filter]. destruct (negb _) eqn:Hw; [|done].
  cbn [List.filter]. by rewrite Hw, IH.
Qed.

Lemma drop_noise_lower (ws : list string) :
  Forall (λ w, PyText.lower w = w) ws →
  Forall (λ w, PyText.lower w = w) (drop_noise ws).
Proof.
  unfold drop_noise. induction 1 as [|w ws Hw Hws IH]; [constructor|].
  cbn [List.filter]. destruct (negb _); [by constructor|done].
Qed.

Lemma split_lower_fixed (s : string) :
  Forall (λ w, PyText.lower w = w) (PyWords.split (PyText.lower s)).
Proof.
  rewrite split_lower. apply Forall_fmap, Forall_true. intros w. apply lower_idemp.
Qed.

Lemma fmap_fixed {A} (f : A → A) (l : list A) :
  Forall (λ x, f x = x) l → f <$> l = l.
Proof. induction 1 as [|x l Hx _ IH]; [done|]. cbn. by rewrite Hx, IH. Qed.

Lemma split_normalize_title (t : string) :
  PyWords.split (normalize_title t)
  = drop_noise (PyWords.split (PyText.lower t)).
Proof.
  unfold normalize_title. destruct (String.eqb_spec t "") as [->|_]; [done|].
  apply split_join, drop_noise_words, split_words.
Qed.

Lemma not_in_noise (w : string) (ws : list string) :
  w ∈ drop_noise ws → w ∈ ws ∧ (w ∉ noise_words).
Proof.
  unfold drop_noise. intros Hw. apply list_elem_of_In, filter_In in Hw as [Hin Hn].
  split; [by apply list_elem_of_In|].
  intros Hx. apply negb_true_iff in Hn.
  assert (PyText.in_list w noise_words = true); [|congruence].
  apply existsb_exists. exists w. split; [by apply list_elem_of_In|].
  apply String.eqb_refl.
Qed.

Lemma lower_normalize_title (t : string) :
  PyText.lower (normalize_title t) = normalize_title t.
Proof.
  unfold normalize_title. destruct (String.eqb_spec t "") as [->|_]; [done|].
  rewrite join_lower. f_equal.
  apply fmap_fixed, drop_noise_lower, split_lower_fixed.
Qed.

Lemma normalize_title_idemp (t : string) :
  normalize_title (normalize_title t) = normalize_title t.
Proof.
  unfold normalize_title at 1.
  destruct (String.eqb_spec (normalize_title t) "") as [->|Hn]; [done|].
  rewrite lower_normalize_title, split_normalize_title, drop_noise_idemp.
  unfold normalize_title in *. by destruct (String.eqb_spec t "").
Qed.

Section ParsePriceProps.
Variable float_of : list N → option float.

Lemma cleaned_app (a b : list N) :
  PyPrice.cleaned (a ++ b) = PyPrice.cleaned a ++ PyPrice.cleaned b.
Proof. unfold PyPrice.cleaned. apply List.filter_app. Qed.

Lemma before_full_stop_app (a b : list N) :
  PyPrice.before_full_stop (a ++ PyPrice.full_stop :: b)
  = PyPrice.before_full_stop a.
Proof.
  induction a as [|c a IH]; cbn; [done|].
  destruct (c =? PyPrice.full_stop)%N; [done|]. by rewrite IH.
Qed.

Lemma parse_price_fraction (t u : list N) :
  t ≠ [] →
  parse_price float_of (t ++ PyPrice.full_stop :: u) = parse_price float_of t.
Proof.
  intros Ht. destruct t as [|c t]; [done|].
  unfold parse_price. change ((c :: t) ++ PyPrice.full_stop :: u) with (c :: (t ++ PyPrice.full_stop :: u)).
  cbv iota. f_equal.
  change (c :: (t ++ PyPrice.full_stop :: u)) with ((c :: t) ++ [PyPrice.full_stop] ++ u).
  rewrite !cleaned_app.
  change (PyPrice.cleaned [PyPrice.full_stop]) with [PyPrice.full_stop].
  apply before_full_stop_app.
Qed.

End ParsePriceProps.

(** ** What a match is

    [matches r pos rest cs pos' rest' cs']: the pattern [r] can take the
    text from position [pos], where [rest] remains and the groups are
    [cs], to position [pos'], where [rest'] remains and the groups are
    [cs'].  (Word boundaries are not recorded: they take no text.) *)

Fixpoint matches (r : Re.re) (pos : nat) (rest : list ascii) (cs : Re.caps)
    (pos' : nat) (rest' : list ascii) (cs' : Re.caps) : Prop :=
  match r with
  | Re.Eps | Re.Wb => pos' = pos ∧ rest' = rest ∧ cs' = cs
  | Re.Chr c => rest = c :: rest' ∧ pos' = S pos ∧ cs' = cs
  | Re.Any p => ∃ c, p c = true ∧ rest = c :: rest' ∧ pos' = S pos ∧ cs' = cs
  | Re.Rep p lo hi =>
      ∃ w, rest = w ++ rest' ∧ forallb p w = true ∧ (lo ≤ length w)%nat
           ∧ pos' = (pos + length w)%nat ∧ cs' = cs
  | Re.Seq r1 r2 =>
      ∃ p1 t1 c1, matches r1 pos rest cs p1 t1 c1
                  ∧ matches r2 p1 t1 c1 pos' rest' cs'
  | Re.Alt r1 r2 =>
      matches r1 pos rest cs pos' rest' cs'
      ∨ matches r2 pos rest cs pos' rest' cs'
  | Re.Opt r1 =>
      matches r1 pos rest cs pos' rest' cs'
      ∨ (pos' = pos ∧ rest' = rest ∧ cs' = cs)
  | Re.Grp n r1 =>
      ∃ c1, matches r1 pos rest cs pos' rest' c1 ∧ cs' = (n, (pos, pos')) :: c1
  end.

Section MatcherSound.
Context {R : Type}.

Lemma rep_sound (p : ascii → bool) (lo : nat) (hi : option nat)
    (rest : list ascii) :
  ∀ n pos prev cs (k : Re.cont R) x,
    Re.rep p lo hi n pos prev rest cs k = Some x →
    ∃ w prev' rest',
      rest = w ++ rest' ∧ forallb p w = true ∧ (lo ≤ n + length w)%nat
      ∧ k (pos + length w)%nat prev' rest' cs = Some x.
Proof.
  induction rest as [|c rest IH]; intros n pos prev cs k x Hx; cbn [Re.rep] in Hx.
  - destruct (lo <=? n)%nat eqn:Hlo; [|done]. apply Nat.leb_le in Hlo.
    exists [], prev, []. cbn. rewrite !Nat.add_0_r. split_and!; try done; lia.
  - assert ((if (lo <=? n)%nat then k pos prev (c :: rest) cs else None) = Some x →
            ∃ w prev' rest',
              c :: rest = w ++ rest' ∧ forallb p w = true ∧ (lo ≤ n + length w)%nat
              ∧ k (pos + length w)%nat prev' rest' cs = Some x) as Hstop.
    { intros Hk. destruct (lo <=? n)%nat eqn:Hlo; [|done]. apply Nat.leb_le in Hlo.
      exists [], prev, (c :: rest). cbn. rewrite !Nat.add_0_r. split_and!; try done; lia. }
    destruct (p c && _) eqn:Hpc; [|by apply Hstop].
    destruct (Re.rep p lo hi (S n) (S pos) (Some c) rest cs k) as [y|] eqn:Hrec;
      [|by apply Hstop].
    injection Hx as ->. apply andb_true_iff in Hpc as [Hpc _].
    apply IH in Hrec as (w & prev' & rest' & -> & Hw & Hlo & Hk).
    exists (c :: w), prev', rest'. cbn. rewrite Hpc, Hw.
    replace (pos + S (length w))%nat with (S pos + length w)%nat by lia.
    split_and!; try done; lia.
Qed.

Lemma mt_sound (r : Re.re) :
  ∀ pos prev rest cs (k : Re.cont R) x,
    Re.mt r pos prev rest cs k = Some x →
    ∃ pos' prev' rest' cs',
      matches r pos rest cs pos' rest' cs' ∧ k pos' prev' rest' cs' = Some x.
Proof.
  induction r as [|c|p|p lo hi|r1 IH1 r2 IH2|r1 IH1 r2 IH2|r1 IH1|n r1 IH1|];
    intros pos prev rest cs k x Hx; cbn [Re.mt] in Hx.
  - by exists pos, prev, rest, cs.
  - destruct rest as [|c' rest]; [done|].
    destruct (Ascii.eqb_spec c c') as [->|]; [|done].
    by exists (S pos), (Some c'), rest, cs.
  - destruct rest as [|c' rest]; [done|].
    destruct (p c') eqn:Hp; [|done].
    exists (S pos), (Some c'), rest, cs. split; [|done]. by exists c'.
  - apply rep_sound in Hx as (w & prev' & rest' & -> & Hw & Hlo & Hk).
    exists (pos + length w)%nat, prev', rest', cs. split; [|done].
    exists w. split_and!; try done; lia.
  - apply IH1 in Hx as (p1 & v1 & t1 & c1 & H1 & Hx).
    apply IH2 in Hx as (p2 & v2 & t2 & c2 & H2 & Hx).
    exists p2, v2, t2, c2. split; [|done]. by exists p1, t1, c1.
  - destruct (Re.mt r1 pos prev rest cs k) as [y|] eqn:H1.
    + injection Hx as ->. apply IH1 in H1 as (p1 & v1 & t1 & c1 & H1 & Hx).
      exists p1, v1, t1, c1. split; [by left|done].
    + apply IH2 in Hx as (p1 & v1 & t1 & c1 & H2 & Hx).
      exists p1, v1, t1, c1. split; [by right|done].
  - destruct (Re.mt r1 pos prev rest cs k) as [y|] eqn:H1.
    + injection Hx as ->. apply IH1 in H1 as (p1 & v1 & t1 & c1 & H1 & Hx).
      exists p1, v1, t1, c1. split; [by left|done].
    + exists pos, prev, rest, cs. split; [by right|done].
  - apply IH1 in Hx as (p1 & v1 & t1 & c1 & H1 & Hx).
    exists p1, v1, t1, ((n, (pos, p1)) :: c1). split; [|done]. by exists c1.
  - destruct (xorb _ _); [|done]. by exists pos, prev, rest, cs.
Qed.

End MatcherSound.

(** A match takes a piece of the text and moves the position by its
    length. *)
Lemma matches_span (r : Re.re) :
  ∀ pos rest cs pos' rest' cs',
    matches r pos rest cs pos' rest' cs' →
    ∃ w, rest = w ++ rest' ∧ pos' = (pos + length w)%nat.
Proof.
  induction r as [|c|p|p lo hi|r1 IH1 r2 IH2|r1 IH1 r2 IH2|r1 IH1|n r1 IH1|];
    intros pos rest cs pos' rest' cs' H; cbn [matches] in H.
  - destruct H as (-> & -> & _). exists []. cbn. split; [done|lia].
  - destruct H as (-> & -> & _). exists [c]. cbn. split; [done|lia].
  - destruct H as (c & _ & -> & -> & _). exists [c]. cbn. split; [done|lia].
  - destruct H as (w & -> & _ & _ & -> & _). by exists w.
  - destruct H as (p1 & t1 & c1 & H1 & H2).
    apply IH1 in H1 as (w1 & -> & ->). apply IH2 in H2 as (w2 & -> & ->).
    exists (w1 ++ w2). rewrite length_app, <- app_assoc. split; [done|lia].
  - destruct H as [H|H]; eauto.
  - destruct H as [H|(-> & -> & _)]; [eauto|]. exists []. cbn. split; [done|lia].
  - destruct H as (c1 & H & _). eauto.
  - destruct H as (-> & -> & _). exists []. cbn. split; [done|lia].
Qed.

(** [m] is a match of [r] in the text [l]. *)
Definition match_of (r : Re.re) (l : list ascii) (m : Re.found) : Prop :=
  (Re.m_start m ≤ length l)%nat
  ∧ ∃ rest', matches r (Re.m_start m) (drop (Re.m_start m) l) []
               (Re.m_end m) rest' (Re.m_caps m).

Lemma search_from_sound (r : Re.re) (l : list ascii) :
  ∀ pos prev m,
    (pos ≤ length l)%nat →
    Re.search_from r pos prev (drop pos l) = Some m →
    (pos ≤ Re.m_start m)%nat ∧ match_of r l m.
Proof.
  intros pos prev m Hpos. remember (length l - pos)%nat as d eqn:Hd.
  revert pos prev Hpos Hd. induction d as [|d IH]; intros pos prev Hpos Hd Hm.
  - rewrite drop_ge in Hm by lia. cbn [Re.search_from] in Hm.
    destruct (Re.mt r pos prev [] [] _) as [[e cs]|] eqn:Hmt; [|done].
    injection Hm as <-. split; [done|]. split; [done|].
      cbn [Re.m_start Re.m_end Re.m_caps].
    apply mt_sound in Hmt as (p' & v' & t' & c' & H & [= <- <-]).
    rewrite drop_ge by lia. by exists t'.
  - destruct (drop pos l) as [|c rest] eqn:Hdrop.
    { apply (f_equal length) in Hdrop. rewrite length_drop in Hdrop. cbn in Hdrop. lia. }
    cbn [Re.search_from] in Hm.
    destruct (Re.mt r pos prev (c :: rest) [] _) as [[e cs]|] eqn:Hmt.
    + injection Hm as <-. split; [done|]. split; [done|].
      cbn [Re.m_start Re.m_end Re.m_caps].
      apply mt_sound in Hmt as (p' & v' & t' & c' & H & [= <- <-]).
      rewrite Hdrop. by exists t'.
    + assert (rest = drop (S pos) l) as ->.
      { replace (S pos) with (pos + 1)%nat by lia. by rewrite <- drop_drop, Hdrop. }
      apply IH in Hm as [Hle Hm]; [|lia|lia]. split; [lia|done].
Qed.

Lemma search_sound (r : Re.re) (s : string) (m : Re.found) :
  Re.search r s = Some m → match_of r (list_ascii_of_string s) m.
Proof.
  unfold Re.search. intros Hm.
  apply (search_from_sound r (list_ascii_of_string s) 0 None m); [lia|done].
Qed.

Lemma match_of_span (r : Re.re) (l : list ascii) (m : Re.found) :
  match_of r l m →
  (Re.m_start m ≤ Re.m_end m)%nat ∧ (Re.m_end m ≤ length l)%nat.
Proof.
  intros [Hs (rest' & H)]. apply matches_span in H as (w & Hw & ->).
  apply (f_equal length) in Hw. rewrite length_drop, length_app in Hw. lia.
Qed.

Lemma finditer_from_sound (r : Re.re) (l : list ascii) (fuel : nat) :
  ∀ pos prev m,
    (pos ≤ length l)%nat →
    m ∈ Re.finditer_from fuel r pos prev (drop pos l) → match_of r l m.
Proof.
  induction fuel as [|fuel IH]; intros pos prev m Hpos Hm; cbn [Re.finditer_from] in Hm.
  { by apply elem_of_nil in Hm. }
  destruct (Re.search_from r pos prev (drop pos l)) as [m0|] eqn:Hs;
    [|by apply elem_of_nil in Hm].
  apply search_from_sound in Hs as [Hle H0]; [|done].
  apply elem_of_cons in Hm as [->|Hm]; [done|].
  destruct (match_of_span _ _ _ H0) as [Hse Hel].
  rewrite drop_drop in Hm.
  replace (pos + (Re.m_end m0 - pos))%nat with (Re.m_end m0) in Hm by lia.
  by apply IH in Hm.
Qed.

Lemma finditer_sound (r : Re.re) (s : string) (m : Re.found) :
  m ∈ Re.finditer r s → match_of r (list_ascii_of_string s) m.
Proof.
  unfold Re.finditer. intros Hm.
  apply (finditer_from_sound r (list_ascii_of_string s) (String.length s) 0 None m); [lia|done].
Qed.

(** Slices of a string, on its list of characters. *)
Lemma substring_list (s : string) :
  ∀ n k, String.substring n k s
         = string_of_list_ascii (take k (drop n (list_ascii_of_string s))).
Proof.
  induction s as [|c s IH]; intros [|n] [|k]; cbn; try done; by rewrite IH.
Qed.

Lemma slice_list (a b : nat) (s : string) :
  list_ascii_of_string (PyText.slice a b s)
  = take (b - a) (drop a (list_ascii_of_string s)).
Proof.
  unfold PyText.slice. by rewrite substring_list, list_ascii_of_string_of_list_ascii.
Qed.

(** The text of the pieces of a match. *)
Lemma slice_of_piece (s : string) (pos pos' : nat) (w rest' : list ascii) :
  drop pos (list_ascii_of_string s) = w ++ rest' →
  pos' = (pos + length w)%nat →
  list_ascii_of_string (PyText.slice pos pos' s) = w.
Proof.
  intros Hd ->. rewrite slice_list, Hd.
  replace (pos + length w - pos)%nat with (length w) by lia.
  by rewrite take_app_length.
Qed.

Lemma drop_piece (l : list ascii) (pos : nat) (w rest' : list ascii) :
  drop pos l = w ++ rest' → drop (pos + length w) l = rest'.
Proof.
  intros Hd. rewrite <- drop_drop, Hd. by rewrite drop_app_length.
Qed.

(** ** Strings as lists of characters *)

Lemma list_of_append (a b : string) :
  list_ascii_of_string (a +:+ b)
  = list_ascii_of_string a ++ list_ascii_of_string b.
Proof. induction a as [|c a IH]; [done|]. rewrite append_cons. cbn. by rewrite IH. Qed.

Lemma string_of_app (a b : list ascii) :
  string_of_list_ascii (a ++ b)
  = string_of_list_ascii a +:+ string_of_list_ascii b.
Proof. induction a as [|c a IH]; [done|]. cbn. by rewrite append_cons, IH. Qed.

Lemma string_of_list_eq (s : string) (l : list ascii) :
  list_ascii_of_string s = l → s = string_of_list_ascii l.
Proof. intros <-. by rewrite string_of_list_ascii_of_string. Qed.

Lemma append_assoc (a b c : string) : (a +:+ b) +:+ c = a +:+ (b +:+ c).
Proof. induction a as [|x a IH]; [done|]. by rewrite !append_cons, IH. Qed.

Lemma length_list_of_string (s : string) :
  length (list_ascii_of_string s) = String.length s.
Proof. induction s as [|c s IH]; [done|]. cbn. by rewrite IH. Qed.

Lemma string_prefix_cons (a b : ascii) (p s : string) :
  String.prefix (String a p) (String b s)
  = if ascii_dec a b then String.prefix p s else false.
Proof. reflexivity. Qed.

Lemma string_prefix_append (p y : string) : String.prefix p (p +:+ y) = true.
Proof.
  induction p as [|a p IH]; [by destruct y|].
  rewrite append_cons, string_prefix_cons. by destruct (ascii_dec a a).
Qed.

Lemma endswith_list (p s : string) :
  PyStr.endswith p s = true →
  ∃ a, list_ascii_of_string s = a ++ list_ascii_of_string p.
Proof.
  unfold PyStr.endswith. remember (String.length p) as k eqn:Hk. clear Hk.
  destruct (Nat.leb_spec k (String.length s)) as [Hle|]; [|done].
  intros Heq. apply String.eqb_eq in Heq. subst p.
  exists (take (String.length s - k) (list_ascii_of_string s)).
  rewrite substring_list, list_ascii_of_string_of_list_ascii.
  rewrite (take_ge (drop _ _) k); [by rewrite take_drop|].
  rewrite length_drop, length_list_of_string. lia.
Qed.

(** A string whose last character is not [h] does not end in [inch]. *)
Lemma endswith_inch_last (x : string) (a : list ascii) (c : ascii) :
  list_ascii_of_string x = a ++ [c] → c ≠ "h"%char →
  PyStr.endswith "inch" x = false.
Proof.
  intros Hx Hc. destruct (PyStr.endswith "inch" x) eqn:He; [|done].
  apply endswith_list in He as (b & Hb). rewrite Hx in Hb.
  change (list_ascii_of_string "inch") with (["i"; "n"; "c"]%char ++ ["h"%char]) in Hb.
  rewrite app_assoc in Hb. apply app_inj_tail in Hb as [_ ->]. done.
Qed.

(** ** Reading a tag as a number *)

Lemma lstrip_snoc (a : list ascii) (c : ascii) :
  PyStr.is_space c = false → PyStr.lstrip (a ++ [c]) = PyStr.lstrip a ++ [c].
Proof.
  intros Hc. induction a as [|x a IH]; cbn; [by rewrite Hc|].
  by destruct (PyStr.is_space x).
Qed.

Lemma strip_head (c : ascii) (l : list ascii) :
  PyStr.is_space c = false → ∃ l', PyStr.strip (c :: l) = c :: l'.
Proof.
  intros Hc. unfold PyStr.strip. cbn [PyStr.lstrip]. rewrite Hc.
  cbn [rev]. rewrite lstrip_snoc by done. rewrite rev_app_distr. cbn. eauto.
Qed.

(** [int] raises on a text that starts with a letter. *)
Lemma int_bad_head (c : ascii) (s : string) :
  PyText.is_alpha c = true → PyStr.int (String c s) = None.
Proof.
  intros Hc. unfold PyStr.int. cbn [list_ascii_of_string].
  destruct (strip_head c (list_ascii_of_string s)) as [l' ->].
  { by destruct c as [[] [] [] [] [] [] [] []]. }
  assert (PyStr.digits 0 false (c :: l') = None) as Hd.
  { cbn [PyStr.digits]. by destruct c as [[] [] [] [] [] [] [] []]. }
  by destruct c as [[] [] [] [] [] [] [] []].
Qed.

(** ** The texts a pattern takes *)

Fixpoint lang (r : Re.re) (w : list ascii) : Prop :=
  match r with
  | Re.Eps | Re.Wb => w = []
  | Re.Chr c => w = [c]
  | Re.Any p => ∃ c, p c = true ∧ w = [c]
  | Re.Rep p lo hi => forallb p w = true ∧ (lo ≤ length w)%nat
  | Re.Seq r1 r2 => ∃ w1 w2, w = w1 ++ w2 ∧ lang r1 w1 ∧ lang r2 w2
  | Re.Alt r1 r2 => lang r1 w ∨ lang r2 w
  | Re.Opt r1 => lang r1 w ∨ w = []
  | Re.Grp n r1 => lang r1 w
  end.

Lemma matches_lang (r : Re.re) :
  ∀ pos rest cs pos' rest' cs',
    matches r pos rest cs pos' rest' cs' →
    ∃ w, rest = w ++ rest' ∧ pos' = (pos + length w)%nat ∧ lang r w.
Proof.
  induction r as [|c|p|p lo hi|r1 IH1 r2 IH2|r1 IH1 r2 IH2|r1 IH1|n r1 IH1|];
    intros pos rest cs pos' rest' cs' H; cbn [matches] in H; cbn [lang].
  - destruct H as (-> & -> & _). exists []. cbn. split_and!; eauto; lia.
  - destruct H as (-> & -> & _). exists [c]. cbn. split_and!; eauto; lia.
  - destruct H as (c & Hc & -> & -> & _). exists [c]. cbn. split_and!; eauto; lia.
  - destruct H as (w & -> & Hw & Hlo & -> & _). by exists w.
  - destruct H as (p1 & t1 & c1 & H1 & H2).
    apply IH1 in H1 as (w1 & -> & -> & L1). apply IH2 in H2 as (w2 & -> & -> & L2).
    exists (w1 ++ w2). rewrite length_app, <- app_assoc. split_and!; eauto; lia.
  - destruct H as [H|H].
    + apply IH1 in H as (w & -> & -> & L). exists w. eauto.
    + apply IH2 in H as (w & -> & -> & L). exists w. eauto.
  - destruct H as [H|(-> & -> & _)].
    + apply IH1 in H as (w & -> & -> & L). exists w. eauto.
    + exists []. cbn. split_and!; eauto; lia.
  - destruct H as (c1 & H & _). eauto.
  - destruct H as (-> & -> & _). exists []. cbn. split_and!; eauto; lia.
Qed.

Lemma lang_lit (a : string) (w : list ascii) :
  lang (Re.lit a) w → w = list_ascii_of_string a.
Proof.
  revert w. induction a as [|c a IH]; intros w; cbn; [done|].
  intros (w1 & w2 & -> & -> & H2). by rewrite (IH _ H2).
Qed.

(** The text of a match found by [re.search]. *)
Lemma search_text (r : Re.re) (s : string) (m : Re.found) :
  Re.search r s = Some m →
  ∃ w, Re.group0 s m = string_of_list_ascii w ∧ lang r w.
Proof.
  intros Hm. apply search_sound in Hm as [_ (rest' & H)].
  apply matches_lang in H as (w & Hw & He & L). exists w. split; [|done].
  apply string_of_list_eq. unfold Re.group0. by eapply slice_of_piece.
Qed.

(** ** Removing blanks *)

Lemma remove_spaces_app (a b : string) :
  PyText.remove_spaces (a +:+ b)
  = PyText.remove_spaces a +:+ PyText.remove_spaces b.
Proof.
  induction a as [|c a IH]; [done|]. rewrite append_cons. cbn [PyText.remove_spaces].
  destruct (Ascii.eqb c " "); [done|]. by rewrite append_cons, IH.
Qed.

Lemma remove_spaces_digits (w : list ascii) :
  forallb PyStr.is_digit w = true →
  PyText.remove_spaces (string_of_list_ascii w) = string_of_list_ascii w.
Proof.
  induction w as [|c w IH]; [done|]. cbn [forallb]. intros [Hc Hw]%andb_true_iff.
  cbn [string_of_list_ascii PyText.remove_spaces].
  destruct (Ascii.eqb_spec c " ") as [->|_]; [done|]. by rewrite IH.
Qed.

Definition has_digit (s : string) : bool := PyText.any_char PyStr.is_digit s.

Lemma has_digit_app (a b : string) :
  has_digit (a +:+ b) = has_digit a || has_digit b.
Proof. unfold has_digit, PyText.any_char. by rewrite list_of_append, existsb_app. Qed.

(** ** Decimal numerals *)

Lemma pretty_N_char_digit (x : N) : PyStr.is_digit (pretty_N_char x) = true.
Proof. by destruct x as [|[[[[|p|]|[|p|]|]|[[|p|]|[|p|]|]|]|[[[|p|]|[|p|]|]|[[|p|]|[|p|]|]|]|]]. Qed.

Lemma pretty_N_go_digits (x : N) :
  ∀ s, ∃ d, pretty_N_go x s = string_of_list_ascii d +:+ s
            ∧ forallb PyStr.is_digit d = true
            ∧ ((0 < x)%N → d ≠ []).
Proof.
  induction (N.lt_wf_0 x) as [x _ IH]. intros s.
  destruct (decide (0 < x)%N) as [Hx|Hx].
  - rewrite pretty_N_go_step by done.
    destruct (IH (x `div` 10)%N) with (s := String (pretty_N_char (x `mod` 10)) s)
      as (d & -> & Hd & _).
    { by apply N.div_lt. }
    exists (d ++ [pretty_N_char (x `mod` 10)]). split_and!.
    + rewrite string_of_app, append_assoc. done.
    + rewrite forallb_app, Hd. cbn. by rewrite pretty_N_char_digit.
    + by destruct d.
  - assert (x = 0%N) as -> by lia. rewrite pretty_N_go_0. exists []. split_and!; [done|done|lia].
Qed.

(** [str(n)] is a non-empty string of digits. *)
Lemma pretty_N_digits (x : N) :
  ∃ c d, pretty x = String c (string_of_list_ascii d)
         ∧ forallb PyStr.is_digit (c :: d) = true.
Proof.
  unfold pretty, pretty_N. destruct (decide (x = 0%N)) as [->|Hx].
  - by exists "0"%char, [].
  - destruct (pretty_N_go_digits x "") as (d & -> & Hd & Hne).
    rewrite append_nil_r. destruct d as [|c d]; [by destruct Hne; [lia|]|].
    by exists c, d.
Qed.

(** ** Where the tags of a title come from *)

(** A loop that only adds to the set. *)
Lemma fold_left_adds {A} (step : idset → A → idset) (f : A → idset)
    (l : list A) :
  (∀ ids a, step ids a = ids ∪ f a) →
  ∀ ids x, x ∈ fold_left step l ids ↔ x ∈ ids ∨ ∃ a, a ∈ l ∧ x ∈ f a.
Proof.
  intros Hstep. induction l as [|a l IH]; intros ids x; cbn [fold_left].
  - split; [by left|]. intros [H|(a & Ha & _)]; [done|]. by apply elem_of_nil in Ha.
  - rewrite IH, Hstep, elem_of_union. split.
    + intros [[H|H]|(b & Hb & H)]; [by left| |].
      * right. exists a. split; [by left|done].
      * right. exists b. split; [by right|done].
    + intros [H|(b & Hb & H)]; [by left; left|].
      apply elem_of_cons in Hb as [->|Hb]; [by left; right|].
      right. by exists b.
Qed.

Lemma add_contained_spec (names : list (string * string)) (tl : string)
    (ids : idset) (x : string) :
  x ∈ add_contained names tl ids
  ↔ x ∈ ids ∨ ∃ n, n ∈ names ∧ PyText.contains n.1 tl = true ∧ x = n.2.
Proof.
  unfold add_contained.
  rewrite (fold_left_adds _
    (λ n : string * string, if PyText.contains n.1 tl then {[ n.2 ]} else ∅)).
  - split; (intros [H|(n & Hn & H)]; [by left|right; exists n]).
    + destruct (PyText.contains n.1 tl); [|by apply elem_of_empty in H].
      apply elem_of_singleton in H. done.
    + destruct H as [-> ->]. split; [done|]. by apply elem_of_singleton.
  - intros ids' n. destruct (PyText.contains n.1 tl); [done|]. by rewrite (right_id_L ∅ (∪)).
Qed.

Lemma add_words_spec (prefix : string) (names : list string) (tl : string)
    (ids : idset) (x : string) :
  x ∈ add_words prefix names tl ids
  ↔ x ∈ ids ∨ ∃ w, w ∈ names ∧ Re.found_in (whole_word w) tl = true
                   ∧ x = prefix +:+ w.
Proof.
  unfold add_words.
  rewrite (fold_left_adds _
    (λ w, if Re.found_in (whole_word w) tl then {[ prefix +:+ w ]} else ∅)).
  - split; (intros [H|(n & Hn & H)]; [by left|right; exists n]).
    + destruct (Re.found_in (whole_word n) tl); [|by apply elem_of_empty in H].
      apply elem_of_singleton in H. done.
    + destruct H as [-> ->]. split; [done|]. by apply elem_of_singleton.
  - intros ids' n. destruct (Re.found_in _ tl); [done|]. by rewrite (right_id_L ∅ (∪)).
Qed.

Lemma add_matches_spec (prefix : string) (patterns : list Re.re) (tl : string)
    (ids : idset) (x : string) :
  x ∈ add_matches prefix patterns tl ids
  ↔ x ∈ ids ∨ ∃ r m, r ∈ patterns ∧ Re.search r tl = Some m
                     ∧ x = prefix +:+ PyText.remove_spaces (Re.group0 tl m).
Proof.
  unfold add_matches.
  rewrite (fold_left_adds _
    (λ r, match Re.search r tl with
          | Some m => {[ prefix +:+ PyText.remove_spaces (Re.group0 tl m) ]}
          | None => ∅
          end)).
  - split; (intros [H|H]; [by left|right]).
    + destruct H as (r & Hr & H). destruct (Re.search r tl) as [m|] eqn:Hm;
        [|by apply elem_of_empty in H].
      apply elem_of_singleton in H. by exists r, m.
    + destruct H as (r & m & Hr & Hm & ->). exists r. split; [done|].
      rewrite Hm. by apply elem_of_singleton.
  - intros ids' r. destruct (Re.search r tl); [done|]. by rewrite (right_id_L ∅ (∪)).
Qed.

Lemma add_group1_spec (prefix : string) (r : Re.re) (tl : string) (ids : idset)
    (x : string) :
  x ∈ add_group1 prefix r tl ids
  ↔ x ∈ ids ∨ ∃ m, Re.search r tl = Some m ∧ x = prefix +:+ Re.group_of 1 tl m.
Proof.
  unfold add_group1. destruct (Re.search r tl) as [m|].
  - rewrite elem_of_union, elem_of_singleton. split; (intros [H|H]; [by left|right]).
    + by exists m.
    + by destruct H as (m' & [= <-] & ->).
  - split; [by left|]. by intros [H|(m & Hm & _)].
Qed.

Lemma add_size_spec (tl : string) (ids : idset) (x : string) :
  x ∈ add_size tl ids ↔ x ∈ ids ∨ x ∈ add_size tl ∅.
Proof.
  unfold add_size. destruct (Re.search size_pattern tl) as [m|].
  - destruct (PyText.contains _ _); rewrite !elem_of_union, elem_of_empty; tauto.
  - rewrite elem_of_empty. tauto.
Qed.

Lemma add_generic_hd_spec (tl : string) (ids : idset) (x : string) :
  (x ∈ ids → x ∈ add_generic_hd tl ids)
  ∧ (x ∈ add_generic_hd tl ids → x ∈ ids ∨ x = "hd").
Proof.
  unfold add_generic_hd.
  destruct (negb _ && Re.found_in _ _); [|tauto].
  destruct (negb _ && negb _); [|tauto].
  rewrite elem_of_union, elem_of_singleton. tauto.
Qed.

Lemma add_model_numbers_spec (tl : string) (ids : idset) (x : string) :
  (x ∈ ids → x ∈ add_model_numbers tl ids)
  ∧ (x ∈ add_model_numbers tl ids → x ∈ ids ∨ ∃ y, x = "model_" +:+ y).
Proof.
  unfold add_model_numbers.
  generalize (Re.split token_separator tl). intros tokens. revert ids.
  induction tokens as [|tok tokens IH]; intros ids; cbn [fold_left]; [tauto|].
  destruct (IH (model_step ids tok)) as [IH1 IH2].
  assert ((x ∈ ids → x ∈ model_step ids tok)
          ∧ (x ∈ model_step ids tok → x ∈ ids ∨ ∃ y, x = "model_" +:+ y)) as [H1 H2].
  { unfold model_step. destruct (_ && _ && _); [|tauto].
    destruct (_ && negb _); [|tauto].
    rewrite elem_of_union, elem_of_singleton. split; [tauto|].
    intros [H|H]; [by left|right; eauto]. }
  split; [auto|]. intros H. apply IH2 in H as [H|H]; auto.
Qed.

Lemma add_variants_spec (tl : string) (ids : idset) (x : string) :
  (x ∈ ids → x ∈ add_variants tl ids)
  ∧ (x ∈ add_variants tl ids → x ∈ ids ∨ x ∈ variant_names).
Proof.
  unfold add_variants.
  assert (∀ l : list string, (∀ v, v ∈ l → v ∈ variant_names) → ∀ ids : idset,
    (x ∈ ids → x ∈ fold_left
       (λ ids v, if Re.found_in (whole_word v) tl then
                   let ids := ids ∪ {[ v ]} in
                   if String.eqb v "promax" then ids ∪ {[ "pro" ]} ∪ {[ "max" ]}
                   else ids
                 else ids) l ids)
    ∧ (x ∈ fold_left
       (λ ids v, if Re.found_in (whole_word v) tl then
                   let ids := ids ∪ {[ v ]} in
                   if String.eqb v "promax" then ids ∪ {[ "pro" ]} ∪ {[ "max" ]}
                   else ids
                 else ids) l ids → x ∈ ids ∨ x ∈ variant_names)) as Hl.
  { induction l as [|v l IH]; intros Hsub ids'; cbn [fold_left]; [tauto|].
    assert (v ∈ variant_names) as Hv by (apply Hsub; by left).
    assert (∀ v', v' ∈ l → v' ∈ variant_names) as Hsub' by (intros; apply Hsub; by right).
    match goal with |- context [fold_left ?f l ?i] => destruct (IH Hsub' i) as [IH1 IH2] end.
    destruct (Re.found_in (whole_word v) tl); [|by split].
    cbv zeta in *. destruct (String.eqb v "promax").
    - split.
      + intros H. apply IH1. rewrite !elem_of_union. tauto.
      + intros H. apply IH2 in H as [H|H]; [|by right].
        rewrite !elem_of_union, !elem_of_singleton in H.
        destruct H as [[[H| ->]| ->]| ->]; [by left|by right| |]; right;
          unfold variant_names; rewrite !elem_of_cons; tauto.
    - split.
      + intros H. apply IH1. rewrite !elem_of_union. tauto.
      + intros H. apply IH2 in H as [H|H]; [|by right].
        rewrite !elem_of_union, !elem_of_singleton in H.
        destruct H as [H| ->]; [by left|by right]. }
  by apply Hl.
Qed.

(** ** The storage rule *)

(** The tag of a storage match, the text around it, the tags and the
    candidate it contributes. *)
Definition storage_token (tl : string) (m : Re.found) : string :=
  pretty (PyText.decimal (Re.group_of 1 tl m)) +:+ Re.group_of 2 tl m.

Definition storage_window (tl : string) (m : Re.found) : string :=
  PyText.slice (Re.m_start m - 12)
    (Nat.min (String.length tl) (Re.m_end m + 12)) tl.

Definition storage_tags (tl : string) (m : Re.found) : idset :=
  {[ storage_token tl m ]}
  ∪ (if PyText.contains "ram" (storage_window tl m) then
       {[ "ram_" +:+ storage_token tl m ]}
     else if PyText.contains "rom" (storage_window tl m)
             || PyText.contains "storage" (storage_window tl m) then
       {[ "storage_" +:+ storage_token tl m ]}
     else ∅).

Definition storage_cands (tl : string) (m : Re.found) : list candidate :=
  if PyText.contains "ram" (storage_window tl m) then []
  else [(PyText.decimal (Re.group_of 1 tl m), Re.group_of 2 tl m,
         storage_token tl m)].

Lemma storage_fold (tl : string) (ms : list Re.found) :
  ∀ ids cs,
    fold_left (storage_step tl) ms (ids, cs)
    = (fold_left (λ ids m, ids ∪ storage_tags tl m) ms ids,
       cs ++ flat_map (storage_cands tl) ms).
Proof.
  induction ms as [|m ms IH]; intros ids cs; cbn [fold_left flat_map].
  { by rewrite app_nil_r. }
  unfold storage_step at 2. fold (storage_window tl m). fold (storage_token tl m).
  unfold storage_tags at 2, storage_cands at 1.
  destruct (PyText.contains "ram" (storage_window tl m)).
  - by rewrite IH, (assoc_L (∪)).
  - destruct (PyText.contains "rom" _ || PyText.contains "storage" _).
    + by rewrite IH, <- app_assoc, (assoc_L (∪)).
    + by rewrite IH, <- app_assoc, (right_id_L ∅ (∪)).
Qed.

Lemma max_candidate_elem (c : candidate) (l : list candidate) :
  max_candidate c l ∈ c :: l.
Proof.
  unfold max_candidate. revert c. induction l as [|x l IH]; intros c; cbn [fold_left].
  - by left.
  - match goal with |- context [if ?b then _ else _] => destruct b end.
    + right. apply IH.
    + specialize (IH c). apply elem_of_cons in IH as [->|IH]; [by left|by right; right].
Qed.

Lemma storage_cands_token (tl : string) (ms : list Re.found) (c : candidate) :
  c ∈ flat_map (storage_cands tl) ms →
  ∃ m, m ∈ ms ∧ c.2 = storage_token tl m
       ∧ PyText.contains "ram" (storage_window tl m) = false.
Proof.
  intros Hc. apply list_elem_of_In, in_flat_map in Hc as (m & Hm & Hc).
  exists m. split; [by apply list_elem_of_In|].
  unfold storage_cands in Hc. destruct (PyText.contains "ram" _); [done|].
  destruct Hc as [<-|[]]. done.
Qed.

(** The tags the storage rule leaves in the set. *)
Lemma add_storage_spec (tl : string) (ids : idset) (x : string) :
  x ∈ add_storage tl ids →
  x ∈ ids
  ∨ ∃ m, m ∈ Re.finditer storage_pattern tl
         ∧ (x = storage_token tl m ∨ x = "ram_" +:+ storage_token tl m
            ∨ x = "storage_" +:+ storage_token tl m).
Proof.
  unfold add_storage. rewrite storage_fold. cbn [app].
  set (ms := Re.finditer storage_pattern tl).
  assert (x ∈ fold_left (λ ids m, ids ∪ storage_tags tl m) ms ids →
          x ∈ ids ∨ ∃ m, m ∈ ms
            ∧ (x = storage_token tl m ∨ x = "ram_" +:+ storage_token tl m
               ∨ x = "storage_" +:+ storage_token tl m)) as Hfold.
  { rewrite (fold_left_adds _ (storage_tags tl)) by done.
    intros [H|(m & Hm & H)]; [by left|]. right. exists m. split; [done|].
    unfold storage_tags in H. rewrite elem_of_union, elem_of_singleton in H.
    destruct H as [H|H]; [by left|].
    destruct (PyText.contains "ram" _).
    { apply elem_of_singleton in H. tauto. }
    destruct (_ || _); [|by apply elem_of_empty in H].
    apply elem_of_singleton in H. tauto. }
  destruct (flat_map (storage_cands tl) ms) as [|c l] eqn:Hcs; [done|].
  destruct (nonempty _); [done|].
  rewrite elem_of_union, elem_of_singleton. intros [H| ->]; [auto|].
  right. destruct (storage_cands_token tl ms (max_candidate c l)) as (m & Hm & -> & _).
  { rewrite Hcs. apply max_candidate_elem. }
  exists m. tauto.
Qed.

Lemma add_storage_keeps (tl : string) (ids : idset) (x : string) :
  (x ∈ ids ∨ ∃ m, m ∈ Re.finditer storage_pattern tl ∧ x = storage_token tl m) →
  x ∈ add_storage tl ids.
Proof.
  intros Hx. unfold add_storage. rewrite storage_fold. cbn [app].
  set (ms := Re.finditer storage_pattern tl).
  assert (x ∈ fold_left (λ ids m, ids ∪ storage_tags tl m) ms ids) as Hfold.
  { rewrite (fold_left_adds _ (storage_tags tl)) by done.
    destruct Hx as [H|(m & Hm & ->)]; [by left|]. right. exists m. split; [done|].
    unfold storage_tags. rewrite elem_of_union, elem_of_singleton. by left. }
  destruct (flat_map (storage_cands tl) ms) as [|c l]; [done|].
  destruct (nonempty _); [done|]. rewrite elem_of_union. by left.
Qed.


(** ** The shape of the tags *)

Lemma size_tag_shape (tl : string) (x : string) :
  x ∈ add_size tl ∅ → ∃ n : N, x = pretty n +:+ "inch".
Proof.
  unfold add_size. destruct (Re.search size_pattern tl) as [m|];
    [|by intros ?%elem_of_empty].
  destruct (PyText.contains _ _); rewrite elem_of_union, elem_of_singleton;
    (intros [H%elem_of_empty|H]; [done|eauto]).
Qed.

(** The unit of a storage match is [gb] or [tb]. *)
Lemma storage_unit (tl : string) (m : Re.found) :
  m ∈ Re.finditer storage_pattern tl →
  Re.group_of 2 tl m = "gb" ∨ Re.group_of 2 tl m = "tb".
Proof.
  intros Hm. apply finditer_sound in Hm as [Hs (rest' & H)].
  unfold storage_pattern, digits1, spaces0 in H. cbn [Re.seqs Re.lit matches] in H.
  destruct H as (p1 & t1 & c1 & (c1' & (w1 & Hd1 & _ & _ & -> & ->) & ->)
                 & p2 & t2 & c2 & (w2 & -> & _ & _ & -> & ->)
                 & c3 & Hunit & Hcaps).
  assert (drop (Re.m_start m + length w1 + length w2) (list_ascii_of_string tl) = t2) as Hd2.
  { apply drop_piece in Hd1. by apply drop_piece in Hd1. }
  unfold Re.group_of, Re.group. rewrite Hcaps. cbn [List.find fst snd Nat.eqb fmap option_fmap option_map default].
  destruct Hunit as [Hu|Hu];
    destruct Hu as (p3 & t3 & c4 & (-> & -> & ->) & p4 & t4 & c5 & (-> & -> & ->) & He & -> & _);
    [left|right]; rewrite He.
  - apply (string_of_list_eq _ ["g"; "b"]%char).
    apply (slice_of_piece tl _ _ ["g"; "b"]%char t4); [exact Hd2|cbn; lia].
  - apply (string_of_list_eq _ ["t"; "b"]%char).
    apply (slice_of_piece tl _ _ ["t"; "b"]%char t4); [exact Hd2|cbn; lia].
Qed.

Lemma storage_token_shape (tl : string) (m : Re.found) :
  m ∈ Re.finditer storage_pattern tl →
  ∃ (n : N) u, storage_token tl m = pretty n +:+ u ∧ (u = "gb" ∨ u = "tb").
Proof. intros Hm. unfold storage_token. eauto using storage_unit. Qed.

(** What the phone patterns give, blanks removed. *)
Inductive phone_tag : string → Prop :=
| phone_iphone y : has_digit y = true → phone_tag ("iphone" +:+ y)
| phone_s d y : PyStr.is_digit d = true → phone_tag (String "s" (String d y))
| phone_galaxy y : phone_tag ("galaxy" +:+ y)
| phone_pro d y : PyStr.is_digit d = true → phone_tag (String d y +:+ "pro")
| phone_nord y : phone_tag ("nord" +:+ y).

Lemma has_digit_digits (c : ascii) (d : list ascii) :
  forallb PyStr.is_digit (c :: d) = true →
  has_digit (string_of_list_ascii (c :: d)) = true.
Proof.
  cbn [forallb]. intros [Hc _]%andb_true_iff.
  unfold has_digit, PyText.any_char. rewrite list_ascii_of_string_of_list_ascii.
  cbn [existsb]. by rewrite Hc.
Qed.

Lemma phone_tag_shape (tl : string) (r : Re.re) (m : Re.found) :
  r ∈ model_patterns → Re.search r tl = Some m →
  phone_tag (PyText.remove_spaces (Re.group0 tl m)).
Proof.
  intros Hr Hm. apply search_text in Hm as (w & -> & L).
  unfold model_patterns in Hr.
  repeat (apply elem_of_cons in Hr as [->|Hr]); [| | | | |by apply elem_of_nil in Hr];
    unfold digits1, spaces0, word1 in L; cbn [Re.seqs Re.alts lang] in L.
  - destruct L as (w1 & w2 & -> & ->%lang_lit & (ws & w3 & -> & _ & dg & w4 & -> & [Hdg Hlen] & _)).
    rewrite !string_of_app, string_of_list_ascii_of_string, !remove_spaces_app.
    change (PyText.remove_spaces "iphone") with "iphone".
    apply phone_iphone. rewrite !has_digit_app, (remove_spaces_digits dg Hdg).
    destruct dg as [|c dg]; [cbn in Hlen; lia|].
    rewrite (has_digit_digits c dg Hdg). by rewrite orb_true_r.
  - destruct L as (w1 & w2 & -> & -> & dg & w4 & -> & [Hdg Hlen] & _).
    destruct dg as [|c dg]; [cbn in Hlen; lia|].
    cbn [app string_of_list_ascii PyText.remove_spaces].
    pose proof Hdg as Hc. cbn [forallb] in Hc. apply andb_true_iff in Hc as [Hc _].
    change (Ascii.eqb "s" " ") with false. cbv iota.
    destruct (Ascii.eqb_spec c " ") as [->|_]; [done|]. by apply phone_s.
  - destruct L as (w1 & w2 & -> & ->%lang_lit & _).
    rewrite !string_of_app, string_of_list_ascii_of_string, !remove_spaces_app.
    apply phone_galaxy.
  - destruct L as (dg & w2 & -> & [Hdg Hlen] & ws & w3 & -> & _ & ->%lang_lit).
    rewrite !string_of_app, string_of_list_ascii_of_string, !remove_spaces_app.
    rewrite (remove_spaces_digits dg Hdg).
    destruct dg as [|c dg]; [cbn in Hlen; lia|].
    pose proof Hdg as Hc. cbn [forallb] in Hc. apply andb_true_iff in Hc as [Hc _].
    change (PyText.remove_spaces "pro") with "pro".
    cbn [string_of_list_ascii]. rewrite append_cons, <- append_assoc, <- append_cons.
    by apply phone_pro.
  - destruct L as (w1 & w2 & -> & ->%lang_lit & _).
    rewrite !string_of_app, string_of_list_ascii_of_string, !remove_spaces_app.
    apply phone_nord.
Qed.

(** Tags taken as they are from a table, and the prefixes of the tags
    built from a match. *)
Definition table_tags : list string :=
  ["4k"; "fhd"; "hd"] ++ panels ++ variant_names.

Definition tag_prefixes : list string :=
  ["watt_"; "appmodel_"; "jars_"; "color_"; "unit_"; "model_"; "series_"].

(** Every tag of a title has one of these origins. *)
Inductive origin (tl : string) (x : string) : Prop :=
| origin_brand :
    x ∈ brand_names → PyText.contains x tl = true → origin tl x
| origin_size : x ∈ add_size tl ∅ → origin tl x
| origin_storage m :
    m ∈ Re.finditer storage_pattern tl →
    x = storage_token tl m ∨ x = "ram_" +:+ storage_token tl m
    ∨ x = "storage_" +:+ storage_token tl m →
    origin tl x
| origin_table : x ∈ table_tags → origin tl x
| origin_prefixed p y : p ∈ tag_prefixes → x = p +:+ y → origin tl x
| origin_phone : phone_tag x → origin tl x.

Ltac pick_elem :=
  apply list_elem_of_In; cbn [In app];
  repeat first [left; reflexivity | right].

Lemma add_brands_spec (tl : string) (ids : idset) (x : string) :
  x ∈ add_brands tl ids
  ↔ x ∈ ids ∨ (x ∈ brand_names ∧ PyText.contains x tl = true).
Proof.
  unfold add_brands. rewrite add_contained_spec. split.
  - intros [H|(n & Hn & Hc & ->)]; [by left|right].
    apply list_elem_of_fmap in Hn as (b & -> & Hb). done.
  - intros [H|[Hb Hc]]; [by left|right]. exists (x, x). split; [|done].
    apply list_elem_of_fmap. by exists x.
Qed.

Lemma add_panels_spec (tl : string) (ids : idset) (x : string) :
  x ∈ add_panels tl ids
  ↔ x ∈ ids ∨ (x ∈ panels ∧ PyText.contains x tl = true).
Proof.
  unfold add_panels. rewrite add_contained_spec. split.
  - intros [H|(n & Hn & Hc & ->)]; [by left|right].
    apply list_elem_of_fmap in Hn as (b & -> & Hb). done.
  - intros [H|[Hb Hc]]; [by left|right]. exists (x, x). split; [|done].
    apply list_elem_of_fmap. by exists x.
Qed.

Lemma add_resolution_spec (tl : string) (ids : idset) (x : string) :
  (x ∈ ids → x ∈ add_resolution tl ids)
  ∧ (x ∈ add_resolution tl ids → x ∈ ids ∨ x ∈ ["4k"; "fhd"; "hd"]).
Proof.
  unfold add_resolution. rewrite add_contained_spec. split; [by left|].
  intros [H|(n & Hn & _ & ->)]; [by left|right].
  unfold res_map in Hn.
  repeat (apply elem_of_cons in Hn as [->|Hn]);
    [pick_elem..|by apply elem_of_nil in Hn].
Qed.

Lemma extract_origin (t x : string) :
  x ∈ extract_key_identifiers t → t ≠ "" ∧ origin (PyText.lower t) x.
Proof.
  unfold extract_key_identifiers. destruct (String.eqb_spec t "") as [->|Ht].
  { intros H. destruct (not_elem_of_empty (C:=idset) x H). }
  set (tl := PyText.lower t). intros H. split; [exact Ht|].
  apply add_matches_spec in H as [H|(r & m & Hr & Hm & ->)].
  2:{ apply origin_phone. exact (phone_tag_shape tl r m Hr Hm). }
  apply add_matches_spec in H as [H|(r & m & Hr & Hm & ->)].
  2:{ eapply (origin_prefixed _ _ "series_"); [pick_elem|reflexivity]. }
  apply add_variants_spec in H as [H|H].
  2:{ apply origin_table. unfold table_tags. rewrite !elem_of_app. tauto. }
  apply add_model_numbers_spec in H as [H|(y & ->)].
  2:{ eapply (origin_prefixed _ _ "model_"); [pick_elem|reflexivity]. }
  apply add_matches_spec in H as [H|(r & m & Hr & Hm & ->)].
  2:{ eapply (origin_prefixed _ _ "unit_"); [pick_elem|reflexivity]. }
  apply add_words_spec in H as [H|(w & Hw & _ & ->)].
  2:{ eapply (origin_prefixed _ _ "color_"); [pick_elem|reflexivity]. }
  apply add_group1_spec in H as [H|(m & Hm & ->)].
  2:{ eapply (origin_prefixed _ _ "jars_"); [pick_elem|reflexivity]. }
  apply add_words_spec in H as [H|(w & Hw & _ & ->)].
  2:{ eapply (origin_prefixed _ _ "appmodel_"); [pick_elem|reflexivity]. }
  apply add_group1_spec in H as [H|(m & Hm & ->)].
  2:{ eapply (origin_prefixed _ _ "watt_"); [pick_elem|reflexivity]. }
  apply add_panels_spec in H as [H|[Hp _]].
  2:{ apply origin_table. unfold table_tags. rewrite !elem_of_app. tauto. }
  apply add_generic_hd_spec in H as [H| ->].
  2:{ apply origin_table. unfold table_tags. rewrite !elem_of_app. left. pick_elem. }
  apply add_resolution_spec in H as [H|H].
  2:{ apply origin_table. unfold table_tags. rewrite !elem_of_app. by left. }
  apply add_storage_spec in H as [H|(m & Hm & H)].
  2:{ exact (origin_storage tl x m Hm H). }
  apply add_size_spec in H as [H|H].
  2:{ exact (origin_size tl x H). }
  apply add_brands_spec in H as [H|[Hb Hc]].
  { destruct (not_elem_of_empty (C:=idset) x H). }
  exact (origin_brand tl x Hb Hc).
Qed.

(** What the rules up to the storage rule put in the set stays in it. *)
Lemma extract_keeps (t x : string) :
  t ≠ "" →
  x ∈ add_storage (PyText.lower t)
        (add_size (PyText.lower t) (add_brands (PyText.lower t) ∅)) →
  x ∈ extract_key_identifiers t.
Proof.
  intros Ht H. unfold extract_key_identifiers.
  destruct (String.eqb_spec t "") as [|_]; [done|].
  apply add_matches_spec; left. apply add_matches_spec; left.
  apply add_variants_spec. apply add_model_numbers_spec.
  apply add_matches_spec; left. apply add_words_spec; left.
  apply add_group1_spec; left. apply add_words_spec; left.
  apply add_group1_spec; left. apply add_panels_spec; left.
  apply add_generic_hd_spec. apply add_resolution_spec. done.
Qed.

(** ** Which tags read as a number *)

Lemma forallb_elem {A} (f : A → bool) (l : list A) (x : A) :
  forallb f l = true → x ∈ l → f x = true.
Proof. intros Hl Hx. by apply (proj1 (forallb_forall f l) Hl), list_elem_of_In. Qed.

Lemma quantity_not_inch (p : string) (n : N) (u : string) :
  u = "gb" ∨ u = "tb" → PyStr.endswith "inch" (p +:+ pretty n +:+ u) = false.
Proof.
  intros [-> | ->].
  - apply (endswith_inch_last _
             (list_ascii_of_string p ++ list_ascii_of_string (pretty n) ++ ["g"%char])
             "b"%char); [|done].
    by rewrite !list_of_append, <- !app_assoc.
  - apply (endswith_inch_last _
             (list_ascii_of_string p ++ list_ascii_of_string (pretty n) ++ ["t"%char])
             "b"%char); [|done].
    by rewrite !list_of_append, <- !app_assoc.
Qed.

(** Among the tags of a title that end in [inch], only the one of the
    size rule reads as a number. *)
Lemma readable_inch_is_size (tl x : string) :
  origin tl x → PyStr.endswith "inch" x = true →
  is_Some (PyStr.int (PyStr.remove_inch x)) → x ∈ add_size tl ∅.
Proof.
  intros [Hb _|H|m Hm H|Ht|p y Hp ->|Hph] Hinch [v Hv]; [| done | | | |].
  - assert (negb (PyStr.endswith "inch" x) = true) as Hn; [|by rewrite Hinch in Hn].
    by apply (forallb_elem (λ b, negb (PyStr.endswith "inch" b)) brand_names).
  - destruct (storage_token_shape tl m Hm) as (n & u & Htok & Hu).
    rewrite Htok in H.
    assert (PyStr.endswith "inch" x = false) as Hn; [|by rewrite Hinch in Hn].
    destruct H as [-> | [-> | ->]].
    + by apply (quantity_not_inch "" n u).
    + by apply (quantity_not_inch "ram_" n u).
    + by apply (quantity_not_inch "storage_" n u).
  - assert (negb (PyStr.endswith "inch" x) = true) as Hn; [|by rewrite Hinch in Hn].
    by apply (forallb_elem (λ b, negb (PyStr.endswith "inch" b)) table_tags).
  - unfold tag_prefixes in Hp.
    repeat (apply elem_of_cons in Hp as [-> | Hp]); [..|by apply elem_of_nil in Hp].
    + change (PyStr.remove_inch ("watt_" +:+ y)) with ("watt_" +:+ PyStr.remove_inch y) in Hv.
      by rewrite append_cons, int_bad_head in Hv.
    + change (PyStr.remove_inch ("appmodel_" +:+ y)) with ("appmodel_" +:+ PyStr.remove_inch y) in Hv.
      by rewrite append_cons, int_bad_head in Hv.
    + change (PyStr.remove_inch ("jars_" +:+ y)) with ("jars_" +:+ PyStr.remove_inch y) in Hv.
      by rewrite append_cons, int_bad_head in Hv.
    + change (PyStr.remove_inch ("color_" +:+ y)) with ("color_" +:+ PyStr.remove_inch y) in Hv.
      by rewrite append_cons, int_bad_head in Hv.
    + change (PyStr.remove_inch ("unit_" +:+ y)) with ("unit_" +:+ PyStr.remove_inch y) in Hv.
      by rewrite append_cons, int_bad_head in Hv.
    + change (PyStr.remove_inch ("model_" +:+ y)) with ("model_" +:+ PyStr.remove_inch y) in Hv.
      by rewrite append_cons, int_bad_head in Hv.
    + change (PyStr.remove_inch ("series_" +:+ y)) with ("series_" +:+ PyStr.remove_inch y) in Hv.
      by rewrite append_cons, int_bad_head in Hv.
  - destruct Hph as [y Hy|d y Hd|y|d y Hd|y].
    + change (PyStr.remove_inch ("iphone" +:+ y)) with ("iphone" +:+ PyStr.remove_inch y) in Hv.
      by rewrite append_cons, int_bad_head in Hv.
    + change (PyStr.remove_inch (String "s" (String d y)))
        with (String "s" (PyStr.remove_inch (String d y))) in Hv.
      by rewrite int_bad_head in Hv.
    + change (PyStr.remove_inch ("galaxy" +:+ y)) with ("galaxy" +:+ PyStr.remove_inch y) in Hv.
      by rewrite append_cons, int_bad_head in Hv.
    + assert (PyStr.endswith "inch" (String d y +:+ "pro") = false) as Hn;
        [|by rewrite Hinch in Hn].
      apply (endswith_inch_last _
               (list_ascii_of_string (String d y) ++ ["p"; "r"]%char) "o"%char); [|done].
      by rewrite list_of_append, <- app_assoc.
    + change (PyStr.remove_inch ("nord" +:+ y)) with ("nord" +:+ PyStr.remove_inch y) in Hv.
      by rewrite append_cons, int_bad_head in Hv.
Qed.

Lemma add_size_one (tl x y : string) :
  x ∈ add_size tl ∅ → y ∈ add_size tl ∅ → x = y.
Proof.
  unfold add_size. destruct (Re.search size_pattern tl) as [m|].
  - destruct (PyText.contains _ _); rewrite !elem_of_union, !elem_of_singleton;
      intros [H%elem_of_empty| ->] [H'%elem_of_empty| ->]; done.
  - by intros H%elem_of_empty.
Qed.

(** ** Tags that start like a storage or a memory tag *)

Lemma digit_not_prefix (p : string) (d : ascii) (y : string) :
  p = "ram_" ∨ p = "storage_" → PyStr.is_digit d = true →
  PyStr.startswith p (String d y) = false.
Proof.
  intros [-> | ->] Hd; unfold PyStr.startswith; rewrite string_prefix_cons;
    (destruct (ascii_dec _ d) as [<-|]; [done|done]).
Qed.

Lemma pretty_append_head (n : N) (s : string) :
  ∃ d y, pretty n +:+ s = String d y ∧ PyStr.is_digit d = true.
Proof.
  destruct (pretty_N_digits n) as (c & d & -> & Hd).
  cbn [forallb] in Hd. apply andb_true_iff in Hd as [Hc _].
  exists c, (string_of_list_ascii d +:+ s). by rewrite append_cons.
Qed.

Definition memory_prefix (x : string) : bool :=
  PyStr.startswith "ram_" x || PyStr.startswith "storage_" x.

Lemma memory_prefix_digit (d : ascii) (y : string) :
  PyStr.is_digit d = true → memory_prefix (String d y) = false.
Proof.
  intros Hd. unfold memory_prefix.
  rewrite (digit_not_prefix "ram_"), (digit_not_prefix "storage_"); auto.
Qed.

(** A tag that starts with [ram_] or [storage_] comes from the storage
    rule. *)
Lemma memory_tag_origin (tl x : string) :
  origin tl x → memory_prefix x = true →
  ∃ m, m ∈ Re.finditer storage_pattern tl
       ∧ (x = "ram_" +:+ storage_token tl m
          ∨ x = "storage_" +:+ storage_token tl m).
Proof.
  intros [Hb _|H|m Hm H|Ht|p y Hp ->|Hph] Hx.
  - assert (negb (memory_prefix x) = true) as Hn; [|by rewrite Hx in Hn].
    by apply (forallb_elem (λ b, negb (memory_prefix b)) brand_names).
  - apply size_tag_shape in H as (n & ->).
    destruct (pretty_append_head n "inch") as (d & y & Hy & Hd).
    by rewrite Hy, memory_prefix_digit in Hx.
  - destruct H as [-> | H]; [|by exists m].
    destruct (storage_token_shape tl m Hm) as (n & u & Htok & _).
    destruct (pretty_append_head n u) as (d & y & Hy & Hd).
    by rewrite Htok, Hy, memory_prefix_digit in Hx.
  - assert (negb (memory_prefix x) = true) as Hn; [|by rewrite Hx in Hn].
    by apply (forallb_elem (λ b, negb (memory_prefix b)) table_tags).
  - unfold tag_prefixes in Hp.
    repeat (apply elem_of_cons in Hp as [-> | Hp]); [done..|by apply elem_of_nil in Hp].
  - destruct Hph as [y Hy|d y Hd|y|d y Hd|y]; [done| |done| |done].
    + unfold memory_prefix, PyStr.startswith in Hx. rewrite !string_prefix_cons in Hx.
      destruct (ascii_dec "r" "s"); [done|]. destruct (ascii_dec "s" "s"); [|done].
      destruct (ascii_dec "t" d) as [<-|]; done.
    + by rewrite append_cons, memory_prefix_digit in Hx.
Qed.






(** ** Brand tags *)

Definition brand_like (b : string) : bool :=
  negb (has_digit b)
  && negb (PyText.in_list b table_tags)
  && forallb (λ p, negb (String.prefix p b))
       (tag_prefixes ++ ["ram_"; "storage_"; "galaxy"; "nord"]).

Lemma has_digit_pretty (n : N) (s : string) : has_digit (pretty n +:+ s) = true.
Proof.
  destruct (pretty_N_digits n) as (c & d & -> & Hd).
  rewrite has_digit_app. change (String c (string_of_list_ascii d))
    with (string_of_list_ascii (c :: d)). by rewrite has_digit_digits.
Qed.

Lemma has_digit_cons (d : ascii) (y : string) :
  PyStr.is_digit d = true → has_digit (String d y) = true.
Proof. intros Hd. unfold has_digit, PyText.any_char. cbn. by rewrite Hd. Qed.

Lemma brand_origin (tl x : string) :
  origin tl x → x ∈ brand_names → PyText.contains x tl = true.
Proof.
  intros Ho Hb.
  pose proof (forallb_elem brand_like brand_names x eq_refl Hb) as Hl.
  unfold brand_like in Hl. apply andb_true_iff in Hl as [Hl Hpre].
  apply andb_true_iff in Hl as [Hdig Htab]. apply negb_true_iff in Hdig, Htab.
  assert (∀ p y, p ∈ tag_prefixes ++ ["ram_"; "storage_"; "galaxy"; "nord"] →
                 x ≠ p +:+ y) as Hnp.
  { intros p y Hp ->. apply (forallb_elem _ _ p Hpre) in Hp.
    by rewrite string_prefix_append in Hp. }
  destruct Ho as [_ Hc|H|m Hm H|Ht|p y Hp ->|Hph]; [done|exfalso..].
  - apply size_tag_shape in H as (n & ->). by rewrite has_digit_pretty in Hdig.
  - destruct (storage_token_shape tl m Hm) as (n & u & Htok & _). rewrite Htok in H.
    destruct H as [-> | [-> | ->]].
    + by rewrite has_digit_pretty in Hdig.
    + apply (Hnp "ram_" (pretty n +:+ u)); [|done]. rewrite elem_of_app. right. pick_elem.
    + apply (Hnp "storage_" (pretty n +:+ u)); [|done]. rewrite elem_of_app. right. pick_elem.
  - assert (PyText.in_list x table_tags = true); [|congruence].
    apply existsb_exists. exists x. split; [by apply list_elem_of_In|apply String.eqb_refl].
  - apply (Hnp p y); [|done]. rewrite elem_of_app. by left.
  - destruct Hph as [y Hy|d y Hd|y|d y Hd|y].
    + rewrite has_digit_app, Hy, orb_true_r in Hdig. done.
    + unfold has_digit, PyText.any_char in Hdig. cbn in Hdig.
      rewrite Hd in Hdig. cbn in Hdig. done.
    + apply (Hnp "galaxy" y); [|done]. rewrite elem_of_app. right. pick_elem.
    + rewrite has_digit_app, (has_digit_cons d y Hd) in Hdig. done.
    + apply (Hnp "nord" y); [|done]. rewrite elem_of_app. right. pick_elem.
Qed.

(** ** Reading a numeral back *)

(** The number a list of digits stands for. *)
Definition digits_value (acc : Z) (l : list ascii) : Z :=
  fold_left (λ a c, (a * 10 + PyStr.digit_val c)%Z) l acc.

Lemma digits_all (l : list ascii) :
  ∀ acc seen, forallb PyStr.is_digit l = true → l ≠ [] ∨ seen = true →
              PyStr.digits acc seen l = Some (digits_value acc l).
Proof.
  induction l as [|c l IH]; intros acc seen Hl Hne; cbn [PyStr.digits].
  - destruct Hne as [Hne|Hne]; [done|by rewrite Hne].
  - cbn [forallb] in Hl. apply andb_true_iff in Hl as [Hc Hl].
    rewrite Hc. apply IH; [done|by right].
Qed.

Lemma lstrip_head (c : ascii) (l : list ascii) :
  PyStr.is_space c = false → PyStr.lstrip (c :: l) = c :: l.
Proof. intros Hc. cbn [PyStr.lstrip]. by rewrite Hc. Qed.

Lemma digit_not_space (c : ascii) :
  PyStr.is_digit c = true → PyStr.is_space c = false.
Proof. by destruct c as [[] [] [] [] [] [] [] []]. Qed.

Lemma strip_digits (l : list ascii) :
  forallb PyStr.is_digit l = true → PyStr.strip l = l.
Proof.
  intros Hl. unfold PyStr.strip.
  assert (∀ k, forallb PyStr.is_digit k = true → PyStr.lstrip k = k) as Hk.
  { intros [|c k] H; [done|]. cbn [forallb] in H. apply andb_true_iff in H as [Hc _].
    by apply lstrip_head, digit_not_space. }
  rewrite (Hk l Hl), Hk; [apply rev_involutive|].
  apply forallb_forall. intros c Hc. apply in_rev in Hc.
  by apply (proj1 (forallb_forall _ _) Hl).
Qed.

Lemma int_digits (c : ascii) (d : list ascii) :
  forallb PyStr.is_digit (c :: d) = true →
  PyStr.int (string_of_list_ascii (c :: d)) = Some (digits_value 0 (c :: d)).
Proof.
  intros Hd. unfold PyStr.int.
  rewrite list_ascii_of_string_of_list_ascii, strip_digits by done.
  rewrite <- (digits_all (c :: d) 0 false Hd) by (by left).
  cbn [forallb] in Hd. apply andb_true_iff in Hd as [Hc _].
  by destruct c as [[] [] [] [] [] [] [] []].
Qed.

Lemma remove_inch_digit (c : ascii) (s : string) :
  PyStr.is_digit c = true →
  PyStr.remove_inch (String c s) = String c (PyStr.remove_inch s).
Proof. by destruct c as [[] [] [] [] [] [] [] []]. Qed.

Lemma remove_inch_digits (d : list ascii) :
  forallb PyStr.is_digit d = true →
  PyStr.remove_inch (string_of_list_ascii d +:+ "inch") = string_of_list_ascii d.
Proof.
  induction d as [|c d IH]; [done|]. cbn [forallb]. intros [Hc Hd]%andb_true_iff.
  cbn [string_of_list_ascii]. rewrite append_cons, remove_inch_digit by done.
  by rewrite IH.
Qed.

Lemma digit_val_pretty (k : N) :
  (k < 10)%N → PyStr.digit_val (pretty_N_char k) = Z.of_N k.
Proof.
  intros Hk.
  destruct k as [|[[[[|p|]|[|p|]|]|[[|p|]|[|p|]|]|]|[[[|p|]|[|p|]|]|[[|p|]|[|p|]|]|]|]];
    try done; lia.
Qed.

Lemma digits_value_snoc (acc : Z) (l : list ascii) (c : ascii) :
  digits_value acc (l ++ [c]) = (digits_value acc l * 10 + PyStr.digit_val c)%Z.
Proof. unfold digits_value. by rewrite fold_left_app. Qed.

Lemma pretty_N_go_value (x : N) :
  ∀ s, ∃ d, pretty_N_go x s = string_of_list_ascii d +:+ s
            ∧ forallb PyStr.is_digit d = true
            ∧ digits_value 0 d = Z.of_N x
            ∧ ((0 < x)%N → d ≠ []).
Proof.
  induction (N.lt_wf_0 x) as [x _ IH]. intros s.
  destruct (decide (0 < x)%N) as [Hx|Hx].
  - rewrite pretty_N_go_step by done.
    destruct (IH (x `div` 10)%N) with (s := String (pretty_N_char (x `mod` 10)) s)
      as (d & -> & Hd & Hv & _).
    { by apply N.div_lt. }
    exists (d ++ [pretty_N_char (x `mod` 10)]). split_and!.
    + rewrite string_of_app, append_assoc. done.
    + rewrite forallb_app, Hd. cbn. by rewrite pretty_N_char_digit.
    + rewrite digits_value_snoc, Hv, digit_val_pretty by (by apply N.mod_lt).
      pose proof (N.div_mod x 10). lia.
    + by destruct d.
  - assert (x = 0%N) as -> by lia. rewrite pretty_N_go_0. exists [].
    split_and!; [done|done|done|lia].
Qed.

(** [int(str(n) + 'inch'.replace('inch', ''))] is [n]. *)
Lemma int_remove_inch_pretty (n : N) :
  PyStr.int (PyStr.remove_inch (pretty n +:+ "inch")) = Some (Z.of_N n).
Proof.
  assert (∃ c d, pretty n = string_of_list_ascii (c :: d)
                 ∧ forallb PyStr.is_digit (c :: d) = true
                 ∧ digits_value 0 (c :: d) = Z.of_N n) as (c & d & -> & Hd & Hv).
  { unfold pretty, pretty_N. destruct (decide (n = 0%N)) as [->|Hn].
    - by exists "0"%char, [].
    - destruct (pretty_N_go_value n "") as (d & -> & Hd & Hv & Hne).
      rewrite append_nil_r. destruct d as [|c d]; [by destruct Hne; [lia|]|].
      by exists c, d. }
  by rewrite remove_inch_digits, int_digits, Hv.
Qed.

(** ** The extractor on the sample titles *)

Example extract_sample_titles :
  Forall (λ t, extract_key_identifiers t = sample_identifiers t)
    [ "Samsung Galaxy S21 128GB Black";
      "Samsung Galaxy S21 128GB Phantom Black";
      "Samsung Galaxy S21 256GB Black";
      "XYZ TV 43 inch 4K"; "XYZ TV 55 inch 4K";
      "Samsung 32inch TV"; "LG 32inch TV" ]
  ∧ extract_key_identifiers "Tablet 8inch display" = {[ "model_8inch" ]}.
Proof.
  split; [repeat constructor|]; apply (bool_decide_unpack _); vm_compute; exact I.
Qed.

Example extract_more_titles :
  extract_key_identifiers "Redmi Note 13 Pro 5G (8GB RAM, 256GB Storage) 108cm"
  = {[ "redmi"; "mi"; "43inch"; "8gb"; "ram_8gb"; "256gb"; "ram_256gb";
       "model_256gb"; "model_108cm"; "pro"; "13pro" ]}
  ∧ extract_key_identifiers
      "Mi 80 cm (32 inches) HD Ready Smart Android TV 4A PRO | L32M5-AL (Black)"
    = {[ "mi"; "32inch"; "hd"; "color_black"; "model_l32m5al"; "pro";
         "series_androidtv" ]}
  ∧ extract_key_identifiers
      "Prestige Iris 750 Watt Mixer Grinder with 3 Stainless Steel Jar, White"
    = {[ "prestige"; "mi"; "watt_750"; "appmodel_iris"; "appmodel_mixer";
         "appmodel_grinder"; "color_white" ]}.
Proof.
  split_and!; apply (bool_decide_unpack _); vm_compute; exact I.
Qed.

(** With the extractor in place of the table, the sample run gives the
    same catalogue. *)
Example sample_run_extracted :
  match_products order_fwd extract_key_identifiers sample_cos
    sample_amazon sample_flipkart
  = Ok sample_result.
Proof. vm_compute. reflexivity. Qed.

(** ** Properties of the extractor *)

(** X11.  Identifiers do not depend on letter case: two titles with the
    same lower-case form get the same identifier set. *)
Theorem identifiers_ignore_case (t u : string) :
  plain_title t = true → plain_title u = true →
  PyText.lower t = PyText.lower u →
  extract_key_identifiers t = extract_key_identifiers u.
Proof.
  intros _ _ Hl. unfold extract_key_identifiers.
  destruct (String.eqb_spec t "") as [->|Ht]; destruct (String.eqb_spec u "") as [->|Hu].
  - done.
  - change (PyText.lower "") with "" in Hl. symmetry in Hl.
    apply (proj1 (lower_empty _)) in Hl. congruence.
  - change (PyText.lower "") with "" in Hl. apply (proj1 (lower_empty _)) in Hl. congruence.
  - by rewrite Hl.
Qed.

Lemma identifiers_ignore_case_witness :
  extract_key_identifiers "SAMSUNG 32Inch tv"
  = extract_key_identifiers "Samsung 32inch TV".
Proof.
  apply identifiers_ignore_case; vm_compute; reflexivity.
Defined.

(** X12.  Among the identifiers of a title that end in [inch], the ones
    the size rule can read as a number are the decimal numerals followed
    by [inch], which read back as that numeral; a title has at most one of
    them, and on every other one [int] raises. *)
Theorem one_readable_inch_tag (t x : string) :
  plain_title t = true →
  x ∈ sizes_of (extract_key_identifiers t) →
  (is_Some (PyStr.int (PyStr.remove_inch x))
   ↔ ∃ n : N, x = pretty n +:+ "inch"
              ∧ PyStr.int (PyStr.remove_inch x) = Some (Z.of_N n))
  ∧ (is_Some (PyStr.int (PyStr.remove_inch x)) →
     ∀ y, y ∈ sizes_of (extract_key_identifiers t) →
          is_Some (PyStr.int (PyStr.remove_inch y)) → y = x).
Proof.
  intros _ Hx. unfold sizes_of in Hx. apply elem_of_filter in Hx as [Hix Hx].
  apply extract_origin in Hx as [_ Hx]. split.
  - split.
    + intros Hrx. pose proof (readable_inch_is_size _ _ Hx Hix Hrx) as Hsx.
      apply size_tag_shape in Hsx as (n & ->). exists n. split; [done|].
      apply int_remove_inch_pretty.
    + intros (n & _ & ->). by eexists.
  - intros Hrx y Hy Hry. unfold sizes_of in Hy.
    apply elem_of_filter in Hy as [Hiy Hy]. apply extract_origin in Hy as [_ Hy].
    apply (add_size_one (PyText.lower t)); by apply readable_inch_is_size.
Qed.

Lemma one_readable_inch_tag_witness :
  (is_Some (PyStr.int (PyStr.remove_inch "32inch"))
   ↔ ∃ n : N, "32inch" = pretty n +:+ "inch"
              ∧ PyStr.int (PyStr.remove_inch "32inch") = Some (Z.of_N n))
  ∧ (is_Some (PyStr.int (PyStr.remove_inch "32inch")) →
     ∀ y, y ∈ sizes_of (extract_key_identifiers "Samsung 32inch TV") →
          is_Some (PyStr.int (PyStr.remove_inch y)) → y = "32inch").
Proof.
  apply (one_readable_inch_tag "Samsung 32inch TV" "32inch").
  - vm_compute. reflexivity.
  - apply (bool_decide_unpack _). vm_compute. exact I.
Defined.

(** X13.  A tag that starts with [ram_] or [storage_] is that prefix
    followed by a quantity, a decimal numeral and [gb] or [tb], and the
    bare quantity is a tag of the title as well. *)
Theorem memory_tags_name_quantities (t x : string) :
  plain_title t = true →
  x ∈ extract_key_identifiers t →
  PyStr.startswith "ram_" x = true ∨ PyStr.startswith "storage_" x = true →
  ∃ (n : N) (u : string),
    (u = "gb" ∨ u = "tb")
    ∧ (x = "ram_" +:+ pretty n +:+ u ∨ x = "storage_" +:+ pretty n +:+ u)
    ∧ pretty n +:+ u ∈ extract_key_identifiers t.
Proof.
  intros _ Hx Hp. apply extract_origin in Hx as [Ht Hx].
  destruct (memory_tag_origin _ _ Hx) as (m & Hm & Hxm).
  { unfold memory_prefix. by destruct Hp as [-> | ->]; [|rewrite orb_true_r]. }
  destruct (storage_token_shape _ m Hm) as (n & u & Htok & Hu).
  exists n, u. rewrite <- Htok. split_and!; [done|done|].
  apply extract_keeps; [done|]. apply add_storage_keeps. right. by exists m.
Qed.

Lemma memory_tags_name_quantities_witness :
  ∃ (n : N) (u : string),
    (u = "gb" ∨ u = "tb")
    ∧ ("storage_128gb" = "ram_" +:+ pretty n +:+ u
       ∨ "storage_128gb" = "storage_" +:+ pretty n +:+ u)
    ∧ pretty n +:+ u ∈ extract_key_identifiers "Samsung Galaxy S21 128GB Black".
Proof.
  apply (memory_tags_name_quantities "Samsung Galaxy S21 128GB Black" "storage_128gb").
  - vm_compute. reflexivity.
  - apply (bool_decide_unpack _). vm_compute. exact I.
  - right. vm_compute. reflexivity.
Defined.



(** X15.  The brand tags of a title are exactly the listed brand names
    that occur in its lower-case form, anywhere, also inside a word: no
    other rule produces a brand name. *)
Theorem brand_tags_are_substrings (t b : string) :
  plain_title t = true →
  b ∈ brand_names →
  b ∈ extract_key_identifiers t ↔ PyText.contains b (PyText.lower t) = true.
Proof.
  intros _ Hb. split.
  - intros Hx. apply extract_origin in Hx as [_ Hx]. by apply brand_origin.
  - intros Hc. destruct (String.eqb_spec t "") as [->|Ht].
    { change (PyText.lower "") with "" in Hc.
      assert (negb (PyText.contains b "") = true) as Hn; [|by rewrite Hc in Hn].
      by apply (forallb_elem (λ b, negb (PyText.contains b "")) brand_names). }
    apply extract_keeps; [done|]. apply add_storage_keeps. left.
    apply add_size_spec. left. apply add_brands_spec. by right.
Qed.

Lemma brand_tags_are_substrings_witness :
  "mi" ∈ extract_key_identifiers "Prestige Mixer Grinder"
  ↔ PyText.contains "mi" (PyText.lower "Prestige Mixer Grinder") = true.
Proof.
  apply brand_tags_are_substrings.
  - vm_compute. reflexivity.
  - apply (bool_decide_unpack _). vm_compute. exact I.
Defined.

(** ** The size rule on extracted tags *)







(** ** Properties of the normalisation *)

(** X17.  The words of a normalised title are the words of the lower-case
    title, in their order, without the noise words; normalising twice
    changes nothing. *)
Theorem normalize_title_words (t : string) :
  is_ascii t = true →
  PyWords.split (normalize_title t) = drop_noise (PyWords.split (PyText.lower t))
  ∧ (∀ w, w ∈ title_words t →
          (w ∉ noise_words) ∧ w ∈ PyWords.split (PyText.lower t))
  ∧ normalize_title (normalize_title t) = normalize_title t.
Proof.
  intros _. split; [apply split_normalize_title|]. split.
  - intros w Hw. unfold title_words in Hw. apply elem_of_list_to_set in Hw.
    rewrite split_normalize_title in Hw. apply not_in_noise in Hw. tauto.
  - apply normalize_title_idemp.
Qed.

Lemma normalize_title_words_witness :
  PyWords.split (normalize_title "The  NEW Galaxy S21 with 5G")
  = drop_noise (PyWords.split (PyText.lower "The  NEW Galaxy S21 with 5G"))
  ∧ (∀ w, w ∈ title_words "The  NEW Galaxy S21 with 5G" →
          (w ∉ noise_words)
          ∧ w ∈ PyWords.split (PyText.lower "The  NEW Galaxy S21 with 5G"))
  ∧ normalize_title (normalize_title "The  NEW Galaxy S21 with 5G")
    = normalize_title "The  NEW Galaxy S21 with 5G".
Proof.
  apply normalize_title_words. vm_compute. reflexivity.
Defined.

Example normalize_title_sample :
  normalize_title "The  NEW Galaxy S21 with 5G" = "galaxy s21"
  ∧ PyWords.split "  a  b c " = ["a"; "b"; "c"]
  ∧ normalize_title "the and" = "".
Proof. vm_compute. done. Qed.

(** ** Properties of the price parser *)

(** The builtin [float] on a plain string of ASCII digits. *)
Definition float_of_digits (s : list N) : option float :=
  match s with
  | [] => None
  | _ =>
      fold_left
        (λ acc c,
           acc ← acc;
           if ((48 <=? c) && (c <=? 57))%N then
             Some (acc * 10 + PyFloat.of_nat (N.to_nat (c - 48)))%float
           else None)
        s (Some 0%float)
  end.

Section ParsePriceFacts.
Variable float_of : list N → option float.

(** X18.  A price text is read without its currency signs, commas and
    white space, and only up to its first full stop: adding one such
    character anywhere, and a full stop with anything after it at the end,
    does not change the price. *)
Theorem parse_price_ignores_decoration (a b u : list N) (c : N) :
  PyPrice.dropped c = true →
  a ++ b ≠ [] →
  parse_price float_of (a ++ c :: b ++ PyPrice.full_stop :: u)
  = parse_price float_of (a ++ b).
Proof.
  intros Hc Hne. unfold parse_price.
  destruct (a ++ b) as [|x l] eqn:Hab; [done|].
  destruct (a ++ c :: b ++ PyPrice.full_stop :: u) as [|x' l'] eqn:Hacb.
  { by destruct a. }
  rewrite <- Hacb, <- Hab. f_equal.
  change (a ++ c :: b ++ PyPrice.full_stop :: u)
    with (a ++ [c] ++ b ++ PyPrice.full_stop :: u).
  rewrite !cleaned_app.
  assert (PyPrice.cleaned [c] = []) as ->.
  { unfold PyPrice.cleaned. cbn [List.filter]. by rewrite Hc. }
  cbn [app]. rewrite app_assoc, <- cleaned_app.
  change (PyPrice.cleaned (PyPrice.full_stop :: u))
    with (PyPrice.full_stop :: PyPrice.cleaned u).
  apply before_full_stop_app.
Qed.

End ParsePriceFacts.

Lemma parse_price_ignores_decoration_witness :
  parse_price float_of_digits [49; 44; 50; 57; 57; 46; 48; 48]%N
  = parse_price float_of_digits [49; 50; 57; 57]%N.
Proof.
  apply (parse_price_ignores_decoration float_of_digits
           [49]%N [50; 57; 57]%N [48; 48]%N 44%N).
  - vm_compute. reflexivity.
  - discriminate.
Defined.

Example parse_price_sample :
  parse_price float_of_digits [8377; 49; 44; 50; 57; 57; 46; 48; 48]%N
  = Some 1299%float
  ∧ parse_price float_of_digits [46; 53; 48]%N = None
  ∧ parse_price float_of_digits [] = None.
Proof. vm_compute. done. Qed.
